(** * HACCP Pro: the record model, its updates, persistence and exports

    A shallow embedding of [src/App.tsx] (the React application together with
    the helpers of [utils.ts] that follow it in the same file) and of
    [src/constants.ts] (the seed checklist and the interfaces of [types.ts]).

    Layout of the development:
    - [JS]: the JavaScript values the program stores and exchanges, property
      reads, truthiness, and the platform's [JSON.stringify] / [JSON.parse];
    - the interfaces of [types.ts] as records, and the seed data;
    - the update engine ([saveCheck], [updateRecord]) over a store of objects;
    - progress, the tabular export, the configuration operations;
    - load, debounced save, backup export and import;
    - the health edits, the check list with its modal, the history, and the
      text the save effect stores. *)

From Stdlib Require Import ZArith List String Ascii Bool Lia Sorted.
From Stdlib Require Import Decimal DecimalFacts DecimalPos DecimalN DecimalZ DecimalString.
From Stdlib Require Import PrimFloat FloatOps SpecFloat FloatAxioms Uint63.
From stdpp Require Import gmap strings list.

Local Open Scope string_scope.
#[local] Arguments String.append !_ _ / : simpl nomatch.

(** ** Characters the JSON grammar names *)

Definition dquote : ascii := "034"%char.
Definition backslash : ascii := "092"%char.
Definition newline : ascii := "010"%char.
Definition nl : string := String newline EmptyString.
Definition str1 (c : ascii) : string := String c EmptyString.

Module JS.

(** ** Values

    A number written as an integer is that integer: the only numeric field
    of the persisted state is [displayOrder], which the program sets from an
    array length or from the seed table, and the integers are taken within
    the range where a Number is exact and is written in plain decimal. A
    number written with a fraction or an exponent is kept by its literal.
    Strings are sequences of bytes (UTF-8). An object is its list of own
    properties in insertion order; the keys of the program are dates and
    field names, none of which is an array index. *)

Local Unset Elimination Schemes.
Inductive value : Type :=
| VUndefined
| VNull
| VBool (b : bool)
| VNum (n : Z)
| VDec (lit : string)
| VStr (s : string)
| VArr (l : list value)
| VObj (l : list (string * value)).
Local Set Elimination Schemes.

Section value_induction.
Variable P : value -> Prop.
Hypothesis Hundef : P VUndefined.
Hypothesis Hnull : P VNull.
Hypothesis Hbool : forall b, P (VBool b).
Hypothesis Hnum : forall n, P (VNum n).
Hypothesis Hdec : forall lit, P (VDec lit).
Hypothesis Hstr : forall s, P (VStr s).
Hypothesis Harr : forall l, Forall P l -> P (VArr l).
Hypothesis Hobj : forall l, Forall (fun kv => P (snd kv)) l -> P (VObj l).

Fixpoint value_ind (v : value) : P v :=
  match v with
  | VUndefined => Hundef
  | VNull => Hnull
  | VBool b => Hbool b
  | VNum n => Hnum n
  | VDec lit => Hdec lit
  | VStr s => Hstr s
  | VArr l =>
      Harr l ((fix go (l : list value) : Forall P l :=
                 match l with
                 | [] => @List.Forall_nil _ P
                 | x :: r => @List.Forall_cons _ P x r (value_ind x) (go r)
                 end) l)
  | VObj l =>
      Hobj l ((fix go (l : list (string * value)) : Forall (fun kv => P (snd kv)) l :=
                 match l with
                 | [] => @List.Forall_nil _ _
                 | kv :: r =>
                     @List.Forall_cons _ (fun kv => P (snd kv)) kv r (value_ind (snd kv)) (go r)
                 end) l)
  end.
End value_induction.

(** Whether the digits of a number literal, up to its exponent, are all 0. *)
Fixpoint mantissa_zero (lit : string) : bool :=
  match lit with
  | EmptyString => true
  | String c r =>
      if Ascii.eqb c "e" || Ascii.eqb c "E" then true
      else if (49 <=? nat_of_ascii c)%nat && (nat_of_ascii c <=? 57)%nat then false
      else mantissa_zero r
  end.

(** [ToBoolean]. *)
Definition truthy (v : value) : bool :=
  match v with
  | VUndefined | VNull => false
  | VBool b => b
  | VNum n => negb (n =? 0)%Z
  | VDec lit => negb (mantissa_zero lit)
  | VStr s => negb (String.eqb s EmptyString)
  | VArr _ | VObj _ => true
  end.

(** Own-property lookup in an object's property list. *)
Fixpoint assoc {A : Type} (k : string) (l : list (string * A)) : option A :=
  match l with
  | [] => None
  | (k', x) :: r => if String.eqb k k' then Some x else assoc k r
  end.

(** [o[k] = x]: an existing property keeps its place, a new one goes last. *)
Fixpoint obj_set {A : Type} (k : string) (x : A) (l : list (string * A)) : list (string * A) :=
  match l with
  | [] => [(k, x)]
  | (k', y) :: r => if String.eqb k k' then (k, x) :: r else (k', y) :: obj_set k x r
  end.

(** The read [v.k]. [None] is the TypeError raised on [null] and [undefined].
    The program reads only names that no built-in prototype defines
    ([config], [records] and the field names of the interfaces), so a read
    on a primitive or an array yields [undefined]. *)
Definition get (v : value) (k : string) : option value :=
  match v with
  | VUndefined | VNull => None
  | VObj l => Some (match assoc k l with Some x => x | None => VUndefined end)
  | VBool _ | VNum _ | VDec _ | VStr _ | VArr _ => Some VUndefined
  end.

(** Whether [v] is an object with an own property [k]. *)
Definition has_property (k : string) (v : value) : bool :=
  match v with
  | VObj l => match assoc k l with Some _ => true | None => false end
  | _ => false
  end.

(** ** [JSON.stringify(v, null, 2)] *)

Definition hex_digit (n : nat) : ascii :=
  match n with
  | 0 => "0" | 1 => "1" | 2 => "2" | 3 => "3" | 4 => "4" | 5 => "5" | 6 => "6"
  | 7 => "7" | 8 => "8" | 9 => "9" | 10 => "a" | 11 => "b" | 12 => "c"
  | 13 => "d" | 14 => "e" | _ => "f"
  end%char.

(** [QuoteJSONString], one code unit at a time. *)
Definition escape_char (c : ascii) : string :=
  let n := nat_of_ascii c in
  if Ascii.eqb c dquote then String backslash (str1 dquote)
  else if Ascii.eqb c backslash then String backslash (str1 backslash)
  else if (n =? 8)%nat then String backslash "b"
  else if (n =? 9)%nat then String backslash "t"
  else if (n =? 10)%nat then String backslash "n"
  else if (n =? 12)%nat then String backslash "f"
  else if (n =? 13)%nat then String backslash "r"
  else if (n <? 32)%nat then
    String backslash (String "u" (String "0" (String "0"
      (String (hex_digit (n / 16)) (str1 (hex_digit (n mod 16)))))))
  else str1 c.

Fixpoint escape (s : string) : string :=
  match s with
  | EmptyString => EmptyString
  | String c r => escape_char c +:+ escape r
  end.

Definition quote (s : string) : string :=
  String dquote (escape s +:+ str1 dquote).

Definition string_of_Z (n : Z) : string :=
  match Z.to_int n with
  | Decimal.Pos u => NilEmpty.string_of_uint u
  | Decimal.Neg u => String "-" (NilEmpty.string_of_uint u)
  end.

Definition gap : string := "  ".

Section members.
Variables ind ind' : string.
Variable elem : value -> string.
Variable prop : value -> option string.

(** What follows the first element of a non-empty array. *)
Fixpoint ser_rest (l : list value) : string :=
  match l with
  | [] => nl +:+ ind +:+ "]"
  | y :: r => "," +:+ nl +:+ ind' +:+ elem y +:+ ser_rest r
  end.

(** The members of an object; a property whose value serialises to
    [undefined] is left out. [first] holds until a member has been written. *)
Fixpoint ser_members (first : bool) (l : list (string * value)) : string :=
  match l with
  | [] => if first then EmptyString else nl +:+ ind +:+ "}"
  | (k, x) :: r =>
      match prop x with
      | None => ser_members first r
      | Some t =>
          (if first then "{" +:+ nl else "," +:+ nl) +:+ ind' +:+
          quote k +:+ ": " +:+ t +:+ ser_members false r
      end
  end.
End members.

Definition or_null (o : option string) : string :=
  match o with Some t => t | None => "null" end.

(** [SerializeJSONProperty]: [None] is the result [undefined]. [ind] is the
    indentation of the enclosing line. *)
Fixpoint ser (ind : string) (v : value) {struct v} : option string :=
  match v with
  | VUndefined => None
  | VNull => Some "null"
  | VBool true => Some "true"
  | VBool false => Some "false"
  | VNum n => Some (string_of_Z n)
  | VDec lit => Some lit
  | VStr s => Some (quote s)
  | VArr l =>
      let ind' := ind +:+ gap in
      let elem x := or_null (ser ind' x) in
      Some (match l with
            | [] => "[]"
            | x :: r => "[" +:+ nl +:+ ind' +:+ elem x +:+ ser_rest ind ind' elem r
            end)
  | VObj l =>
      let ind' := ind +:+ gap in
      Some (match ser_members ind ind' (ser ind') true l with
            | EmptyString => "{}"
            | body => body
            end)
  end.

Definition stringify (v : value) : option string := ser EmptyString v.

(** ** [JSON.parse] *)

Definition is_ws (c : ascii) : bool :=
  let n := nat_of_ascii c in
  (n =? 32)%nat || (n =? 10)%nat || (n =? 13)%nat || (n =? 9)%nat.

Fixpoint skip_ws (s : string) : string :=
  match s with
  | String c r => if is_ws c then skip_ws r else s
  | EmptyString => s
  end.

Local Open Scope N_scope.
Definition hex_val (c : ascii) : option N :=
  let n := N_of_ascii c in
  if (48 <=? n) && (n <=? 57) then Some (n - 48)
  else if (97 <=? n) && (n <=? 102) then Some (n - 87)
  else if (65 <=? n) && (n <=? 70) then Some (n - 55)
  else None.

(** The bytes of a code unit written as an escape: one, two or three, a
    surrogate included. *)
Definition utf8 (cp : N) : string :=
  if cp <? 128 then str1 (ascii_of_N cp)
  else if cp <? 2048 then
    String (ascii_of_N (192 + cp / 64)) (str1 (ascii_of_N (128 + cp mod 64)))
  else
    String (ascii_of_N (224 + cp / 4096))
      (String (ascii_of_N (128 + (cp / 64) mod 64))
         (str1 (ascii_of_N (128 + cp mod 64)))).

Local Close Scope N_scope.

Definition simple_escape (e : ascii) : option ascii :=
  if Ascii.eqb e dquote then Some dquote
  else if Ascii.eqb e backslash then Some backslash
  else if Ascii.eqb e "/" then Some "/"%char
  else if Ascii.eqb e "b" then Some "008"%char
  else if Ascii.eqb e "f" then Some "012"%char
  else if Ascii.eqb e "n" then Some "010"%char
  else if Ascii.eqb e "r" then Some "013"%char
  else if Ascii.eqb e "t" then Some "009"%char
  else None.

Definition prepend (p : string) (r : option (string * string)) : option (string * string) :=
  match r with
  | Some (s, rest) => Some (p +:+ s, rest)
  | None => None
  end.

(** The characters of a string literal after its opening quote; the result
    is the decoded string and what follows the closing quote. *)
Fixpoint parse_chars (s : string) : option (string * string) :=
  match s with
  | EmptyString => None
  | String c r =>
      if Ascii.eqb c dquote then Some (EmptyString, r)
      else if Ascii.eqb c backslash then
        match r with
        | EmptyString => None
        | String e r' =>
            match simple_escape e with
            | Some c' => prepend (str1 c') (parse_chars r')
            | None =>
                if Ascii.eqb e "u" then
                  match r' with
                  | String h1 (String h2 (String h3 (String h4 r''))) =>
                      match hex_val h1, hex_val h2, hex_val h3, hex_val h4 with
                      | Some a, Some b, Some c1, Some d =>
                          prepend (utf8 (((a * 16 + b) * 16 + c1) * 16 + d))
                            (parse_chars r'')
                      | _, _, _, _ => None
                      end
                  | _ => None
                  end
                else None
            end
        end
      else if (nat_of_ascii c <? 32)%nat then None
      else prepend (str1 c) (parse_chars r)
  end.

Definition digit_of (c : ascii) : option (Decimal.uint -> Decimal.uint) :=
  match nat_of_ascii c with
  | 48 => Some Decimal.D0 | 49 => Some Decimal.D1 | 50 => Some Decimal.D2
  | 51 => Some Decimal.D3 | 52 => Some Decimal.D4 | 53 => Some Decimal.D5
  | 54 => Some Decimal.D6 | 55 => Some Decimal.D7 | 56 => Some Decimal.D8
  | 57 => Some Decimal.D9 | _ => None
  end.

Fixpoint take_digits (s : string) : Decimal.uint * string :=
  match s with
  | EmptyString => (Decimal.Nil, s)
  | String c r =>
      match digit_of c with
      | Some d => let (u, rest) := take_digits r in (d u, rest)
      | None => (Decimal.Nil, s)
      end
  end.

(** The grammar's [int]: a single [0], or digits that do not start with [0]. *)
Definition int_ok (u : Decimal.uint) : bool :=
  match u with
  | Decimal.Nil => false
  | Decimal.D0 Decimal.Nil => true
  | Decimal.D0 _ => false
  | _ => true
  end.

(** [frac]: a point and at least one digit. The result is the lexeme, empty
    when there is no fraction, and what follows it. *)
Definition lex_frac (s : string) : option (string * string) :=
  match s with
  | String c r =>
      if Ascii.eqb c "." then
        let (u, rest) := take_digits r in
        match u with
        | Decimal.Nil => None
        | _ => Some (String c (NilEmpty.string_of_uint u), rest)
        end
      else Some (EmptyString, s)
  | EmptyString => Some (EmptyString, s)
  end.

(** [exp]: [e] or [E], an optional sign and at least one digit. *)
Definition lex_exp (s : string) : option (string * string) :=
  match s with
  | String c r =>
      if Ascii.eqb c "e" || Ascii.eqb c "E" then
        let (sign, body) :=
          match r with
          | String d r' =>
              if Ascii.eqb d "+" || Ascii.eqb d "-" then (str1 d, r') else (EmptyString, r)
          | EmptyString => (EmptyString, r)
          end in
        let (u, rest) := take_digits body in
        match u with
        | Decimal.Nil => None
        | _ => Some (String c (sign +:+ NilEmpty.string_of_uint u), rest)
        end
      else Some (EmptyString, s)
  | EmptyString => Some (EmptyString, s)
  end.

(** A number token: an optional [-], [int], an optional [frac], an
    optional [exp]. *)
Definition parse_number (s : string) : option (value * string) :=
  let (neg, body) :=
    match s with
    | String c r => if Ascii.eqb c "-" then (true, r) else (false, s)
    | EmptyString => (false, s)
    end in
  let (u, rest) := take_digits body in
  if int_ok u then
    match lex_frac rest with
    | None => None
    | Some (fr, rest1) =>
        match lex_exp rest1 with
        | None => None
        | Some (ex, rest2) =>
            match fr, ex with
            | EmptyString, EmptyString =>
                Some (VNum (Z.of_int (if neg then Decimal.Neg u else Decimal.Pos u)), rest2)
            | _, _ =>
                Some (VDec ((if neg then "-" else EmptyString) +:+
                            NilEmpty.string_of_uint u +:+ fr +:+ ex), rest2)
            end
        end
    end
  else None.

Fixpoint strip_prefix (p s : string) : option string :=
  match p, s with
  | EmptyString, _ => Some s
  | String a p', String b s' => if Ascii.eqb a b then strip_prefix p' s' else None
  | String _ _, EmptyString => None
  end.

(** The next character that is not white space, and what follows it. *)
Definition next (s : string) : option (ascii * string) :=
  match skip_ws s with
  | String c r => Some (c, r)
  | EmptyString => None
  end.

Definition obj_of_members (l : list (string * value)) : list (string * value) :=
  fold_left (fun o kv => obj_set (fst kv) (snd kv) o) l [].

Fixpoint parse_value (fuel : nat) (s : string) {struct fuel} : option (value * string) :=
  match fuel with
  | O => None
  | S fuel' =>
      match next s with
      | None => None
      | Some (c, r) =>
          if Ascii.eqb c "[" then
            let elems :=
              match parse_elems fuel' r with
              | Some (l, r') => Some (VArr l, r')
              | None => None
              end in
            match next r with
            | Some (c', r') => if Ascii.eqb c' "]" then Some (VArr [], r') else elems
            | None => elems
            end
          else if Ascii.eqb c "{" then
            let members :=
              match parse_members fuel' r with
              | Some (l, r') => Some (VObj (obj_of_members l), r')
              | None => None
              end in
            match next r with
            | Some (c', r') => if Ascii.eqb c' "}" then Some (VObj [], r') else members
            | None => members
            end
          else if Ascii.eqb c dquote then
            match parse_chars r with
            | Some (str, r') => Some (VStr str, r')
            | None => None
            end
          else if Ascii.eqb c "n" then
            match strip_prefix "ull" r with Some r' => Some (VNull, r') | None => None end
          else if Ascii.eqb c "t" then
            match strip_prefix "rue" r with Some r' => Some (VBool true, r') | None => None end
          else if Ascii.eqb c "f" then
            match strip_prefix "alse" r with Some r' => Some (VBool false, r') | None => None end
          else parse_number (String c r)
      end
  end
with parse_elems (fuel : nat) (s : string) {struct fuel} : option (list value * string) :=
  match fuel with
  | O => None
  | S fuel' =>
      match parse_value fuel' s with
      | None => None
      | Some (v, r) =>
          match next r with
          | Some (c, r') =>
              if Ascii.eqb c "," then
                match parse_elems fuel' r' with
                | Some (l, r'') => Some (v :: l, r'')
                | None => None
                end
              else if Ascii.eqb c "]" then Some ([v], r')
              else None
          | None => None
          end
      end
  end
with parse_members (fuel : nat) (s : string) {struct fuel}
  : option (list (string * value) * string) :=
  match fuel with
  | O => None
  | S fuel' =>
      match next s with
      | Some (c, r) =>
          if Ascii.eqb c dquote then
            match parse_chars r with
            | None => None
            | Some (k, r1) =>
                match next r1 with
                | Some (c1, r2) =>
                    if Ascii.eqb c1 ":" then
                      match parse_value fuel' r2 with
                      | None => None
                      | Some (v, r3) =>
                          match next r3 with
                          | Some (c', r4) =>
                              if Ascii.eqb c' "," then
                                match parse_members fuel' r4 with
                                | Some (l, r5) => Some ((k, v) :: l, r5)
                                | None => None
                                end
                              else if Ascii.eqb c' "}" then Some ([(k, v)], r4)
                              else None
                          | None => None
                          end
                      end
                    else None
                | None => None
                end
            end
          else None
      | None => None
      end
  end.

(** [None] is the SyntaxError. *)
Definition parse (s : string) : option value :=
  match parse_value (2 * String.length s + 2) s with
  | Some (v, rest) =>
      match next rest with
      | None => Some v
      | Some _ => None
      end
  | None => None
  end.

(** A literal kept as it was written is a number token with a fraction or
    an exponent. *)
Definition number_literal (lit : string) : Prop :=
  parse_number lit = Some (VDec lit, EmptyString).

(** Objects have each key once, kept literals are number tokens. *)
Fixpoint wf (v : value) : Prop :=
  match v with
  | VArr l => (fix all (l : list value) : Prop :=
                 match l with [] => True | x :: r => wf x /\ all r end) l
  | VObj l => NoDup (map fst l) /\
              (fix all (l : list (string * value)) : Prop :=
                 match l with [] => True | kv :: r => wf (snd kv) /\ all r end) l
  | VDec lit => number_literal lit
  | _ => True
  end.

(** ** What a value becomes through [JSON.parse(JSON.stringify(v))] *)

Definition null_if_undefined (v : value) : value :=
  match v with VUndefined => VNull | _ => v end.

Definition is_undefined (v : value) : bool :=
  match v with VUndefined => true | _ => false end.

Section members_of.
Variable norm : value -> value.
Variable sz : value -> nat.

Fixpoint norm_members (l : list (string * value)) : list (string * value) :=
  match l with
  | [] => []
  | (k, x) :: r =>
      if is_undefined x then norm_members r else (k, norm x) :: norm_members r
  end.

Fixpoint sum_elems (l : list value) : nat :=
  match l with
  | [] => 0
  | x :: r => S (sz x) + sum_elems r
  end.

Fixpoint sum_members (l : list (string * value)) : nat :=
  match l with
  | [] => 0
  | (_, x) :: r => if is_undefined x then sum_members r else S (sz x) + sum_members r
  end.
End members_of.

Fixpoint normalise (v : value) : value :=
  match v with
  | VArr l => VArr (map (fun x => null_if_undefined (normalise x)) l)
  | VObj l => VObj (norm_members normalise l)
  | _ => v
  end.

(** Fuel that [parse_value] needs on the text of a value. *)
Fixpoint size (v : value) : nat :=
  match v with
  | VArr l => S (sum_elems size l)
  | VObj l => S (sum_members size l)
  | _ => 1
  end.

(** Strings of white space (indentation), and where a token may end. *)
Fixpoint all_ws (s : string) : bool :=
  match s with
  | EmptyString => true
  | String c r => is_ws c && all_ws r
  end.

Definition delim (rest : string) : bool :=
  match rest with
  | EmptyString => true
  | String c _ => Ascii.eqb c "," || Ascii.eqb c newline
  end.

(** The text of [v], at any indentation and before any delimiter, parses
    back to [normalise v] and leaves what follows it. *)
Definition reparses (v : value) : Prop :=
  forall (ind : string) (fuel : nat) (rest t : string),
    all_ws ind = true -> delim rest = true -> ser ind v = Some t -> size v <= fuel ->
    parse_value fuel (t +:+ rest) = Some (normalise v, rest).

End JS.

Import JS.

(** * The interfaces of [types.ts] *)

Inductive RecordResult : Type := YES | NO.

(** [CheckItem.type]: ['boolean' | 'record']. *)
Inductive ItemType : Type := boolean | record.

(** [HealthRecord.symptom] and [.wound]: ['なし' | 'あり']. *)
Inductive Presence : Type := nashi | ari.

Module CheckItem.
Record t : Type := mk {
  id : string;
  category : string;
  text : string;
  type : ItemType;
  unit : option string;
  displayOrder : Z
}.
End CheckItem.
Abbreviation CheckItem := CheckItem.t.

Module DailyCheckResult.
Record t : Type := mk {
  itemId : string;
  result : option RecordResult;
  value : option string;
  comment : option string;
  photo : option string
}.
End DailyCheckResult.
Abbreviation DailyCheckResult := DailyCheckResult.t.

Module HealthRecord.
Record t : Type := mk {
  temp : string;
  symptom : Presence;
  wound : Presence;
  details : option string
}.
End HealthRecord.
Abbreviation HealthRecord := HealthRecord.t.

Module DayRecord.
Record t : Type := mk {
  date : string;
  checks : list DailyCheckResult;
  health : HealthRecord;
  lastUpdated : string
}.
End DayRecord.
Abbreviation DayRecord := DayRecord.t.

(** [records] is an object keyed by date: its properties in insertion order. *)
Module AppState.
Record t : Type := mk {
  checklistConfig : list CheckItem;
  records : list (string * DayRecord)
}.
End AppState.
Abbreviation AppState := AppState.t.

(** ** [constants.ts] *)

Definition seed (id category text : string) (type : ItemType) (unit : option string)
    (displayOrder : Z) : CheckItem :=
  CheckItem.mk id category text type unit displayOrder.

Definition DEFAULT_CHECKLIST : list CheckItem :=
  [ seed "c1" "一般的衛生管理" "調理従事者の健康チェック・服装・手洗い" boolean None 1;
    seed "c2" "一般的衛生管理" "調理器具（包丁・まな板）の洗浄・消毒" boolean None 2;
    seed "c3" "一般的衛生管理" "冷蔵庫の温度確認（10℃以下）" record (Some "℃") 3;
    seed "c4" "一般的衛生管理" "冷凍庫の温度確認（-15℃以下）" record (Some "℃") 4;
    seed "c5" "一般的衛生管理" "調理場の清掃・ゴミの処理" boolean None 5;
    seed "c6" "一般的衛生管理" "トイレの洗浄・消毒" boolean None 6;
    seed "h1" "重要管理点 (HACCP)" "食材受入時の鮮度・品温確認" boolean None 7;
    seed "h2" "重要管理点 (HACCP)" "加熱調理時の中心温度確認（75℃ 1分以上）" boolean None 8;
    seed "h3" "重要管理点 (HACCP)" "加熱後の食品の冷却処理（速やかに冷却）" boolean None 9;
    seed "h4" "重要管理点 (HACCP)" "再加熱時の中心温度確認" boolean None 10;
    seed "h5" "重要管理点 (HACCP)" "揚げ油の交換基準確認" boolean None 11 ]%Z.

(** ** The interfaces as JavaScript objects

    [to_value] builds the object the way the program's object literals do;
    [of_value] reads a value at an interface: the listed fields by name, an
    optional field absent, [undefined] or [null] when it has no value. *)

Module Codec.

Definition field (k : string) (v : JS.value) : JS.value :=
  match v with
  | VObj l => match assoc k l with Some x => x | None => VUndefined end
  | _ => VUndefined
  end.

Definition as_string (v : JS.value) : option string :=
  match v with VStr s => Some s | _ => None end.

Definition as_number (v : JS.value) : option Z :=
  match v with VNum n => Some n | _ => None end.

Definition as_optional (v : JS.value) : option (option string) :=
  match v with
  | VStr s => Some (Some s)
  | VUndefined | VNull => Some None
  | _ => None
  end.

Definition of_optional (k : string) (o : option string) : list (string * JS.value) :=
  match o with Some s => [(k, VStr s)] | None => [] end.

Definition or_undefined (o : option string) : JS.value :=
  match o with Some s => VStr s | None => VUndefined end.

Definition or_null (o : option string) : JS.value :=
  match o with Some s => VStr s | None => VNull end.

Fixpoint traverse {A B : Type} (f : A -> option B) (l : list A) : option (list B) :=
  match l with
  | [] => Some []
  | x :: r =>
      match f x, traverse f r with
      | Some y, Some ys => Some (y :: ys)
      | _, _ => None
      end
  end.

Definition type_to_value (t : ItemType) : JS.value :=
  VStr (match t with boolean => "boolean" | record => "record" end).

Definition type_of_value (v : JS.value) : option ItemType :=
  match v with
  | VStr s => if String.eqb s "boolean" then Some boolean
              else if String.eqb s "record" then Some record else None
  | _ => None
  end.

Definition result_to_value (r : option RecordResult) : JS.value :=
  match r with Some YES => VStr "YES" | Some NO => VStr "NO" | None => VNull end.

Definition result_of_value (v : JS.value) : option (option RecordResult) :=
  match v with
  | VStr s => if String.eqb s "YES" then Some (Some YES)
              else if String.eqb s "NO" then Some (Some NO) else None
  | VNull | VUndefined => Some None
  | _ => None
  end.

Definition presence_to_value (p : Presence) : JS.value :=
  VStr (match p with nashi => "なし" | ari => "あり" end).

Definition presence_of_value (v : JS.value) : option Presence :=
  match v with
  | VStr s => if String.eqb s "なし" then Some nashi
              else if String.eqb s "あり" then Some ari else None
  | _ => None
  end.

(** The literals of [DEFAULT_CHECKLIST] and of [handleAddItem]. *)
Definition item_to_value (c : CheckItem) : JS.value :=
  VObj ([("id", VStr (CheckItem.id c)); ("category", VStr (CheckItem.category c));
         ("text", VStr (CheckItem.text c)); ("type", type_to_value (CheckItem.type c))]
        ++ of_optional "unit" (CheckItem.unit c)
        ++ [("displayOrder", VNum (CheckItem.displayOrder c))])%list.

Definition item_of_value (v : JS.value) : option CheckItem :=
  match v with
  | VObj _ =>
      match as_string (field "id" v), as_string (field "category" v),
            as_string (field "text" v), type_of_value (field "type" v),
            as_optional (field "unit" v), as_number (field "displayOrder" v) with
      | Some i, Some c, Some t, Some ty, Some u, Some d => Some (CheckItem.mk i c t ty u d)
      | _, _, _, _, _, _ => None
      end
  | _ => None
  end.

(** The literal of [CheckModal.handleSave]: [value] is [undefined] for an
    item that is not a [record], [photo] is [null] when none was taken. *)
Definition check_to_value (r : DailyCheckResult) : JS.value :=
  VObj [("itemId", VStr (DailyCheckResult.itemId r));
        ("result", result_to_value (DailyCheckResult.result r));
        ("value", or_undefined (DailyCheckResult.value r));
        ("comment", or_undefined (DailyCheckResult.comment r));
        ("photo", or_null (DailyCheckResult.photo r))].

Definition check_of_value (v : JS.value) : option DailyCheckResult :=
  match v with
  | VObj _ =>
      match as_string (field "itemId" v), result_of_value (field "result" v),
            as_optional (field "value" v), as_optional (field "comment" v),
            as_optional (field "photo" v) with
      | Some i, Some r, Some x, Some c, Some p => Some (DailyCheckResult.mk i r x c p)
      | _, _, _, _, _ => None
      end
  | _ => None
  end.

(** The literal of [getRecordForDate], with [details] once [HealthView] has set it. *)
Definition health_to_value (h : HealthRecord) : JS.value :=
  VObj ([("temp", VStr (HealthRecord.temp h));
         ("symptom", presence_to_value (HealthRecord.symptom h));
         ("wound", presence_to_value (HealthRecord.wound h))]
        ++ of_optional "details" (HealthRecord.details h))%list.

Definition health_of_value (v : JS.value) : option HealthRecord :=
  match v with
  | VObj _ =>
      match as_string (field "temp" v), presence_of_value (field "symptom" v),
            presence_of_value (field "wound" v), as_optional (field "details" v) with
      | Some t, Some s, Some w, Some d => Some (HealthRecord.mk t s w d)
      | _, _, _, _ => None
      end
  | _ => None
  end.

Definition day_to_value (d : DayRecord) : JS.value :=
  VObj [("date", VStr (DayRecord.date d));
        ("checks", VArr (map check_to_value (DayRecord.checks d)));
        ("health", health_to_value (DayRecord.health d));
        ("lastUpdated", VStr (DayRecord.lastUpdated d))].

Definition day_of_value (v : JS.value) : option DayRecord :=
  match v with
  | VObj _ =>
      match as_string (field "date" v),
            match field "checks" v with
            | VArr l => traverse check_of_value l
            | _ => None
            end,
            health_of_value (field "health" v), as_string (field "lastUpdated" v) with
      | Some d, Some c, Some h, Some u => Some (DayRecord.mk d c h u)
      | _, _, _, _ => None
      end
  | _ => None
  end.

Definition config_to_value (c : list CheckItem) : JS.value :=
  VArr (map item_to_value c).

Definition config_of_value (v : JS.value) : option (list CheckItem) :=
  match v with
  | VArr l => traverse item_of_value l
  | _ => None
  end.

Definition records_to_value (r : list (string * DayRecord)) : JS.value :=
  VObj (map (fun kd => (fst kd, day_to_value (snd kd))) r).

Definition records_of_value (v : JS.value) : option (list (string * DayRecord)) :=
  match v with
  | VObj l =>
      traverse (fun kv => match day_of_value (snd kv) with
                          | Some d => Some (fst kv, d)
                          | None => None
                          end) l
  | _ => None
  end.

(** The object [{ config, records }] that is persisted and backed up. *)
Definition state_to_value (s : AppState) : JS.value :=
  VObj [("config", config_to_value (AppState.checklistConfig s));
        ("records", records_to_value (AppState.records s))].

Definition state_of_value (v : JS.value) : option AppState :=
  match v with
  | VObj _ =>
      match config_of_value (field "config" v), records_of_value (field "records" v) with
      | Some c, Some r => Some (AppState.mk c r)
      | _, _ => None
      end
  | _ => None
  end.

End Codec.


(** * The update engine ([App.tsx]: [getRecordForDate], [updateRecord],
      [CheckListView.saveCheck])

    The day records, their [checks] arrays and their [health] objects are
    objects with identity: a spread [{ ...record }] copies references, a
    [push] or an assignment to [lastUpdated] changes an object in place. The
    check results themselves are never assigned to, so an array holds them
    by value. *)

Module Engine.

Definition loc : Type := nat.

Inductive cell : Type :=
| CArray (elems : list DailyCheckResult)
| CHealth (h : HealthRecord)
| CRecord (date : string) (checks : loc) (health : loc) (lastUpdated : string).

Abbreviation heap := (gmap loc cell).

(** A computation over the object store; [None] is a TypeError. *)
Definition M (A : Type) : Type := heap -> option (A * heap).

Definition ret {A : Type} (a : A) : M A := fun h => Some (a, h).

Definition bind {A B : Type} (m : M A) (k : A -> M B) : M B :=
  fun h => match m h with Some (a, h') => k a h' | None => None end.

Notation "'let*' x ':=' m 'in' k" := (bind m (fun x => k))
  (at level 10, x pattern, m at level 100, k at level 200).

Definition alloc (c : cell) : M loc :=
  fun h => let l := fresh (dom h) in Some (l, <[l := c]> h).

Definition deref (l : loc) : M cell :=
  fun h => match h !! l with Some c => Some (c, h) | None => None end.

Definition assign (l : loc) (c : cell) : M unit :=
  fun h => Some (tt, <[l := c]> h).

(** The day record an object denotes. *)
Definition read_record (h : heap) (l : loc) : option DayRecord :=
  match h !! l with
  | Some (CRecord d c hl u) =>
      match h !! c, h !! hl with
      | Some (CArray cs), Some (CHealth hr) => Some (DayRecord.mk d cs hr u)
      | _, _ => None
      end
  | _ => None
  end.

(** [getRecordForDate]: the record the state holds for [date], or a new
    default one. [now] is [new Date().toISOString()]. *)
Definition getRecordForDate (records : list (string * loc)) (date now : string) : M loc :=
  match assoc date records with
  | Some l => ret l
  | None =>
      let* checks := alloc (CArray []) in
      let* health := alloc (CHealth (HealthRecord.mk EmptyString nashi nashi None)) in
      alloc (CRecord date checks health now)
  end.

(** [{ ...record }] *)
Definition spread (record : loc) : M loc :=
  let* c := deref record in
  match c with
  | CRecord d cs hl u => alloc (CRecord d cs hl u)
  | _ => fun _ => None
  end.

(** [updateRecord(date, updater)], the function passed to [setRecords]
    applied to the previous map [prev]. [now0] and [now] are the two
    readings of the clock. *)
Definition updateRecord (records : list (string * loc)) (date : string)
    (updater : loc -> M loc) (now0 now : string) (prev : list (string * loc))
  : M (list (string * loc)) :=
  let* current := match assoc date prev with
             | Some l => ret l
             | None => getRecordForDate records date now0
             end in
  let* copy := spread current in
  let* updated := updater copy in
  let* c := deref updated in
  match c with
  | CRecord d cs hl _ =>
      let* _ := assign updated (CRecord d cs hl now) in
      ret (obj_set date updated prev)
  | _ => fun _ => None
  end.

Definition keep_other (result : DailyCheckResult) (c : DailyCheckResult) : bool :=
  negb (String.eqb (DailyCheckResult.itemId c) (DailyCheckResult.itemId result)).

(** [saveCheck(result)] of [CheckListView], up to the call of [onUpdate]:
    the new record object. *)
Definition saveCheck_record (record : loc) (result : DailyCheckResult) : M loc :=
  let* r := deref record in
  match r with
  | CRecord d cs hl u =>
      let* a := deref cs in
      match a with
      | CArray elems =>
          let* newChecks := alloc (CArray (List.filter (keep_other result) elems)) in
          let* _ := assign newChecks
                      (CArray (List.filter (keep_other result) elems ++ [result])%list) in
          alloc (CRecord d newChecks hl u)
      | _ => fun _ => None
      end
  | _ => fun _ => None
  end.

(** [saveCheck] with [onUpdate = newRecord => updateRecord(currentDate, () => newRecord)]. *)
Definition saveCheck (records : list (string * loc)) (currentDate : string) (record : loc)
    (result : DailyCheckResult) (now0 now : string) (prev : list (string * loc))
  : M (list (string * loc)) :=
  let* newRecord := saveCheck_record record result in
  updateRecord records currentDate (fun _ => ret newRecord) now0 now prev.


(** Every record a map names is a record object of the store. *)
Definition holds_records (h : heap) (m : list (string * loc)) : Prop :=
  forall d l, assoc d m = Some l ->
    exists d' cs hl u, h !! l = Some (CRecord d' cs hl u).

End Engine.

(** * Progress ([CheckListView]) *)

Module Progress.

Definition find_check (id : string) (checks : list DailyCheckResult)
  : option DailyCheckResult :=
  List.find (fun r => String.eqb (DailyCheckResult.itemId r) id) checks.

(** [res && res.result] as a condition. *)
Definition completed (record : DayRecord) (item : CheckItem) : bool :=
  match find_check (CheckItem.id item) (DayRecord.checks record) with
  | Some res => match DailyCheckResult.result res with Some _ => true | None => false end
  | None => false
  end.

Definition completedCount (config : list CheckItem) (record : DayRecord) : nat :=
  length (List.filter (completed record) config).

(** An array length as a Number. *)
Definition number_of_nat (n : nat) : float :=
  PrimFloat.of_uint63 (Uint63.of_Z (Z.of_nat n)).

Definition number_of_Z (n : Z) : float :=
  if (n <? 0)%Z then PrimFloat.opp (PrimFloat.of_uint63 (Uint63.of_Z (- n)))
  else PrimFloat.of_uint63 (Uint63.of_Z n).

(** [Math.round]: the nearest integer, a tie going up; NaN, the infinities,
    the zeros and the integers are returned as they are. *)
Definition Math_round (x : float) : float :=
  match Prim2SF x with
  | S754_finite s m e =>
      if (0 <=? e)%Z then x
      else
        let num := (if s then Z.neg m else Z.pos m) in
        let n := ((2 * num + 2 ^ (- e)) / 2 ^ (- e + 1))%Z in
        if (n =? 0)%Z then (if s then PrimFloat.neg_zero else PrimFloat.zero)
        else number_of_Z n
  | _ => x
  end.

Definition progress (config : list CheckItem) (record : DayRecord) : float :=
  Math_round
    (PrimFloat.mul
       (PrimFloat.div (number_of_nat (completedCount config record))
                      (number_of_nat (length config)))
       (number_of_nat 100)).

End Progress.

(** * Configuration operations ([SettingsView]) *)

Module Settings.

(** [`custom_${Date.now()}`] *)
Definition custom_id (now : Z) : string := "custom_" +:+ string_of_Z now.

Definition handleAddItem (now : Z) (config : list CheckItem) : list CheckItem :=
  (config ++ [CheckItem.mk (custom_id now) "その他" "新しいチェック項目" boolean None
                (Z.of_nat (length config) + 1)])%list.

(** [confirmed] is the answer to [window.confirm]. *)
Definition handleDeleteItem (confirmed : bool) (id : string) (config : list CheckItem)
  : list CheckItem :=
  if confirmed
  then List.filter (fun c => negb (String.eqb (CheckItem.id c) id)) config
  else config.

Definition set_text (v : string) (c : CheckItem) : CheckItem :=
  CheckItem.mk (CheckItem.id c) (CheckItem.category c) v (CheckItem.type c)
    (CheckItem.unit c) (CheckItem.displayOrder c).

(** The [onChange] of the text input of row [idx]:
    [newConfig[idx].text = value]. [None] is the TypeError of an index
    without an item. *)
Definition handleTextChange (idx : nat) (v : string) (config : list CheckItem)
  : option (list CheckItem) :=
  match config !! idx with
  | Some c => Some (<[idx := set_text v c]> config)
  | None => None
  end.

Inductive op : Type :=
| Add (now : Z)
| Delete (confirmed : bool) (id : string)
| EditText (idx : nat) (v : string).

(** A failed operation leaves the configuration as it was. *)
Definition apply (o : op) (config : list CheckItem) : list CheckItem :=
  match o with
  | Add now => handleAddItem now config
  | Delete confirmed id => handleDeleteItem confirmed id config
  | EditText idx v =>
      match handleTextChange idx v config with Some c => c | None => config end
  end.

Definition ids (config : list CheckItem) : list string := map CheckItem.id config.

Fixpoint add_times (ops : list op) : list Z :=
  match ops with
  | [] => []
  | Add now :: r => now :: add_times r
  | _ :: r => add_times r
  end.

End Settings.

(** * The tabular export ([utils.ts]: [exportDataToExcel]) *)

Module Excel.

(** [`[${item.category}] ${item.text}`] *)
Definition resultKey (item : CheckItem) : string :=
  "[" +:+ CheckItem.category item +:+ "] " +:+ CheckItem.text item.

(** A string as a condition: the empty string is falsy. *)
Definition nonempty (s : string) : bool := negb (String.eqb s EmptyString).

(** [valueStr] at the end of one iteration of [checklistConfig.forEach]. *)
Definition valueStr (item : CheckItem) (record : DayRecord) : string :=
  let check := Progress.find_check (CheckItem.id item) (DayRecord.checks record) in
  let s0 :=
    match check with
    | Some c =>
        match DailyCheckResult.result c with
        | Some YES => "良"
        | Some NO => "否"
        | None => EmptyString
        end
    | None => EmptyString
    end in
  let s1 :=
    match check with
    | Some c =>
        match DailyCheckResult.value c with
        | Some v =>
            if nonempty v
            then s0 +:+ " (" +:+ v +:+
                 match CheckItem.unit item with Some u => u | None => EmptyString end +:+ ")"
            else s0
        | None => s0
        end
    | None => s0
    end in
  match check with
  | Some c =>
      match DailyCheckResult.comment c with
      | Some m => if nonempty m then s1 +:+ " [メモ: " +:+ m +:+ "]" else s1
      | None => s1
      end
  | None => s1
  end.

(** One iteration: [row[resultKey] = valueStr]. *)
Definition set_cell (record : DayRecord) (row : list (string * string)) (item : CheckItem)
  : list (string * string) :=
  obj_set (resultKey item) (valueStr item record) row.

Definition presence_text (p : Presence) : string :=
  match p with nashi => "なし" | ari => "あり" end.

Section rows.
(** [new Date(s).toLocaleString('ja-JP')] *)
Variable toLocaleString : string -> string.

Definition fixed_cells (record : DayRecord) : list (string * string) :=
  [("日付", DayRecord.date record);
   ("スタッフ体温", HealthRecord.temp (DayRecord.health record));
   ("スタッフ症状", presence_text (HealthRecord.symptom (DayRecord.health record)));
   ("スタッフ傷", presence_text (HealthRecord.wound (DayRecord.health record)));
   ("スタッフ備考",
    match HealthRecord.details (DayRecord.health record) with
    | Some d => d
    | None => EmptyString
    end);
   ("最終更新", toLocaleString (DayRecord.lastUpdated record))].

Definition row_of (checklistConfig : list CheckItem) (record : DayRecord)
  : list (string * string) :=
  fold_left (set_cell record) checklistConfig (fixed_cells record).

(** [Array.prototype.sort] is stable: an element goes after those it does
    not precede. *)
Fixpoint insert_by {A : Type} (cmp : A -> A -> comparison) (x : A) (l : list A) : list A :=
  match l with
  | [] => [x]
  | y :: r =>
      match cmp x y with
      | Lt => x :: y :: r
      | _ => y :: insert_by cmp x r
      end
  end.

Definition sort_by {A : Type} (cmp : A -> A -> comparison) (l : list A) : list A :=
  fold_left (fun acc x => insert_by cmp x acc) l [].

(** The dates are [YYYY-MM-DD] strings, which every collation orders as
    their characters do. *)
Definition localeCompare (a b : string) : comparison := String.compare a b.

(** [(a, b) => b.date.localeCompare(a.date)] *)
Definition by_date_desc (a b : DayRecord) : comparison :=
  localeCompare (DayRecord.date b) (DayRecord.date a).

Definition rows (records : list (string * DayRecord)) (checklistConfig : list CheckItem)
  : list (list (string * string)) :=
  map (row_of checklistConfig) (sort_by by_date_desc (map snd records)).


End rows.

Definition columns (row : list (string * string)) : list string := map fst row.

(** The three parts of a cell. *)
Definition base_part (item : CheckItem) (record : DayRecord) : string :=
  match Progress.find_check (CheckItem.id item) (DayRecord.checks record) with
  | Some c =>
      match DailyCheckResult.result c with
      | Some YES => "良"
      | Some NO => "否"
      | None => EmptyString
      end
  | None => EmptyString
  end.

Definition stored_value (item : CheckItem) (record : DayRecord) : option string :=
  match Progress.find_check (CheckItem.id item) (DayRecord.checks record) with
  | Some c =>
      match DailyCheckResult.value c with
      | Some v => if nonempty v then Some v else None
      | None => None
      end
  | None => None
  end.

Definition stored_comment (item : CheckItem) (record : DayRecord) : option string :=
  match Progress.find_check (CheckItem.id item) (DayRecord.checks record) with
  | Some c =>
      match DailyCheckResult.comment c with
      | Some m => if nonempty m then Some m else None
      | None => None
      end
  | None => None
  end.

Definition value_part (item : CheckItem) (record : DayRecord) : string :=
  match stored_value item record with
  | Some v =>
      " (" +:+ v +:+
      match CheckItem.unit item with Some u => u | None => EmptyString end +:+ ")"
  | None => EmptyString
  end.

Definition comment_part (item : CheckItem) (record : DayRecord) : string :=
  match stored_comment item record with
  | Some m => " [メモ: " +:+ m +:+ "]"
  | None => EmptyString
  end.

(** The cell in the specification's words: the value is appended "if the
    item is a record type and a value is present". *)
Definition cell_spec (item : CheckItem) (record : DayRecord) : string :=
  base_part item record +:+
  match CheckItem.type item with
  | record => value_part item record
  | boolean => EmptyString
  end +:+
  comment_part item record.

End Excel.

(** * The application state: load, debounced save, backup and restore *)

Module App.

Inductive toast_type : Type := success | error.

(** [config], [records], [isLoading] and [toast] of [App]. What a restore
    or a load adopts is whatever the file holds, so the two data fields are
    plain values. *)
Record state : Type := mk {
  config : JS.value;
  records : JS.value;
  isLoading : bool;
  toast : option (string * toast_type)
}.

Definition STORAGE_KEY : string := "haccp_pro_v1".

(** The [useState] initial values. *)
Definition initial : state :=
  mk (Codec.config_to_value DEFAULT_CHECKLIST) (VObj []) true None.

Definition setConfig (c : JS.value) (s : state) : state :=
  mk c (records s) (isLoading s) (toast s).

Definition setRecords (r : JS.value) (s : state) : state :=
  mk (config s) r (isLoading s) (toast s).

Definition setIsLoading (b : bool) (s : state) : state :=
  mk (config s) (records s) b (toast s).

Definition showToast (msg : string) (ty : toast_type) (s : state) : state :=
  mk (config s) (records s) (isLoading s) (Some (msg, ty)).

Definition getItem (key : string) (localStorage : list (string * string)) : option string :=
  assoc key localStorage.

(** The outcome of a [try] block. *)
Inductive outcome : Type := completed | thrown.

(** The body of the [try] of [load]; a [setConfig] that ran before a throw
    stays. *)
Definition load_try (stored : option string) (s : state) : state * outcome :=
  match stored with
  | None => (s, completed)
  | Some text =>
      if String.eqb text EmptyString then (s, completed)
      else
        match JS.parse text with
        | None => (s, thrown)
        | Some parsed =>
            match JS.get parsed "config" with
            | None => (s, thrown)
            | Some c =>
                let s1 := if truthy c then setConfig c s else s in
                match JS.get parsed "records" with
                | None => (s1, thrown)
                | Some r => (if truthy r then setRecords r s1 else s1, completed)
                end
            end
        end
  end.

(** [load]: the state after the [finally], and whether the [catch] logged
    ["Failed to load data"]. No exception leaves it. *)
Definition load (localStorage : list (string * string)) (s : state) : state * bool :=
  let (s', o) := load_try (getItem STORAGE_KEY localStorage) s in
  (setIsLoading false s', match o with thrown => true | completed => false end).

(** [{ config, records }] *)
Definition snapshot (c r : JS.value) : JS.value :=
  VObj [("config", c); ("records", r)].

(** The text of a [Blob] part or of a storage value: [undefined] reads
    ["undefined"]. *)
Definition text_of (o : option string) : string :=
  match o with Some t => t | None => "undefined" end.

(** [exportBackupJSON(data)]: the content of the downloaded file. *)
Definition exportBackupJSON (data : JS.value) : string :=
  text_of (JS.stringify data).

(** [handleBackup] *)
Definition handleBackup (s : state) : string :=
  exportBackupJSON (snapshot (config s) (records s)).

(** [importBackupJSON(file)]: the promise resolves with the parsed text or
    rejects ([None]). *)
Definition importBackupJSON (file : string) : option JS.value := JS.parse file.

Definition msg_restored : string := "復元しました".
Definition msg_invalid : string := "無効なバックアップファイルです".
Definition msg_read_failed : string := "読み込みに失敗しました".

(** [handleRestore]. [file] is [e.target.files?.[0]], [confirmed] the
    answer to [window.confirm]. *)
Definition handleRestore (file : option string) (confirmed : bool) (s : state) : state :=
  match file with
  | None => s
  | Some text =>
      match importBackupJSON text with
      | None => showToast msg_read_failed error s
      | Some data =>
          match JS.get data "config" with
          | None => showToast msg_read_failed error s
          | Some c =>
              if truthy c then
                match JS.get data "records" with
                | None => showToast msg_read_failed error s
                | Some r =>
                    if truthy r then
                      if confirmed
                      then showToast msg_restored success (setRecords r (setConfig c s))
                      else s
                    else showToast msg_invalid error s
                end
              else showToast msg_invalid error s
          end
      end
  end.

(** ** The save effect

    [useEffect(() => { if (isLoading) return; const timer = setTimeout(write,
    500); return () => clearTimeout(timer); }, [config, records, isLoading])].
    Times are in milliseconds; the time of a state change is the time at
    which its effect runs, and a timeout runs as soon as it is due. *)

Record timer : Type := mk_timer {
  tid : nat;
  due : nat;
  t_config : JS.value;
  t_records : JS.value
}.

Record world : Type := mk_world {
  now : nat;
  app : state;
  timers : list timer;          (* pending timeouts, oldest first *)
  next_tid : nat;
  cleanup : option nat;         (* the timer the effect's cleanup clears *)
  localStorage : list (string * string);
  setItem_calls : list string   (* every value handed to [setItem] *)
}.

Section save.
(** Whether the store accepts a value; [setItem] throws otherwise. *)
Variable quota : string -> bool.

Definition clearTimeout (id : nat) (ts : list timer) : list timer :=
  List.filter (fun t => negb (Nat.eqb (tid t) id)) ts.

(** The timeout's callback. *)
Definition write (t : timer) (w : world) : world :=
  let text := text_of (JS.stringify (snapshot (t_config t) (t_records t))) in
  if quota text
  then mk_world (now w) (app w) (timers w) (next_tid w) (cleanup w)
         (obj_set STORAGE_KEY text (localStorage w)) (setItem_calls w ++ [text])%list
  else mk_world (now w)
         (showToast "保存容量が不足しています。古いデータを削除してください。" error (app w))
         (timers w) (next_tid w) (cleanup w) (localStorage w)
         (setItem_calls w ++ [text])%list.

(** Run the timeouts that are due at [t], oldest first. *)
Fixpoint fire (t : nat) (pending : list timer) (w : world) : world :=
  match pending with
  | [] => w
  | tm :: rest =>
      if (due tm <=? t)%nat
      then fire t rest
             (write tm (mk_world (now w) (app w) (clearTimeout (tid tm) (timers w))
                          (next_tid w) (cleanup w) (localStorage w) (setItem_calls w)))
      else fire t rest w
  end.

(** Time passes until [t]. *)
Definition advance (t : nat) (w : world) : world :=
  let w' := fire t (timers w) w in
  mk_world (Nat.max t (now w')) (app w') (timers w') (next_tid w') (cleanup w')
    (localStorage w') (setItem_calls w').

(** The effect after a render in which a dependency changed: the previous
    cleanup, then the body. *)
Definition run_effect (w : world) : world :=
  let ts := match cleanup w with Some id => clearTimeout id (timers w) | None => timers w end in
  if isLoading (app w)
  then mk_world (now w) (app w) ts (next_tid w) None (localStorage w) (setItem_calls w)
  else
    mk_world (now w) (app w)
      (ts ++ [mk_timer (next_tid w) (now w + 500) (config (app w)) (records (app w))])%list
      (S (next_tid w)) (Some (next_tid w)) (localStorage w) (setItem_calls w).

(** A state change: new [config] and [records], then the effect. *)
Definition change (c r : JS.value) (w : world) : world :=
  run_effect
    (mk_world (now w) (setRecords r (setConfig c (app w))) (timers w) (next_tid w)
       (cleanup w) (localStorage w) (setItem_calls w)).

(** State changes at given times, in order. *)
Fixpoint run (changes : list (nat * (JS.value * JS.value))) (w : world) : world :=
  match changes with
  | [] => w
  | (t, (c, r)) :: rest => run rest (change c r (advance t w))
  end.


(** The only pending timeout, if any, is the one the cleanup will clear. *)
Definition settled (w : world) : Prop :=
  match timers w with
  | [] => True
  | [tm] => cleanup w = Some (tid tm)
  | _ => False
  end.

(** The state of a world right after the change to [c], [r]: its timeout is
    the only one pending, due after the delay. *)
Definition pending (c r : JS.value) (w : world) : Prop :=
  exists id, timers w = [mk_timer id (now w + 500) c r] /\ cleanup w = Some id.


End save.

End App.

(** * Health edits ([App.tsx]: [HealthView.handleChange]) *)

Module HealthView.
Import Engine.

(** The calls [handleChange(field, value)] of the view: the temperature and
    the details take the text of their input, the two selectors one of their
    two values. *)
Inductive edit : Type :=
| Temp (value : string)
| Symptom (value : Presence)
| Wound (value : Presence)
| Details (value : string).

(** [{ ...record.health, [field]: value }] *)
Definition newHealth (e : edit) (h : HealthRecord) : HealthRecord :=
  match e with
  | Temp v =>
      HealthRecord.mk v (HealthRecord.symptom h) (HealthRecord.wound h) (HealthRecord.details h)
  | Symptom p =>
      HealthRecord.mk (HealthRecord.temp h) p (HealthRecord.wound h) (HealthRecord.details h)
  | Wound p =>
      HealthRecord.mk (HealthRecord.temp h) (HealthRecord.symptom h) p (HealthRecord.details h)
  | Details v =>
      HealthRecord.mk (HealthRecord.temp h) (HealthRecord.symptom h) (HealthRecord.wound h)
        (Some v)
  end.

(** [handleChange], up to the call of [onUpdate]: the new record object
    [{ ...record, health: newHealth }]. *)
Definition handleChange_record (record : loc) (e : edit) : M loc :=
  let* r := deref record in
  match r with
  | CRecord d cs hl u =>
      let* hc := deref hl in
      match hc with
      | CHealth h =>
          let* nh := alloc (CHealth (newHealth e h)) in
          alloc (CRecord d cs nh u)
      | _ => fun _ => None
      end
  | _ => fun _ => None
  end.

(** [handleChange] with [onUpdate = newRecord => updateRecord(currentDate, () => newRecord)]. *)
Definition handleChange (records : list (string * loc)) (currentDate : string) (record : loc)
    (e : edit) (now0 now : string) (prev : list (string * loc))
  : M (list (string * loc)) :=
  let* newRecord := handleChange_record record e in
  updateRecord records currentDate (fun _ => ret newRecord) now0 now prev.

End HealthView.

(** * The check list ([App.tsx]: [CheckListView], [CheckModal]) *)

Module CheckListView.

(** [new Set(...)] keeps each value once, at its first place. *)
Definition Set_add (seen : list string) (x : string) : list string :=
  if existsb (String.eqb x) seen then seen else (seen ++ [x])%list.

(** [Array.from(new Set(config.map(c => c.category)))] *)
Definition categories (config : list CheckItem) : list string :=
  fold_left Set_add (map CheckItem.category config) [].

(** [(a, b) => a.displayOrder - b.displayOrder] *)
Definition by_displayOrder (a b : CheckItem) : comparison :=
  (CheckItem.displayOrder a ?= CheckItem.displayOrder b)%Z.

(** [config.filter(c => c.category === cat).sort(...)]: the items listed
    under the heading [cat]. *)
Definition items_of (config : list CheckItem) (cat : string) : list CheckItem :=
  Excel.sort_by by_displayOrder
    (List.filter (fun c => String.eqb (CheckItem.category c) cat) config).

(** The headings and the items under each, as rendered. *)
Definition sections (config : list CheckItem) : list (string * list CheckItem) :=
  map (fun cat => (cat, items_of config cat)) (categories config).

End CheckListView.

Module CheckModal.

(** [result], [value], [comment] and [photo] of the modal. *)
Record state : Type := mk {
  result : option RecordResult;
  value : string;
  comment : string;
  photo : option string
}.

(** [s || ''] *)
Definition or_empty (o : option string) : string :=
  match o with Some s => s | None => EmptyString end.

(** [s || null] *)
Definition or_null (o : option string) : option string :=
  match o with
  | Some s => if Excel.nonempty s then Some s else None
  | None => None
  end.

(** The [useState] initial values, from [currentResult]. *)
Definition initial (currentResult : option DailyCheckResult) : state :=
  match currentResult with
  | Some r =>
      mk (DailyCheckResult.result r) (or_empty (DailyCheckResult.value r))
        (or_empty (DailyCheckResult.comment r)) (or_null (DailyCheckResult.photo r))
  | None => mk None EmptyString EmptyString None
  end.

(** [currentResult={record.checks.find(c => c.itemId === modalItem.id)}] *)
Definition opened (item : CheckItem) (record : DayRecord) : state :=
  initial (Progress.find_check (CheckItem.id item) (DayRecord.checks record)).

(** [handleSave]: the result handed to [onSave], none while no answer is
    chosen. *)
Definition handleSave (item : CheckItem) (s : state) : option DailyCheckResult :=
  match result s with
  | None => None
  | Some res =>
      Some (DailyCheckResult.mk (CheckItem.id item) (Some res)
              (match CheckItem.type item with
               | record => Some (value s)
               | boolean => None
               end)
              (Some (comment s)) (photo s))
  end.

(** The checks of the record that [saveCheck(result)] hands to [onUpdate]. *)
Definition newChecks (result : DailyCheckResult) (checks : list DailyCheckResult)
  : list DailyCheckResult :=
  (List.filter (Engine.keep_other result) checks ++ [result])%list.

(** The checks of a day after a sequence of uses of the modal, each given by
    the item opened and the state of the modal when 決定 is pressed. *)
Fixpoint saved (uses : list (CheckItem * state)) (checks : list DailyCheckResult)
  : list DailyCheckResult :=
  match uses with
  | [] => checks
  | (item, s) :: rest =>
      saved rest (match handleSave item s with
                  | Some res => newChecks res checks
                  | None => checks
                  end)
  end.

(** No item of type [boolean] has a value stored. *)
Definition values_typed (config : list CheckItem) (checks : list DailyCheckResult) : Prop :=
  forall item c,
    item ∈ config -> CheckItem.type item = boolean ->
    Progress.find_check (CheckItem.id item) checks = Some c ->
    DailyCheckResult.value c = None.

End CheckModal.

(** * The history ([App.tsx]: [HistoryView]) *)

Module HistoryView.


(** [c.result] as a condition. *)
Definition answered (c : DailyCheckResult) : bool :=
  match DailyCheckResult.result c with Some _ => true | None => false end.

(** [rec.checks.filter(c => c.result).length] *)
Definition checkCount (rec : DayRecord) : nat :=
  length (List.filter answered (DayRecord.checks rec)).

(** [!!rec.health.temp] *)
Definition isTempOk (rec : DayRecord) : bool :=
  Excel.nonempty (HealthRecord.temp (DayRecord.health rec)).

End HistoryView.

(** * What the tabular export leaves out *)

Module Report.

(** A day record with the photos of its checks removed. *)
Definition without_photos (r : DayRecord) : DayRecord :=
  DayRecord.mk (DayRecord.date r)
    (map (fun c => DailyCheckResult.mk (DailyCheckResult.itemId c) (DailyCheckResult.result c)
                     (DailyCheckResult.value c) (DailyCheckResult.comment c) None)
       (DayRecord.checks r))
    (DayRecord.health r) (DayRecord.lastUpdated r).

(** The header cells that every row starts with. *)
Definition fixed_columns : list string :=
  ["日付"; "スタッフ体温"; "スタッフ症状"; "スタッフ傷"; "スタッフ備考"; "最終更新"].

End Report.

(** * The persisted text ([App.tsx]: the save effect) *)

Module Storage.
Import App.

(** ** [JSON.stringify(v)]: no indentation, no white space *)

Section members.
Variable elem : value -> string.
Variable prop : value -> option string.

(** What follows the first element of a non-empty array. *)
Fixpoint ser_rest (l : list value) : string :=
  match l with
  | [] => "]"
  | y :: r => "," +:+ elem y +:+ ser_rest r
  end.

(** The members of an object and its closing brace; a property whose value
    serialises to [undefined] is left out. *)
Fixpoint ser_members (first : bool) (l : list (string * value)) : string :=
  match l with
  | [] => if first then "{}" else "}"
  | (k, x) :: r =>
      match prop x with
      | None => ser_members first r
      | Some t =>
          (if first then "{" else ",") +:+ quote k +:+ ":" +:+ t +:+ ser_members false r
      end
  end.
End members.

Fixpoint ser (v : value) {struct v} : option string :=
  match v with
  | VUndefined => None
  | VNull => Some "null"
  | VBool true => Some "true"
  | VBool false => Some "false"
  | VNum n => Some (string_of_Z n)
  | VDec lit => Some lit
  | VStr s => Some (quote s)
  | VArr l =>
      Some (match l with
            | [] => "[]"
            | x :: r =>
                "[" +:+ JS.or_null (ser x) +:+ ser_rest (fun y => JS.or_null (ser y)) r
            end)
  | VObj l => Some (ser_members ser true l)
  end.

Definition stringify (v : value) : option string := ser v.

(** [JSON.stringify({ config, records })], the value handed to [setItem]. *)
Definition stored_text (c r : JS.value) : string :=
  text_of (stringify (snapshot c r)).

(** Where the text of a value ends inside a text without white space. *)
Definition closes (rest : string) : bool :=
  match rest with
  | EmptyString => true
  | String c _ => Ascii.eqb c "," || Ascii.eqb c "]" || Ascii.eqb c "}"
  end.

(** The text of [v], before the end of the text or a closing token, parses
    back to [normalise v] and leaves what follows it. *)
Definition reparses (v : value) : Prop :=
  forall (fuel : nat) (rest t : string),
    closes rest = true -> ser v = Some t -> size v <= fuel ->
    parse_value fuel (t +:+ rest) = Some (normalise v, rest).

(** ** The save effect with the text it stores *)

Section save.
(** Whether the store accepts a value; [setItem] throws otherwise. *)
Variable quota : string -> bool.

(** The timeout's callback. *)
Definition write (t : timer) (w : world) : world :=
  let text := stored_text (t_config t) (t_records t) in
  if quota text
  then mk_world (now w) (app w) (timers w) (next_tid w) (cleanup w)
         (obj_set STORAGE_KEY text (localStorage w)) (setItem_calls w ++ [text])%list
  else mk_world (now w)
         (showToast "保存容量が不足しています。古いデータを削除してください。" error (app w))
         (timers w) (next_tid w) (cleanup w) (localStorage w)
         (setItem_calls w ++ [text])%list.

(** Run the timeouts that are due at [t], oldest first. *)
Fixpoint fire (t : nat) (pending : list timer) (w : world) : world :=
  match pending with
  | [] => w
  | tm :: rest =>
      if (due tm <=? t)%nat
      then fire t rest
             (write tm (mk_world (now w) (app w) (clearTimeout (tid tm) (timers w))
                          (next_tid w) (cleanup w) (localStorage w) (setItem_calls w)))
      else fire t rest w
  end.

(** Time passes until [t]. *)
Definition advance (t : nat) (w : world) : world :=
  let w' := fire t (timers w) w in
  mk_world (Nat.max t (now w')) (app w') (timers w') (next_tid w') (cleanup w')
    (localStorage w') (setItem_calls w').

(** State changes at given times, in order. *)
Fixpoint run (changes : list (nat * (JS.value * JS.value))) (w : world) : world :=
  match changes with
  | [] => w
  | (t, (c, r)) :: rest => run rest (change c r (advance t w))
  end.

(** The first commit: the load effect runs [load], whose state updates take
    effect with the next render; the save effect of the first render sees
    [isLoading] still true; then the save effect of the render with the
    loaded state. *)
Definition mount (w : world) : world :=
  let w1 := run_effect w in
  let s := fst (load (localStorage w1) (app w1)) in
  run_effect (mk_world (now w1) s (timers w1) (next_tid w1) (cleanup w1)
                (localStorage w1) (setItem_calls w1)).

(** The world of a page just opened on a store, at the time [t]. *)
Definition opened (t : nat) (store : list (string * string)) : world :=
  mk_world t initial [] 0 None store [].

(** Each change comes at least the delay after the one before. *)
Fixpoint spaced (t : nat) (changes : list (nat * (JS.value * JS.value))) : Prop :=
  match changes with
  | [] => True
  | (t', _) :: rest => (t + 500 <= t')%nat /\ spaced t' rest
  end.

End save.

End Storage.

(** * Toasts ([App.tsx]: [showToast]) *)

Module Toast.
Import App.

(** The toast on screen and the times at which the timeouts started by
    [showToast] are due. *)
Record view : Type := mk_view {
  shown : option (string * toast_type);
  timeouts : list nat
}.

(** [showToast(msg, type)] at the time [t]: [setToast({ msg, type })] and
    [setTimeout(() => setToast(null), 3000)]. No timeout is ever cleared. *)
Definition showToast (t : nat) (msg : string) (ty : toast_type) (v : view) : view :=
  mk_view (Some (msg, ty)) (timeouts v ++ [t + 3000])%list.

(** Time passes until [t]: each timeout that is due runs [setToast(null)]. *)
Definition advance (t : nat) (v : view) : view :=
  if existsb (fun d => (d <=? t)%nat) (timeouts v)
  then mk_view None (List.filter (fun d => negb (d <=? t)%nat) (timeouts v))
  else v.

End Toast.

(* ===================================================================== *)
(** * Properties *)
(* ===================================================================== *)


Module JSFacts.

Lemma append_assoc (a b c : string) : (a +:+ b) +:+ c = a +:+ (b +:+ c).
Proof. induction a as [|x a IH]; simpl; [reflexivity | now rewrite IH]. Qed.

Lemma append_empty_r (a : string) : a +:+ EmptyString = a.
Proof. induction a as [|x a IH]; simpl; [reflexivity | now rewrite IH]. Qed.

Lemma length_append (a b : string) :
  String.length (a +:+ b) = String.length a + String.length b.
Proof. induction a as [|x a IH]; simpl; [reflexivity | now rewrite IH]. Qed.

Lemma all_ws_append (a b : string) :
  all_ws a = true -> all_ws b = true -> all_ws (a +:+ b) = true.
Proof.
  induction a as [|x a IH]; simpl; intros Ha Hb; [exact Hb |].
  apply andb_true_iff in Ha as [Hx Ha]. rewrite Hx. simpl. now apply IH.
Qed.

Lemma skip_ws_append (w s : string) :
  all_ws w = true -> skip_ws (w +:+ s) = skip_ws s.
Proof.
  induction w as [|x w IH]; simpl; intros Hw; [reflexivity |].
  apply andb_true_iff in Hw as [Hx Hw]. rewrite Hx. now apply IH.
Qed.

Lemma next_append (w s : string) : all_ws w = true -> next (w +:+ s) = next s.
Proof. intros Hw. unfold next. now rewrite skip_ws_append. Qed.

Lemma next_token (c : ascii) (s : string) :
  is_ws c = false -> next (String c s) = Some (c, s).
Proof. intros Hc. unfold next. simpl. now rewrite Hc. Qed.

(** *** String literals *)

Lemma parse_chars_escape_char (c : ascii) (rest : string) :
  parse_chars (escape_char c +:+ rest) = prepend (str1 c) (parse_chars rest).
Proof.
  destruct c as [[] [] [] [] [] [] [] []]; reflexivity.
Qed.

Lemma parse_chars_escape (s rest : string) :
  parse_chars (escape s +:+ String dquote rest) = Some (s, rest).
Proof.
  induction s as [|c s IH]; [reflexivity |].
  change (escape (String c s)) with (escape_char c +:+ escape s).
  rewrite append_assoc, parse_chars_escape_char, IH. reflexivity.
Qed.

Lemma parse_chars_quote (s rest : string) :
  exists body, quote s +:+ rest = String dquote body /\ parse_chars body = Some (s, rest).
Proof.
  exists (escape s +:+ String dquote rest). split.
  - unfold quote, str1. simpl. now rewrite append_assoc.
  - apply parse_chars_escape.
Qed.

(** *** Numbers *)

Lemma delim_inert (rest : string) :
  delim rest = true ->
  take_digits rest = (Decimal.Nil, rest) /\
  lex_frac rest = Some (EmptyString, rest) /\
  lex_exp rest = Some (EmptyString, rest).
Proof.
  destruct rest as [|c rest]; [now repeat split |]. simpl. intros H.
  apply orb_true_iff in H as [H | H]; apply Ascii.eqb_eq in H; subst c; now repeat split.
Qed.

Lemma take_digits_uint (u : Decimal.uint) (rest : string) :
  take_digits rest = (Decimal.Nil, rest) ->
  take_digits (NilEmpty.string_of_uint u +:+ rest) = (u, rest).
Proof.
  intros Hrest. induction u as [|u IH|u IH|u IH|u IH|u IH|u IH|u IH|u IH|u IH|u IH];
    simpl; [exact Hrest | now rewrite IH ..].
Qed.

Lemma int_ok_pos (p : positive) : int_ok (Pos.to_uint p) = true.
Proof.
  pose proof (DecimalPos.Unsigned.to_of (Pos.to_uint p)) as Hn.
  rewrite DecimalPos.Unsigned.of_to in Hn. simpl in Hn.
  pose proof (DecimalPos.Unsigned.to_uint_nonnil p) as Hnil.
  pose proof (DecimalPos.Unsigned.to_uint_nonzero p) as Hz.
  destruct (Pos.to_uint p) as [|u|u|u|u|u|u|u|u|u|u]; try reflexivity; [congruence |].
  exfalso. unfold unorm in Hn. rewrite nzhead_D0 in Hn.
  destruct (nzhead u) eqn:Eu; try discriminate Hn.
  - injection Hn as Hu. subst u. now apply Hz.
  - exact (nzhead_nonzero _ _ Eu).
Qed.

Lemma digit_dispatch (fuel : nat) (c : ascii) (r : string) :
  digit_of c <> None \/ c = "-"%char ->
  parse_value (S fuel) (String c r) = parse_number (String c r).
Proof.
  destruct c as [[] [] [] [] [] [] [] []];
    first [ reflexivity | intros [H | H]; [now exfalso; apply H | discriminate H] ].
Qed.

Lemma string_of_uint_head (u : Decimal.uint) :
  u <> Decimal.Nil ->
  exists c t, NilEmpty.string_of_uint u = String c t /\ digit_of c <> None.
Proof.
  destruct u; intros Hu; [congruence | ..]; simpl; eexists _, _; (split; [reflexivity | discriminate]).
Qed.

Lemma parse_number_pos (u : Decimal.uint) (rest : string) :
  u <> Decimal.Nil -> int_ok u = true -> delim rest = true ->
  parse_number (NilEmpty.string_of_uint u +:+ rest)
  = Some (VNum (Z.of_int (Decimal.Pos u)), rest).
Proof.
  intros Hu Hok Hd. apply delim_inert in Hd as (Hd & Hf & He).
  destruct (string_of_uint_head u Hu) as (c & t & E & Hc).
  unfold parse_number. rewrite E. simpl.
  assert (Ascii.eqb c "-" = false) as ->.
  { apply Ascii.eqb_neq. intros ->. now apply Hc. }
  change (String c (t +:+ rest)) with (String c t +:+ rest). rewrite <- E.
  rewrite take_digits_uint by exact Hd. now rewrite Hok, Hf, He.
Qed.

Lemma parse_number_neg (u : Decimal.uint) (rest : string) :
  int_ok u = true -> delim rest = true ->
  parse_number (String "-" (NilEmpty.string_of_uint u) +:+ rest)
  = Some (VNum (Z.of_int (Decimal.Neg u)), rest).
Proof.
  intros Hok Hd. apply delim_inert in Hd as (Hd & Hf & He).
  unfold parse_number. simpl.
  rewrite take_digits_uint by exact Hd. now rewrite Hok, Hf, He.
Qed.

Lemma parse_number_Z (n : Z) (rest : string) :
  delim rest = true -> parse_number (string_of_Z n +:+ rest) = Some (VNum n, rest).
Proof.
  intros Hd. unfold string_of_Z. rewrite <- (DecimalZ.of_to n) at 2.
  destruct n as [|p|p]; simpl Z.to_int; cbv iota.
  - now apply parse_number_pos.
  - apply parse_number_pos; [apply DecimalPos.Unsigned.to_uint_nonnil | apply int_ok_pos | exact Hd].
  - apply parse_number_neg; [apply int_ok_pos | exact Hd].
Qed.

Lemma string_of_Z_head (n : Z) :
  exists c t, string_of_Z n = String c t /\ (digit_of c <> None \/ c = "-"%char).
Proof.
  unfold string_of_Z. destruct n as [|p|p]; simpl.
  - eexists _, _. split; [reflexivity | left; discriminate].
  - destruct (string_of_uint_head (Pos.to_uint p)) as (c & t & E & Hc);
      [apply DecimalPos.Unsigned.to_uint_nonnil |].
    exists c, t. split; [exact E | now left].
  - eexists _, _. split; [reflexivity | now right].
Qed.

Lemma digit_not_ws (c : ascii) :
  digit_of c <> None \/ c = "-"%char -> is_ws c = false /\ Ascii.eqb c "]" = false.
Proof.
  destruct c as [[] [] [] [] [] [] [] []];
    first [ now split | intros [H | H]; [now exfalso; apply H | discriminate H] ].
Qed.

(** *** Number literals *)

Lemma take_digits_extend (body rest : string) :
  delim rest = true ->
  take_digits (body +:+ rest)
  = (fst (take_digits body), snd (take_digits body) +:+ rest).
Proof.
  intros Hd. induction body as [|c b IH]; simpl.
  - now rewrite (proj1 (delim_inert rest Hd)).
  - destruct (digit_of c); [| reflexivity].
    rewrite IH. now destruct (take_digits b).
Qed.

Lemma lex_frac_extend (s rest fr r1 : string) :
  delim rest = true -> lex_frac s = Some (fr, r1) ->
  lex_frac (s +:+ rest) = Some (fr, r1 +:+ rest).
Proof.
  intros Hd. destruct s as [|c s]; simpl.
  - intros H. injection H as <- <-. apply (delim_inert rest Hd).
  - destruct (Ascii.eqb c ".").
    + rewrite (take_digits_extend s rest Hd). destruct (take_digits s) as [u r]. simpl.
      destruct u; intros H; try discriminate; now injection H as <- <-.
    + intros H. now injection H as <- <-.
Qed.

Lemma lex_exp_extend (s rest ex r2 : string) :
  delim rest = true -> lex_exp s = Some (ex, r2) ->
  lex_exp (s +:+ rest) = Some (ex, r2 +:+ rest).
Proof.
  intros Hd. destruct s as [|c s]; simpl.
  - intros H. injection H as <- <-. apply (delim_inert rest Hd).
  - destruct (Ascii.eqb c "e" || Ascii.eqb c "E"); [| intros H; now injection H as <- <-].
    assert (forall body, (let (u, r) := take_digits (body +:+ rest) in
                          (u, r)) = (fst (take_digits body), snd (take_digits body) +:+ rest))
      as Hext by (intros body; rewrite (take_digits_extend body rest Hd); reflexivity).
    destruct s as [|d s']; simpl.
    + discriminate.
    + destruct (Ascii.eqb d "+" || Ascii.eqb d "-").
      * rewrite (take_digits_extend s' rest Hd). destruct (take_digits s') as [u r]. simpl.
        destruct u; intros H; try discriminate; now injection H as <- <-.
      * change (String d (s' +:+ rest)) with (String d s' +:+ rest).
        rewrite (take_digits_extend (String d s') rest Hd).
        destruct (take_digits (String d s')) as [u r]. simpl.
        destruct u; intros H; try discriminate; now injection H as <- <-.
Qed.

(** A number token is read the same before a delimiter. *)
Lemma parse_number_extend (s rest : string) (v : JS.value) :
  delim rest = true -> parse_number s = Some (v, EmptyString) ->
  parse_number (s +:+ rest) = Some (v, rest).
Proof.
  intros Hd. unfold parse_number.
  assert (exists neg body,
             match s with
             | String c r => if Ascii.eqb c "-" then (true, r) else (false, s)
             | EmptyString => (false, s)
             end = (neg, body) /\
             match s +:+ rest with
             | String c r => if Ascii.eqb c "-" then (true, r) else (false, s +:+ rest)
             | EmptyString => (false, s +:+ rest)
             end = (neg, body +:+ rest) \/ s = EmptyString) as (neg & body & [[-> ->] | ->]).
  { destruct s as [|c r]; [exists false, EmptyString; now right |].
    simpl. destruct (Ascii.eqb c "-"); eexists _, _; left; split; reflexivity. }
  - rewrite (take_digits_extend body rest Hd). destruct (take_digits body) as [u r0]. simpl.
    destruct (int_ok u); [| discriminate].
    destruct (lex_frac r0) as [[fr r1]|] eqn:Ef; [| discriminate].
    rewrite (lex_frac_extend r0 rest fr r1 Hd Ef).
    destruct (lex_exp r1) as [[ex r2]|] eqn:Ee; [| discriminate].
    rewrite (lex_exp_extend r1 rest ex r2 Hd Ee).
    destruct fr, ex; intros H; injection H as <- ->; reflexivity.
  - discriminate.
Qed.

Lemma parse_number_head (s : string) (res : JS.value * string) :
  parse_number s = Some res ->
  exists c t, s = String c t /\ (digit_of c <> None \/ c = "-"%char).
Proof.
  unfold parse_number. destruct s as [|c t]; [discriminate |].
  intros H. exists c, t. split; [reflexivity |].
  destruct (Ascii.eqb_spec c "-") as [-> | Hne]; [now right |]. left.
  simpl in H. destruct (digit_of c); [discriminate | discriminate H].
Qed.

(** *** Shape of the text of a value *)

Lemma ser_none (ind : string) (v : value) :
  ser ind v = None <-> is_undefined v = true.
Proof. destruct v as [| |[]| | | | |]; simpl; split; intros H; congruence. Qed.

Lemma ser_undefined (ind : string) (v : value) :
  is_undefined v = true -> ser ind v = None.
Proof. apply ser_none. Qed.

Lemma ser_defined (ind : string) (v : value) :
  is_undefined v = false -> exists t, ser ind v = Some t.
Proof.
  intros H. destruct (ser ind v) eqn:E; [eauto |].
  apply ser_none in E. congruence.
Qed.

Lemma normalise_undefined (v : value) :
  is_undefined v = false -> null_if_undefined (normalise v) = normalise v.
Proof. now destruct v. Qed.

Lemma ser_members_head (ind ind' : string) (prop : value -> option string)
    (l : list (string * value)) :
  ser_members ind ind' prop true l = EmptyString \/
  exists t, ser_members ind ind' prop true l = String "{" t.
Proof.
  induction l as [|[k x] r IH]; simpl; [now left |].
  destruct (prop x); [right; eauto | exact IH].
Qed.

Lemma ser_start (ind : string) (v : value) (t : string) :
  wf v -> ser ind v = Some t ->
  exists c t', t = String c t' /\ is_ws c = false /\ Ascii.eqb c "]" = false.
Proof.
  destruct v as [| |[]|n|d|s|l|l]; simpl; intros Hwf H; try discriminate;
    injection H as <-; try (eexists _, _; repeat split; reflexivity).
  - destruct (string_of_Z_head n) as (c & t & E & Hc).
    exists c, t. split; [exact E | now apply digit_not_ws].
  - destruct (parse_number_head d _ Hwf) as (c & t & E & Hc).
    exists c, t. split; [exact E | now apply digit_not_ws].
  - destruct l; eexists _, _; repeat split; reflexivity.
  - destruct (ser_members_head ind (ind +:+ gap) (ser (ind +:+ gap)) l) as [-> | [t ->]];
      eexists _, _; repeat split; reflexivity.
Qed.

Lemma or_null_start (o : option string) :
  (forall t, o = Some t ->
     exists c t', t = String c t' /\ is_ws c = false /\ Ascii.eqb c "]" = false) ->
  exists c t', or_null o = String c t' /\ is_ws c = false /\ Ascii.eqb c "]" = false.
Proof.
  destruct o as [t|]; simpl; intros H; [now apply H |].
  eexists _, _; repeat split; reflexivity.
Qed.

Lemma ser_rest_delim (ind ind' : string) (elem : value -> string) (l : list value)
    (rest : string) :
  delim (ser_rest ind ind' elem l +:+ rest) = true.
Proof. destruct l; reflexivity. Qed.

Lemma ser_members_delim (ind ind' : string) (prop : value -> option string)
    (l : list (string * value)) (rest : string) :
  delim (ser_members ind ind' prop false l +:+ rest) = true.
Proof.
  induction l as [|[k x] r IH]; simpl; [reflexivity |].
  destruct (prop x); [reflexivity | exact IH].
Qed.

(** *** White space before a token *)

Lemma parse_value_ws (fuel : nat) (w s : string) :
  all_ws w = true -> parse_value fuel (w +:+ s) = parse_value fuel s.
Proof. intros Hw. destruct fuel; simpl; [reflexivity |]. now rewrite next_append. Qed.

Lemma parse_members_ws (fuel : nat) (w s : string) :
  all_ws w = true -> parse_members fuel (w +:+ s) = parse_members fuel s.
Proof. intros Hw. destruct fuel; simpl; [reflexivity |]. now rewrite next_append. Qed.

Lemma all_ws_indent (ind : string) : all_ws ind = true -> all_ws (ind +:+ gap) = true.
Proof. intros H. now apply all_ws_append. Qed.

Lemma all_ws_nl_indent (ind : string) : all_ws ind = true -> all_ws (nl +:+ ind) = true.
Proof. intros H. now apply all_ws_append. Qed.

(** *** Objects rebuilt from their members *)

Lemma obj_set_fresh (k : string) (x : value) (l : list (string * value)) :
  k ∉ map fst l -> obj_set k x l = (l ++ [(k, x)])%list.
Proof.
  induction l as [|[k' y] r IH]; simpl; intros Hk; [reflexivity |].
  apply not_elem_of_cons in Hk as [Hne Hk].
  destruct (String.eqb_spec k k') as [-> | _]; [congruence |].
  now rewrite IH.
Qed.

Lemma obj_of_members_acc (l acc : list (string * value)) :
  NoDup (map fst (acc ++ l)%list) ->
  fold_left (fun o kv => obj_set (fst kv) (snd kv) o) l acc = (acc ++ l)%list.
Proof.
  revert acc. induction l as [|[k x] r IH]; intros acc Hnd; simpl.
  - now rewrite app_nil_r.
  - rewrite obj_set_fresh.
    + rewrite IH; rewrite <- app_assoc; [reflexivity | exact Hnd].
    + rewrite map_app in Hnd. simpl in Hnd.
      apply NoDup_app in Hnd as (_ & Hdisj & _).
      intros Hin. apply (Hdisj k Hin). now left.
Qed.

Lemma obj_of_members_nodup (l : list (string * value)) :
  NoDup (map fst l) -> obj_of_members l = l.
Proof. intros H. unfold obj_of_members. now rewrite obj_of_members_acc. Qed.

Lemma norm_members_keys (norm : value -> value) (l : list (string * value)) (k : string) :
  k ∈ map fst (norm_members norm l) -> k ∈ map fst l.
Proof.
  induction l as [|[k' x] r IH]; simpl; [tauto |].
  destruct (is_undefined x); simpl; rewrite ?elem_of_cons; tauto.
Qed.

Lemma norm_members_nodup (norm : value -> value) (l : list (string * value)) :
  NoDup (map fst l) -> NoDup (map fst (norm_members norm l)).
Proof.
  induction l as [|[k x] r IH]; simpl; intros H; [constructor |].
  apply NoDup_cons in H as [Hk Hr].
  destruct (is_undefined x); simpl; [now apply IH |].
  apply NoDup_cons. split; [| now apply IH].
  intros Hin. apply Hk. now apply norm_members_keys in Hin.
Qed.

Lemma wf_arr (l : list value) : wf (VArr l) <-> Forall wf l.
Proof.
  simpl. induction l as [|x r IH]; split; intros H.
  - constructor.
  - exact I.
  - destruct H as [Hx Hr]. constructor; [exact Hx | now apply IH].
  - apply Forall_cons_iff in H as [Hx Hr]. split; [exact Hx | now apply IH].
Qed.

Lemma wf_obj (l : list (string * value)) :
  wf (VObj l) <-> NoDup (map fst l) /\ Forall (fun kv => wf (snd kv)) l.
Proof.
  simpl. apply and_iff_compat_l.
  induction l as [|x r IH]; split; intros H.
  - constructor.
  - exact I.
  - destruct H as [Hx Hr]. constructor; [exact Hx | now apply IH].
  - apply Forall_cons_iff in H as [Hx Hr]. split; [exact Hx | now apply IH].
Qed.

(** *** Parsing the text of a value *)

Lemma parse_value_eq (fuel : nat) (s : string) :
  parse_value (S fuel) s =
  match next s with
  | None => None
  | Some (c, r) =>
      if Ascii.eqb c "[" then
        let elems :=
          match parse_elems fuel r with
          | Some (l, r') => Some (VArr l, r')
          | None => None
          end in
        match next r with
        | Some (c', r') => if Ascii.eqb c' "]" then Some (VArr [], r') else elems
        | None => elems
        end
      else if Ascii.eqb c "{" then
        let members :=
          match parse_members fuel r with
          | Some (l, r') => Some (VObj (obj_of_members l), r')
          | None => None
          end in
        match next r with
        | Some (c', r') => if Ascii.eqb c' "}" then Some (VObj [], r') else members
        | None => members
        end
      else if Ascii.eqb c dquote then
        match parse_chars r with
        | Some (str, r') => Some (VStr str, r')
        | None => None
        end
      else if Ascii.eqb c "n" then
        match strip_prefix "ull" r with Some r' => Some (VNull, r') | None => None end
      else if Ascii.eqb c "t" then
        match strip_prefix "rue" r with Some r' => Some (VBool true, r') | None => None end
      else if Ascii.eqb c "f" then
        match strip_prefix "alse" r with Some r' => Some (VBool false, r') | None => None end
      else parse_number (String c r)
  end.
Proof. reflexivity. Qed.

Lemma parse_elems_eq (fuel : nat) (s : string) :
  parse_elems (S fuel) s =
  match parse_value fuel s with
  | None => None
  | Some (v, r) =>
      match next r with
      | Some (c, r') =>
          if Ascii.eqb c "," then
            match parse_elems fuel r' with
            | Some (l, r'') => Some (v :: l, r'')
            | None => None
            end
          else if Ascii.eqb c "]" then Some ([v], r')
          else None
      | None => None
      end
  end.
Proof. reflexivity. Qed.

Lemma parse_members_eq (fuel : nat) (s : string) :
  parse_members (S fuel) s =
  match next s with
  | Some (c, r) =>
      if Ascii.eqb c dquote then
        match parse_chars r with
        | None => None
        | Some (k, r1) =>
            match next r1 with
            | Some (c1, r2) =>
                if Ascii.eqb c1 ":" then
                  match parse_value fuel r2 with
                  | None => None
                  | Some (v, r3) =>
                      match next r3 with
                      | Some (c', r4) =>
                          if Ascii.eqb c' "," then
                            match parse_members fuel r4 with
                            | Some (l, r5) => Some ((k, v) :: l, r5)
                            | None => None
                            end
                          else if Ascii.eqb c' "}" then Some ([(k, v)], r4)
                          else None
                      | None => None
                      end
                  end
                else None
            | None => None
            end
        end
      else None
  | None => None
  end.
Proof. reflexivity. Qed.

Lemma reparses_elem (x : value) (ind' : string) (fuel : nat) (rest : string) :
  reparses x -> all_ws ind' = true -> delim rest = true -> size x <= fuel ->
  parse_value fuel (or_null (ser ind' x) +:+ rest)
  = Some (null_if_undefined (normalise x), rest).
Proof.
  intros IH Hind Hd Hf. destruct (is_undefined x) eqn:Eu.
  - destruct x; try discriminate. simpl. destruct fuel; [simpl in Hf; lia | reflexivity].
  - destruct (ser_defined ind' x Eu) as [t Et]. rewrite Et. simpl or_null.
    rewrite normalise_undefined by exact Eu. now apply (IH ind').
Qed.

Lemma next_nl (s : string) : next (String newline s) = next s.
Proof. reflexivity. Qed.

Lemma parse_elems_ws (fuel : nat) (w s : string) :
  all_ws w = true -> parse_elems fuel (w +:+ s) = parse_elems fuel s.
Proof.
  intros Hw. destruct fuel; [reflexivity |].
  now rewrite !parse_elems_eq, parse_value_ws.
Qed.

Lemma parse_elems_ser (ind ind' : string) (l : list value) :
  Forall reparses l -> all_ws ind = true -> all_ws ind' = true ->
  forall (x : value) (fuel : nat) (rest : string),
    reparses x -> sum_elems size (x :: l) <= fuel ->
    parse_elems fuel
      (or_null (ser ind' x) +:+
       ser_rest ind ind' (fun y => or_null (ser ind' y)) l +:+ rest)
    = Some (map (fun y => null_if_undefined (normalise y)) (x :: l), rest).
Proof.
  intros Hl Hind Hind'. induction Hl as [|y l Hy Hl IH]; intros x fuel rest Hx Hf.
  - destruct fuel as [|fuel]; [simpl in Hf; lia |]. simpl in Hf.
    rewrite parse_elems_eq.
    rewrite reparses_elem; [| exact Hx | exact Hind' | apply ser_rest_delim | lia].
    simpl ser_rest. cbn [String.append nl]. rewrite !append_assoc.
    rewrite next_nl, next_append by exact Hind.
    reflexivity.
  - destruct fuel as [|fuel]; [simpl in Hf; lia |]. simpl in Hf.
    rewrite parse_elems_eq.
    rewrite reparses_elem; [| exact Hx | exact Hind' | apply ser_rest_delim | lia].
    simpl ser_rest. cbn [String.append nl]. rewrite !append_assoc.
    rewrite next_token by reflexivity. cbn match. cbv beta.
    change (Ascii.eqb "," ",") with true. cbv iota.
    change (String newline ?s) with (nl +:+ s).
    rewrite !parse_elems_ws by (reflexivity || exact Hind').
    rewrite (IH y fuel rest Hy); [reflexivity | simpl; lia].
Qed.

Lemma ser_members_all_undefined (ind ind' : string) (norm : value -> value)
    (first : bool) (l : list (string * value)) :
  norm_members norm l = [] ->
  ser_members ind ind' (ser ind') first l
  = if first then EmptyString else nl +:+ ind +:+ "}".
Proof.
  induction l as [|[k x] r IH]; simpl; intros H; [reflexivity |].
  destruct (is_undefined x) eqn:Eu; [| discriminate].
  rewrite (ser_undefined _ _ Eu). now apply IH.
Qed.

Lemma parse_members_start (fuel : nat) (s : string) (res : list (string * value) * string) :
  parse_members fuel s = Some res -> exists r, next s = Some (dquote, r).
Proof.
  destruct fuel; [discriminate |]. rewrite parse_members_eq.
  destruct (next s) as [[c r]|]; [| discriminate].
  destruct (Ascii.eqb_spec c dquote) as [-> | _]; [eauto | discriminate].
Qed.

Lemma parse_members_ser (ind ind' : string) (l : list (string * value)) :
  Forall (fun kv => reparses (snd kv)) l -> all_ws ind = true -> all_ws ind' = true ->
  forall (fuel : nat) (rest : string),
    norm_members normalise l <> [] -> sum_members size l <= fuel ->
    exists T,
      (forall first, ser_members ind ind' (ser ind') first l
                     = (if first then "{" +:+ nl else "," +:+ nl) +:+ T) /\
      parse_members fuel (T +:+ rest) = Some (norm_members normalise l, rest).
Proof.
  intros Hl Hind Hind'. induction Hl as [|[k x] r Hx Hr IH]; intros fuel rest Hne Hf;
    [now contradiction Hne |].
  simpl in Hx, Hne, Hf |- *. destruct (is_undefined x) eqn:Eu.
  - destruct (IH fuel rest Hne Hf) as (T & HT & HP). exists T. split; [| exact HP].
    intros first. rewrite (ser_undefined _ _ Eu). apply HT.
  - destruct (ser_defined ind' x Eu) as [t Et].
    destruct fuel as [|fuel]; [lia |].
    exists (ind' +:+ quote k +:+ ": " +:+ t +:+ ser_members ind ind' (ser ind') false r).
    split; [intros first; now rewrite Et |].
    rewrite parse_members_eq, !append_assoc, next_append by exact Hind'.
    destruct (parse_chars_quote k
                (": " +:+ t +:+ ser_members ind ind' (ser ind') false r +:+ rest))
      as (body & Eq & Hb).
    rewrite Eq, next_token by reflexivity.
    change (Ascii.eqb dquote dquote) with true. cbv iota. rewrite Hb.
    cbn [String.append]. rewrite next_token by reflexivity.
    change (Ascii.eqb ":" ":") with true. cbv iota.
    change (String " " ?s) with (" " +:+ s). rewrite parse_value_ws by reflexivity.
    rewrite (Hx ind' fuel _ t Hind' (ser_members_delim _ _ _ _ _) Et) by lia.
    destruct (norm_members normalise r) as [|m ms] eqn:En.
    + rewrite (ser_members_all_undefined ind ind' normalise false r En).
      cbn [String.append nl]. rewrite !append_assoc, next_nl, next_append by exact Hind.
      reflexivity.
    + destruct (IH fuel rest) as (T' & HT' & HP'); [discriminate | lia |].
      rewrite (HT' false). cbn [String.append nl].
      rewrite next_token by reflexivity.
      change (Ascii.eqb "," ",") with true. cbv iota.
      change (String newline ?s) with (nl +:+ s).
      rewrite parse_members_ws by reflexivity. now rewrite HP'.
Qed.

(** Every well-formed value parses back from its text. *)
Lemma parse_ser (v : value) : wf v -> reparses v.
Proof.
  induction v as [| |b|n|d|s|l IH|l IH] using value_ind;
    intros Hwf ind fuel rest t Hind Hd Hs Hf;
    simpl in Hs; try discriminate;
    (destruct fuel as [|fuel]; [simpl in Hf; lia |]).
  - injection Hs as <-. reflexivity.
  - destruct b; injection Hs as <-; reflexivity.
  - injection Hs as <-.
    destruct (string_of_Z_head n) as (c & t & E & Hc). rewrite E.
    cbn [String.append]. rewrite digit_dispatch by exact Hc.
    change (String c (t +:+ rest)) with (String c t +:+ rest). rewrite <- E.
    now apply parse_number_Z.
  - injection Hs as <-. simpl in Hwf.
    destruct (parse_number_head d _ Hwf) as (c & t & E & Hc). rewrite E.
    cbn [String.append]. rewrite digit_dispatch by exact Hc.
    change (String c (t +:+ rest)) with (String c t +:+ rest). rewrite <- E.
    now apply parse_number_extend.
  - injection Hs as <-.
    destruct (parse_chars_quote s rest) as (body & Eq & Hb).
    rewrite Eq, parse_value_eq, next_token by reflexivity.
    change (Ascii.eqb dquote "[") with false. change (Ascii.eqb dquote "{") with false.
    change (Ascii.eqb dquote dquote) with true. cbv iota. now rewrite Hb.
  - apply wf_arr in Hwf.
    assert (Forall reparses l) as Hl.
    { clear -IH Hwf. induction IH as [|x r Hx Hr IHr]; [constructor |].
      apply Forall_cons_iff in Hwf as [Hwx Hwr]. constructor; auto. }
    destruct l as [|x r]; injection Hs as <-; [reflexivity |].
    apply Forall_cons_iff in Hl as [Hx Hr].
    pose proof (all_ws_indent ind Hind) as Hind'.
    revert Hind'. generalize (ind +:+ gap) as ind'. intros ind' Hind'.
    rewrite parse_value_eq. cbn [String.append nl]. rewrite !append_assoc.
    rewrite next_token by reflexivity.
    change (Ascii.eqb "[" "[") with true. cbv iota.
    destruct (or_null_start (ser ind' x)
                (fun t => ser_start ind' x t (proj1 (proj1 (Forall_cons_iff _ _ _) Hwf))))
      as (c & t' & E & Hws & Hc).
    rewrite next_nl, next_append by exact Hind'.
    assert (forall R, next (or_null (ser ind' x) +:+ R) = Some (c, t' +:+ R)) as ->.
    { intros R. rewrite E. cbn [String.append]. now apply next_token. }
    rewrite Hc. cbv zeta.
    change (String newline ?s) with (nl +:+ s).
    rewrite !parse_elems_ws by (reflexivity || exact Hind').
    rewrite (parse_elems_ser ind ind' r Hr Hind Hind' x fuel rest Hx);
      [reflexivity | simpl in Hf |- *; lia].
  - apply wf_obj in Hwf as [Hnd Hwf].
    assert (Forall (fun kv => reparses (snd kv)) l) as Hl.
    { clear -IH Hwf. induction IH as [|x r Hx Hr IHr]; [constructor |].
      apply Forall_cons_iff in Hwf as [Hwx Hwr]. constructor; auto. }
    pose proof (all_ws_indent ind Hind) as Hind'.
    revert Hs Hind'. generalize (ind +:+ gap) as ind'. intros ind' Hs Hind'.
    cbn [normalise].
    destruct (norm_members normalise l) as [|m ms] eqn:En.
    + rewrite (ser_members_all_undefined ind ind' normalise true l En) in Hs.
      injection Hs as <-. reflexivity.
    + destruct (parse_members_ser ind ind' l Hl Hind Hind' fuel rest)
        as (T & HT & HP); [rewrite En; discriminate | simpl in Hf; lia |].
      rewrite (HT true) in Hs. cbn [String.append nl] in Hs. injection Hs as <-.
      rewrite parse_value_eq. cbn [String.append].
      rewrite next_token by reflexivity.
      change (Ascii.eqb "{" "[") with false. change (Ascii.eqb "{" "{") with true.
      cbv iota. rewrite next_nl.
      destruct (parse_members_start _ _ _ HP) as [r' ->].
      change (Ascii.eqb dquote "}") with false. cbv iota zeta.
      change (String newline ?s) with (nl +:+ s).
      rewrite parse_members_ws by reflexivity. rewrite HP, En.
      rewrite obj_of_members_nodup; [reflexivity |].
      rewrite <- En. now apply norm_members_nodup.
Qed.

(** *** Fuel *)

Lemma sum_elems_le (ind ind' : string) (elem : value -> string) (l : list value) :
  Forall (fun x => size x <= String.length (elem x)) l ->
  sum_elems size l <= String.length (ser_rest ind ind' elem l).
Proof.
  induction 1 as [|x r Hx Hr IH]; simpl; [lia |].
  rewrite !length_append. lia.
Qed.

Lemma sum_members_le (ind ind' : string) (prop : value -> option string)
    (l : list (string * value)) :
  Forall (fun kv => forall t, prop (snd kv) = Some t -> size (snd kv) <= String.length t) l ->
  (forall x, is_undefined x = true -> prop x = None) ->
  (forall x, is_undefined x = false -> exists t, prop x = Some t) ->
  forall first,
    (ser_members ind ind' prop first l = EmptyString /\ sum_members size l = 0) \/
    S (sum_members size l) <= String.length (ser_members ind ind' prop first l).
Proof.
  intros Hl Hu Hd. induction Hl as [|[k x] r Hx Hr IH]; intros first; simpl.
  - destruct first; [now left | right; simpl; lia].
  - destruct (is_undefined x) eqn:Eu.
    + rewrite (Hu x Eu). apply IH.
    + destruct (Hd x Eu) as [t Et]. rewrite Et. right.
      specialize (Hx t Et). simpl in Hx.
      assert (sum_members size r <= String.length (ser_members ind ind' prop false r)) as Hs.
      { destruct (IH false) as [[-> ->] | H]; simpl; lia. }
      destruct first; repeat (progress (rewrite ?length_append; simpl)); lia.
Qed.

Lemma size_le_length (v : value) :
  wf v -> forall (ind t : string), ser ind v = Some t -> size v <= String.length t.
Proof.
  induction v as [| |b|n|d|s|l IH|l IH] using value_ind; intros Hwf ind t Hs; simpl in Hs;
    try discriminate.
  - injection Hs as <-. simpl. lia.
  - destruct b; injection Hs as <-; simpl; lia.
  - injection Hs as <-. destruct (string_of_Z_head n) as (c & t & -> & _). simpl. lia.
  - injection Hs as <-. destruct (parse_number_head d _ Hwf) as (c & t & -> & _). simpl. lia.
  - injection Hs as <-. simpl. lia.
  - apply wf_arr in Hwf.
    assert (Forall (fun x => size x <= String.length (or_null (ser (ind +:+ gap) x))) l) as Hl.
    { clear Hs. induction IH as [|x r Hx Hr IHr]; [constructor |].
      apply Forall_cons_iff in Hwf as [Hwx Hwr]. constructor; [| now apply IHr].
      destruct (ser (ind +:+ gap) x) as [t'|] eqn:E; [now apply (Hx Hwx (ind +:+ gap)) |].
      apply ser_none in E. destruct x; try discriminate. simpl. lia. }
    destruct l as [|x r]; injection Hs as <-; [simpl; lia |].
    apply Forall_cons_iff in Hl as [Hx Hr].
    pose proof (sum_elems_le ind (ind +:+ gap) _ r Hr) as Hsum.
    simpl. rewrite !length_append. simpl in Hsum |- *. lia.
  - injection Hs as <-. apply wf_obj in Hwf as [_ Hwf].
    assert (Forall (fun kv => forall t, ser (ind +:+ gap) (snd kv) = Some t ->
                                size (snd kv) <= String.length t) l) as Hl.
    { induction IH as [|[k x] r Hx Hr IHr]; [constructor |].
      apply Forall_cons_iff in Hwf as [Hwx Hwr]. constructor; [| now apply IHr].
      intros t' Et. now apply (Hx Hwx (ind +:+ gap)). }
    destruct (sum_members_le ind (ind +:+ gap) (ser (ind +:+ gap)) l Hl
                (ser_undefined _) (ser_defined _) true) as [[-> H0] | H].
    + simpl. lia.
    + simpl size. destruct (ser_members ind (ind +:+ gap) (ser (ind +:+ gap)) true l);
        simpl in H |- *; lia.
Qed.

(** [JSON.parse(JSON.stringify(v))] is [normalise v]. *)
Lemma parse_stringify (v : value) (t : string) :
  wf v -> stringify v = Some t -> parse t = Some (normalise v).
Proof.
  intros Hwf Hs. unfold stringify in Hs. unfold parse.
  pose proof (size_le_length v Hwf EmptyString t Hs) as Hsize.
  pose proof (parse_ser v Hwf EmptyString (2 * String.length t + 2) EmptyString t
                eq_refl eq_refl Hs) as H.
  rewrite append_empty_r in H. rewrite H by lia. reflexivity.
Qed.

End JSFacts.

(** * Load and restore ([App.tsx]: the load effect, [handleRestore]) *)

Module AppFacts.
Import JSFacts.

Lemma parse_number_defined (s : string) (v : JS.value) (r : string) :
  parse_number s = Some (v, r) -> v <> VUndefined.
Proof.
  unfold parse_number.
  destruct (match s with
            | String c r0 => if Ascii.eqb c "-" then (true, r0) else (false, s)
            | EmptyString => (false, s)
            end) as [neg body].
  destruct (take_digits body) as [u rest].
  destruct (int_ok u); [| discriminate].
  destruct (lex_frac rest) as [[fr r1]|]; [| discriminate].
  destruct (lex_exp r1) as [[ex r2]|]; [| discriminate].
  destruct fr, ex; intros H; injection H as <- _; discriminate.
Qed.

Lemma parse_value_defined (fuel : nat) (s : string) (v : JS.value) (r : string) :
  parse_value fuel s = Some (v, r) -> v <> VUndefined.
Proof.
  destruct fuel as [|fuel]; [discriminate |]. rewrite parse_value_eq.
  destruct (next s) as [[c t]|]; [| discriminate].
  destruct (Ascii.eqb c "[").
  { cbv zeta. destruct (next t) as [[c' t']|].
    - destruct (Ascii.eqb c' "]"); [intros H; injection H as <- _; discriminate |].
      destruct (parse_elems fuel t) as [[l t'']|]; [| discriminate].
      intros H; injection H as <- _; discriminate.
    - destruct (parse_elems fuel t) as [[l t'']|]; [| discriminate].
      intros H; injection H as <- _; discriminate. }
  destruct (Ascii.eqb c "{").
  { cbv zeta. destruct (next t) as [[c' t']|].
    - destruct (Ascii.eqb c' "}"); [intros H; injection H as <- _; discriminate |].
      destruct (parse_members fuel t) as [[l t'']|]; [| discriminate].
      intros H; injection H as <- _; discriminate.
    - destruct (parse_members fuel t) as [[l t'']|]; [| discriminate].
      intros H; injection H as <- _; discriminate. }
  destruct (Ascii.eqb c dquote).
  { destruct (parse_chars t) as [[str t']|]; [| discriminate].
    intros H; injection H as <- _; discriminate. }
  destruct (Ascii.eqb c "n").
  { destruct (strip_prefix "ull" t); [| discriminate].
    intros H; injection H as <- _; discriminate. }
  destruct (Ascii.eqb c "t").
  { destruct (strip_prefix "rue" t); [| discriminate].
    intros H; injection H as <- _; discriminate. }
  destruct (Ascii.eqb c "f").
  { destruct (strip_prefix "alse" t); [| discriminate].
    intros H; injection H as <- _; discriminate. }
  apply parse_number_defined.
Qed.

(** [JSON.parse] never yields [undefined]. *)
Lemma parse_defined (text : string) (v : JS.value) :
  JS.parse text = Some v -> v <> VUndefined.
Proof.
  unfold JS.parse.
  destruct (parse_value (2 * String.length text + 2) text) as [[v' r]|] eqn:E; [| discriminate].
  destruct (next r); [discriminate |]. intros H. injection H as <-.
  now apply parse_value_defined in E.
Qed.

Lemma get_missing (k : string) (data : JS.value) :
  data <> VNull -> data <> VUndefined -> has_property k data = false ->
  JS.get data k = Some VUndefined.
Proof.
  intros Hn Hu Hp. destruct data as [| |b|n|d|s|l|l]; try reflexivity; try congruence.
  simpl in Hp |- *. now destruct (assoc k l).
Qed.

Lemma get_defined (k : string) (data : JS.value) :
  data <> VNull -> data <> VUndefined -> exists x, JS.get data k = Some x.
Proof.
  intros Hn Hu. destruct data; simpl; eauto; congruence.
Qed.

End AppFacts.

(** * Restore and load *)

Module RestoreFacts.
Import JSFacts AppFacts.

(** C4, as the code has it: a backup whose parsed top-level JSON lacks the
    [records] field or the [config] field is never adopted, the
    configuration and the record map stay as they were, and the error shown
    is the invalid-backup one, unless the parsed JSON is [null], for which
    the read of a field throws and the read-failure error is shown. *)
Theorem restore_missing_field_rejected
    (text : string) (data : JS.value) (confirmed : bool) (s : App.state) :
  App.importBackupJSON text = Some data ->
  has_property "records" data = false \/ has_property "config" data = false ->
  App.config (App.handleRestore (Some text) confirmed s) = App.config s /\
  App.records (App.handleRestore (Some text) confirmed s) = App.records s /\
  App.toast (App.handleRestore (Some text) confirmed s)
  = Some (match data with VNull => App.msg_read_failed | _ => App.msg_invalid end,
          App.error).
Proof.
  intros Hp Hlack. pose proof (parse_defined text data Hp) as Hu.
  unfold App.handleRestore. rewrite Hp.
  assert (data = VNull \/ data <> VNull) as [-> | Hn]
    by (destruct data; first [now left | now right]);
    [now repeat split |].
  assert (match data with VNull => App.msg_read_failed | _ => App.msg_invalid end
          = App.msg_invalid) as -> by (destruct data; congruence).
  destruct (get_defined "config" data Hn Hu) as [c Hc].
  destruct (get_defined "records" data Hn Hu) as [r Hr].
  rewrite Hc. destruct (truthy c) eqn:Ec; [| now repeat split].
  rewrite Hr. destruct (truthy r) eqn:Er; [| now repeat split].
  exfalso. destruct Hlack as [H | H]; apply get_missing in H; try assumption.
  - rewrite H in Hr. injection Hr as <-. discriminate.
  - rewrite H in Hc. injection Hc as <-. discriminate.
Qed.

Lemma restore_missing_field_rejected_witness :
  let text := App.exportBackupJSON (VObj [("config", VArr [])]) in
  App.config (App.handleRestore (Some text) true App.initial) = App.config App.initial /\
  App.records (App.handleRestore (Some text) true App.initial) = App.records App.initial /\
  App.toast (App.handleRestore (Some text) true App.initial)
  = Some (App.msg_invalid, App.error).
Proof.
  exact (restore_missing_field_rejected
           (App.exportBackupJSON (VObj [("config", VArr [])]))
           (VObj [("config", VArr [])]) true App.initial
           eq_refl (or_introl eq_refl)).
Defined.

(** C4, the claim as stated fails: the file [null] parses, its top-level
    JSON has no [records] field, and the error shown is the read-failure
    one, not the invalid-backup one. *)
Lemma restore_null_read_failure :
  App.importBackupJSON "null" = Some VNull /\
  has_property "records" VNull = false /\
  App.toast (App.handleRestore (Some "null") true App.initial)
  = Some (App.msg_read_failed, App.error) /\
  App.toast (App.handleRestore (Some "null") true App.initial)
  <> Some (App.msg_invalid, App.error).
Proof. repeat split; try reflexivity. discriminate. Qed.




(** C6: when the persisted value is not valid JSON, or is the JSON [null]
    (whose fields cannot be read), [load] returns (nothing is thrown past
    it) and the state is the default: the seed checklist and no record,
    loading over. The failure is logged unless the stored text is empty,
    which is not parsed at all. *)
Theorem load_corrupt_defaults (localStorage : list (string * string)) (text : string) :
  App.getItem App.STORAGE_KEY localStorage = Some text ->
  JS.parse text = None \/ JS.parse text = Some VNull ->
  App.load localStorage App.initial
  = (App.mk (Codec.config_to_value DEFAULT_CHECKLIST) (VObj []) false None,
     negb (String.eqb text EmptyString)).
Proof.
  intros Hget Hparse. unfold App.load, App.load_try. rewrite Hget.
  destruct (String.eqb text EmptyString); [reflexivity |].
  destruct Hparse as [-> | ->]; reflexivity.
Qed.

Lemma load_corrupt_defaults_witness :
  App.load [(App.STORAGE_KEY, "{oops")] App.initial
  = (App.mk (Codec.config_to_value DEFAULT_CHECKLIST) (VObj []) false None, true).
Proof.
  exact (load_corrupt_defaults [(App.STORAGE_KEY, "{oops")] "{oops"
           eq_refl (or_introl eq_refl)).
Defined.

End RestoreFacts.

(** * Progress *)

Module ProgressFacts.

(** C3, where the code departs from the claim: with no configured item the
    quotient is [0 / 0] and the progress is NaN, not 0. *)
Theorem progress_empty_config_is_nan (record : DayRecord) :
  PrimFloat.is_nan (Progress.progress [] record) = true.
Proof. reflexivity. Qed.

(** With every seed item answered, whatever the answers, the progress is 100. *)
Example progress_all_answered :
  Progress.progress DEFAULT_CHECKLIST
    (DayRecord.mk "2024-05-01"
       (map (fun c => DailyCheckResult.mk (CheckItem.id c)
                        (Some (if Z.even (CheckItem.displayOrder c) then YES else NO))
                        None None None) DEFAULT_CHECKLIST)
       (HealthRecord.mk EmptyString nashi nashi None) "2024-05-01T00:00:00.000Z")
  = 100%float.
Proof. vm_compute. reflexivity. Qed.

End ProgressFacts.

(** * Configuration operations *)

Module SettingsFacts.
Import JSFacts.

Lemma string_of_Z_inj (a b : Z) : string_of_Z a = string_of_Z b -> a = b.
Proof.
  intros H.
  pose proof (parse_number_Z a EmptyString eq_refl) as Ha.
  pose proof (parse_number_Z b EmptyString eq_refl) as Hb.
  rewrite H in Ha. rewrite Ha in Hb. now injection Hb.
Qed.

Lemma custom_id_inj (a b : Z) : Settings.custom_id a = Settings.custom_id b -> a = b.
Proof.
  unfold Settings.custom_id. simpl. intros H. injection H as H. now apply string_of_Z_inj.
Qed.

(** No seed id has the form of a custom id. *)
Lemma custom_id_not_seed (now : Z) :
  Settings.custom_id now ∉ Settings.ids DEFAULT_CHECKLIST.
Proof.
  unfold Settings.custom_id. simpl. rewrite !not_elem_of_cons.
  repeat split; try discriminate. apply not_elem_of_nil.
Qed.

Lemma seed_ids_unique : NoDup (Settings.ids DEFAULT_CHECKLIST).
Proof.
  simpl. repeat (apply NoDup_cons; split;
                 [rewrite ?not_elem_of_cons; repeat split; try discriminate; apply not_elem_of_nil |]).
  apply NoDup_nil_2.
Qed.

Lemma ids_add (now : Z) (config : list CheckItem) :
  Settings.ids (Settings.handleAddItem now config)
  = (Settings.ids config ++ [Settings.custom_id now])%list.
Proof. unfold Settings.ids, Settings.handleAddItem. now rewrite map_app. Qed.

Lemma ids_delete (confirmed : bool) (id : string) (config : list CheckItem) (i : string) :
  i ∈ Settings.ids (Settings.handleDeleteItem confirmed id config) ->
  i ∈ Settings.ids config.
Proof.
  unfold Settings.handleDeleteItem. destruct confirmed; [| auto].
  unfold Settings.ids. induction config as [|c r IH]; simpl; [auto |].
  destruct (negb (String.eqb (CheckItem.id c) id)); simpl; rewrite ?elem_of_cons; tauto.
Qed.

Lemma delete_unique (confirmed : bool) (id : string) (config : list CheckItem) :
  NoDup (Settings.ids config) ->
  NoDup (Settings.ids (Settings.handleDeleteItem confirmed id config)).
Proof.
  unfold Settings.handleDeleteItem. destruct confirmed; [| auto].
  unfold Settings.ids. induction config as [|c r IH]; simpl; intros H;
    [constructor |].
  apply NoDup_cons in H as [Hc Hr].
  destruct (negb (String.eqb (CheckItem.id c) id)); simpl; [| now apply IH].
  apply NoDup_cons. split; [| now apply IH].
  intros Hin. apply Hc. now apply (ids_delete true id r).
Qed.

(** An edit of a text leaves every id where it is. *)
Lemma ids_edit (idx : nat) (v : string) (config config' : list CheckItem) :
  Settings.handleTextChange idx v config = Some config' ->
  Settings.ids config' = Settings.ids config.
Proof.
  unfold Settings.handleTextChange, Settings.ids.
  destruct (config !! idx) as [c|] eqn:E; [| discriminate].
  intros H. injection H as <-.
  revert idx E. induction config as [|x r IH]; intros [|idx] E; try discriminate; simpl.
  - injection E as ->. reflexivity.
  - f_equal. now apply IH.
Qed.

(** What a configuration reached from the seed holds: unique ids, each a
    seed id or the custom id of an addition made so far at a time in [used]. *)
Lemma apply_invariant (o : Settings.op) (config : list CheckItem) (used : list Z) :
  NoDup (Settings.ids config) ->
  (forall i, i ∈ Settings.ids config ->
             i ∈ Settings.ids DEFAULT_CHECKLIST \/ exists t, t ∈ used /\ i = Settings.custom_id t) ->
  (forall t, o = Settings.Add t -> t ∉ used) ->
  NoDup (Settings.ids (Settings.apply o config)) /\
  (forall i, i ∈ Settings.ids (Settings.apply o config) ->
             i ∈ Settings.ids DEFAULT_CHECKLIST \/
             exists t, t ∈ (Settings.add_times [o] ++ used)%list /\ i = Settings.custom_id t).
Proof.
  intros Hnd Hfrom Hfresh. destruct o as [now|confirmed id|idx v]; simpl.
  - rewrite ids_add. split.
    + apply NoDup_app. split; [exact Hnd |]. split; [| apply NoDup_singleton].
      intros i Hi Hin. apply list_elem_of_singleton in Hin. subst i.
      destruct (Hfrom _ Hi) as [Hs | (t & Ht & E)].
      * now apply (custom_id_not_seed now).
      * apply custom_id_inj in E. subst t. now apply (Hfresh now).
    + intros i Hi. apply elem_of_app in Hi as [Hi | Hi].
      * destruct (Hfrom _ Hi) as [Hs | (t & Ht & E)]; [now left |].
        right. exists t. split; [now right | exact E].
      * apply list_elem_of_singleton in Hi. right. exists now. split; [now left | exact Hi].
  - split; [now apply delete_unique |].
    intros i Hi. apply ids_delete in Hi. now apply Hfrom.
  - destruct (Settings.handleTextChange idx v config) as [config'|] eqn:E.
    + rewrite (ids_edit idx v config config' E). now split.
    + now split.
Qed.

Lemma run_unique (ops : list Settings.op) (config : list CheckItem) (used : list Z) :
  NoDup (Settings.ids config) ->
  (forall i, i ∈ Settings.ids config ->
             i ∈ Settings.ids DEFAULT_CHECKLIST \/ exists t, t ∈ used /\ i = Settings.custom_id t) ->
  NoDup (Settings.add_times ops) ->
  (forall t, t ∈ Settings.add_times ops -> t ∉ used) ->
  NoDup (Settings.ids (fold_left (fun c o => Settings.apply o c) ops config)).
Proof.
  revert config used. induction ops as [|o ops IH]; intros config used Hnd Hfrom Hts Hdisj;
    [exact Hnd |].
  simpl. destruct (apply_invariant o config used Hnd Hfrom) as [Hnd' Hfrom'].
  { intros t ->. apply Hdisj. now left. }
  apply (IH _ (Settings.add_times [o] ++ used)%list Hnd' Hfrom').
  - destruct o; simpl in Hts; [now apply NoDup_cons in Hts as [_ ?] | exact Hts ..].
  - intros t Ht Hin. destruct o as [now| |]; simpl in *.
    + apply NoDup_cons in Hts as [Hnow _]. apply elem_of_cons in Hin as [-> | Hin]; [tauto |].
      apply (Hdisj t); [now right | exact Hin].
    + now apply (Hdisj t).
    + now apply (Hdisj t).
Qed.

(** C9, as the code has it: from the seed configuration, whose ids are
    pairwise distinct, every sequence of additions, text edits and deletions
    leaves the ids unique, provided the additions read pairwise distinct
    values of the clock. *)
Theorem config_ops_preserve_unique_ids (ops : list Settings.op) :
  NoDup (Settings.add_times ops) ->
  NoDup (Settings.ids DEFAULT_CHECKLIST) /\
  NoDup (Settings.ids (fold_left (fun c o => Settings.apply o c) ops DEFAULT_CHECKLIST)).
Proof.
  intros Hts. split; [apply seed_ids_unique |].
  apply (run_unique ops DEFAULT_CHECKLIST [] seed_ids_unique); [now left | exact Hts |].
  intros t _. apply not_elem_of_nil.
Qed.

Lemma config_ops_preserve_unique_ids_witness :
  NoDup (Settings.ids DEFAULT_CHECKLIST) /\
  NoDup (Settings.ids
           (fold_left (fun c o => Settings.apply o c)
              [Settings.Add 1700000000000; Settings.EditText 11 "油温の確認";
               Settings.Add 1700000000001; Settings.Delete true "c1"]
              DEFAULT_CHECKLIST)).
Proof.
  apply (config_ops_preserve_unique_ids
           [Settings.Add 1700000000000; Settings.EditText 11 "油温の確認";
            Settings.Add 1700000000001; Settings.Delete true "c1"]).
  simpl. apply NoDup_cons. split.
  - rewrite not_elem_of_cons. split; [discriminate | apply not_elem_of_nil].
  - apply NoDup_singleton.
Defined.

(** C9, the claim as stated fails: two additions that read the same value
    of the clock give two items the same id. *)
Lemma add_same_timestamp_duplicates :
  NoDup (Settings.ids DEFAULT_CHECKLIST) /\
  ~ NoDup (Settings.ids
             (Settings.handleAddItem 1700000000000
                (Settings.handleAddItem 1700000000000 DEFAULT_CHECKLIST))).
Proof.
  split; [apply seed_ids_unique |].
  rewrite !ids_add, <- app_assoc. intros H.
  apply NoDup_app in H as (_ & _ & H). simpl in H.
  apply NoDup_cons in H as [H _]. apply H. now left.
Qed.

End SettingsFacts.

(** * The tabular export *)

Module ExcelFacts.
Import JSFacts.

Lemma assoc_obj_set_eq {A : Type} (k : string) (x : A) (l : list (string * A)) :
  assoc k (obj_set k x l) = Some x.
Proof.
  induction l as [|[k' y] r IH]; simpl.
  - now rewrite String.eqb_refl.
  - destruct (String.eqb k k') eqn:E; simpl; [now rewrite String.eqb_refl | now rewrite E].
Qed.

Lemma assoc_obj_set_ne {A : Type} (k k' : string) (x : A) (l : list (string * A)) :
  k <> k' -> assoc k' (obj_set k x l) = assoc k' l.
Proof.
  intros Hne. induction l as [|[k0 y] r IH]; simpl.
  - destruct (String.eqb_spec k' k); [congruence | reflexivity].
  - destruct (String.eqb_spec k k0) as [-> | Hk]; simpl.
    + destruct (String.eqb_spec k' k0); [congruence | reflexivity].
    + destruct (String.eqb k' k0); [reflexivity | exact IH].
Qed.

(** An assignment to a key the row already has adds no column. *)
Lemma obj_set_keys {A : Type} (k : string) (x : A) (l : list (string * A)) :
  map fst (obj_set k x l)
  = if bool_decide (k ∈ map fst l) then map fst l else (map fst l ++ [k])%list.
Proof.
  induction l as [|[k' y] r IH]; simpl; [reflexivity |].
  destruct (String.eqb_spec k k') as [-> | Hne]; simpl.
  - rewrite bool_decide_eq_true_2 by (now left). reflexivity.
  - rewrite IH. destruct (bool_decide (k ∈ map fst r)) eqn:E.
    + apply bool_decide_eq_true_1 in E. rewrite bool_decide_eq_true_2 by (now right).
      reflexivity.
    + apply bool_decide_eq_false_1 in E. rewrite bool_decide_eq_false_2; [reflexivity |].
      rewrite not_elem_of_cons. now split.
Qed.

Lemma valueStr_parts (item : CheckItem) (record : DayRecord) :
  Excel.valueStr item record
  = Excel.base_part item record +:+ Excel.value_part item record +:+
    Excel.comment_part item record.
Proof.
  unfold Excel.valueStr, Excel.base_part, Excel.value_part, Excel.comment_part,
    Excel.stored_value, Excel.stored_comment.
  destruct (Progress.find_check (CheckItem.id item) (DayRecord.checks record)) as [c|];
    [| reflexivity].
  destruct (DailyCheckResult.value c) as [v|]; [destruct (Excel.nonempty v) |];
    (destruct (DailyCheckResult.comment c) as [m|]; [destruct (Excel.nonempty m) |]);
    repeat (progress (simpl; rewrite ?append_assoc, ?append_empty_r)); reflexivity.
Qed.

(** For an item of type [record] the specification's wording is the code's. *)
Lemma cell_spec_record (item : CheckItem) (record0 : DayRecord) :
  CheckItem.type item = record ->
  Excel.cell_spec item record0 = Excel.valueStr item record0.
Proof. intros H. rewrite valueStr_parts. unfold Excel.cell_spec. now rewrite H. Qed.

Lemma fold_set_cell_other (record : DayRecord) (k : string) (l : list CheckItem)
    (row : list (string * string)) :
  (forall j, j ∈ l -> Excel.resultKey j <> k) ->
  assoc k (fold_left (Excel.set_cell record) l row) = assoc k row.
Proof.
  revert row. induction l as [|j l IH]; intros row H; simpl; [reflexivity |].
  rewrite IH by (intros j' Hj'; apply H; now right).
  apply assoc_obj_set_ne. apply H. now left.
Qed.

Lemma row_of_cell (f : string -> string) (record : DayRecord)
    (before after : list CheckItem) (item : CheckItem) :
  (forall j, j ∈ after -> Excel.resultKey j <> Excel.resultKey item) ->
  assoc (Excel.resultKey item) (Excel.row_of f (before ++ item :: after) record)
  = Some (Excel.valueStr item record).
Proof.
  intros H. unfold Excel.row_of. rewrite fold_left_app. simpl.
  rewrite fold_set_cell_other by exact H. apply assoc_obj_set_eq.
Qed.

(** C5, as the code has it: for every day record and every configured item
    whose column label no later item shares, the cell under that label is
    良 for YES, 否 for NO and empty without a result, followed by
    [" (value+unit)"] when a non-empty value is stored, whatever the type of
    the item, and by [" [メモ: comment]"] when a non-empty comment is stored.
    For an item of type [record] this is the cell of the specification. *)
Theorem export_cell_encoding (f : string -> string) (record0 : DayRecord)
    (before after : list CheckItem) (item : CheckItem) :
  (forall j, j ∈ after -> Excel.resultKey j <> Excel.resultKey item) ->
  assoc (Excel.resultKey item) (Excel.row_of f (before ++ item :: after) record0)
  = Some (Excel.base_part item record0 +:+ Excel.value_part item record0 +:+
          Excel.comment_part item record0) /\
  (CheckItem.type item = record ->
   assoc (Excel.resultKey item) (Excel.row_of f (before ++ item :: after) record0)
   = Some (Excel.cell_spec item record0)).
Proof.
  intros H. rewrite (row_of_cell f record0 before after item H). split.
  - now rewrite valueStr_parts.
  - intros Ht. now rewrite cell_spec_record.
Qed.

(** The example of the specification: with the seed configuration, [c1]
    answered YES and [c3] answered NO with the value 8, the cell of [c3] is
    否 (8℃). *)
Lemma export_cell_encoding_witness :
  assoc "[一般的衛生管理] 冷蔵庫の温度確認（10℃以下）"
    (Excel.row_of (fun s => s) DEFAULT_CHECKLIST
       (DayRecord.mk "2024-05-01"
          [DailyCheckResult.mk "c1" (Some YES) None (Some EmptyString) None;
           DailyCheckResult.mk "c3" (Some NO) (Some "8") (Some EmptyString) None]
          (HealthRecord.mk "36.5" nashi nashi None) "2024-05-01T09:00:00.000Z"))
  = Some "否 (8℃)".
Proof.
  refine (proj1 (export_cell_encoding (fun s => s)
            (DayRecord.mk "2024-05-01"
               [DailyCheckResult.mk "c1" (Some YES) None (Some EmptyString) None;
                DailyCheckResult.mk "c3" (Some NO) (Some "8") (Some EmptyString) None]
               (HealthRecord.mk "36.5" nashi nashi None) "2024-05-01T09:00:00.000Z")
            (firstn 2 DEFAULT_CHECKLIST) (skipn 3 DEFAULT_CHECKLIST)
            (seed "c3" "一般的衛生管理" "冷蔵庫の温度確認（10℃以下）" record (Some "℃") 3) _)).
  intros j Hj. simpl in Hj. rewrite !elem_of_cons in Hj.
  destruct Hj as [-> | [-> | [-> | [-> | [-> | [-> | [-> | [-> | Hj]]]]]]]];
    [discriminate .. | now apply elem_of_nil in Hj].
Defined.

(** C5, the claim as stated fails: for an item of type [boolean] whose
    stored result carries a value, the code appends the value, the
    specification's cell does not. *)
Lemma export_boolean_item_value_appended :
  assoc "[一般的衛生管理] トイレの洗浄・消毒"
    (Excel.row_of (fun s => s) DEFAULT_CHECKLIST
       (DayRecord.mk "2024-05-01"
          [DailyCheckResult.mk "c6" (Some YES) (Some "8") None None]
          (HealthRecord.mk "36.5" nashi nashi None) "2024-05-01T09:00:00.000Z"))
  = Some "良 (8)" /\
  Excel.cell_spec (seed "c6" "一般的衛生管理" "トイレの洗浄・消毒" boolean None 6)
    (DayRecord.mk "2024-05-01"
       [DailyCheckResult.mk "c6" (Some YES) (Some "8") None None]
       (HealthRecord.mk "36.5" nashi nashi None) "2024-05-01T09:00:00.000Z")
  = "良".
Proof. split; reflexivity. Qed.

Lemma insert_by_length {A : Type} (cmp : A -> A -> comparison) (x : A) (l : list A) :
  length (Excel.insert_by cmp x l) = S (length l).
Proof.
  induction l as [|y r IH]; simpl; [reflexivity |].
  destruct (cmp x y); simpl; now rewrite ?IH.
Qed.

Lemma sort_by_length {A : Type} (cmp : A -> A -> comparison) (l : list A) :
  length (Excel.sort_by cmp l) = length l.
Proof.
  unfold Excel.sort_by.
  assert (forall acc, length (fold_left (fun acc x => Excel.insert_by cmp x acc) l acc)
                      = length acc + length l) as H.
  { induction l as [|x r IH]; intros acc; simpl; [lia |].
    rewrite IH, insert_by_length. lia. }
  now rewrite H.
Qed.

(** One row per day record. *)
Lemma rows_length (f : string -> string) (records : list (string * DayRecord))
    (config : list CheckItem) :
  length (Excel.rows f records config) = length records.
Proof. unfold Excel.rows. now rewrite length_map, sort_by_length, length_map. Qed.

Lemma insert_by_perm {A : Type} (cmp : A -> A -> comparison) (x : A) (l : list A) :
  Excel.insert_by cmp x l ≡ₚ x :: l.
Proof.
  induction l as [|y r IH]; simpl; [reflexivity |].
  destruct (cmp x y); try reflexivity; rewrite IH; apply Permutation_swap.
Qed.

(** The sort keeps the records, each once. *)
Lemma sort_by_perm {A : Type} (cmp : A -> A -> comparison) (l : list A) :
  Excel.sort_by cmp l ≡ₚ l.
Proof.
  unfold Excel.sort_by.
  assert (forall acc, fold_left (fun acc x => Excel.insert_by cmp x acc) l acc ≡ₚ (l ++ acc)%list)
    as H.
  { induction l as [|x r IH]; intros acc; simpl; [reflexivity |].
    rewrite IH, insert_by_perm. symmetry. apply Permutation_middle. }
  rewrite H. now rewrite app_nil_r.
Qed.

Lemma insert_by_sorted {A : Type} (cmp : A -> A -> comparison) (x : A) (l : list A) :
  (forall a b, cmp a b = Lt -> cmp b a <> Lt) ->
  Sorted (fun a b => cmp b a <> Lt) l ->
  Sorted (fun a b => cmp b a <> Lt) (Excel.insert_by cmp x l).
Proof.
  intros Hanti. induction 1 as [|y r Hr IH Hhd]; simpl; [now repeat constructor |].
  destruct (cmp x y) eqn:E.
  - constructor; [exact IH |].
    destruct r as [|z r]; simpl; [constructor; congruence |].
    destruct (cmp x z); constructor; try congruence; now inversion Hhd.
  - constructor; [now constructor |]. constructor. now apply Hanti.
  - constructor; [exact IH |].
    destruct r as [|z r]; simpl; [constructor; congruence |].
    destruct (cmp x z); constructor; try congruence; now inversion Hhd.
Qed.

Lemma sort_by_sorted {A : Type} (cmp : A -> A -> comparison) (l : list A) :
  (forall a b, cmp a b = Lt -> cmp b a <> Lt) ->
  Sorted (fun a b => cmp b a <> Lt) (Excel.sort_by cmp l).
Proof.
  intros Hanti. unfold Excel.sort_by.
  assert (forall acc, Sorted (fun a b => cmp b a <> Lt) acc ->
                      Sorted (fun a b => cmp b a <> Lt)
                        (fold_left (fun acc x => Excel.insert_by cmp x acc) l acc)) as H.
  { induction l as [|x r IH]; intros acc Hacc; simpl; [exact Hacc |].
    apply IH. now apply insert_by_sorted. }
  apply H. constructor.
Qed.





(** An item whose label an earlier item has adds no column. *)
Lemma fold_set_cell_keys (record : DayRecord) (k : string) (l : list CheckItem)
    (row : list (string * string)) :
  k ∈ Excel.columns row -> k ∈ Excel.columns (fold_left (Excel.set_cell record) l row).
Proof.
  revert row. induction l as [|j l IH]; intros row H; simpl; [exact H |].
  apply IH. unfold Excel.columns, Excel.set_cell in *. rewrite obj_set_keys.
  destruct (bool_decide _); [exact H |]. apply elem_of_app. now left.
Qed.

Lemma fold_set_cell_length (record : DayRecord) (l : list CheckItem)
    (row : list (string * string)) :
  length (Excel.columns (fold_left (Excel.set_cell record) l row))
  <= length (Excel.columns row) + length l.
Proof.
  revert row. induction l as [|j l IH]; intros row; simpl; [lia |].
  etrans; [apply IH |]. unfold Excel.columns, Excel.set_cell. rewrite obj_set_keys.
  destruct (bool_decide _); rewrite ?length_app; simpl; lia.
Qed.

(** Two items with one label: fewer item columns than items. *)
Lemma shared_label_fewer_columns (f : string -> string) (record : DayRecord)
    (l1 l2 l3 : list CheckItem) (a b : CheckItem) :
  Excel.resultKey a = Excel.resultKey b ->
  length (Excel.columns (Excel.row_of f (l1 ++ a :: l2 ++ b :: l3) record))
  < 6 + length (l1 ++ a :: l2 ++ b :: l3).
Proof.
  intros Hab. unfold Excel.row_of.
  rewrite fold_left_app. simpl. rewrite fold_left_app. simpl.
  set (row1 := fold_left (Excel.set_cell record) l1 (Excel.fixed_cells f record)).
  set (row2 := fold_left (Excel.set_cell record) l2 (Excel.set_cell record row1 a)).
  assert (Excel.resultKey b ∈ Excel.columns row2) as Hin.
  { apply fold_set_cell_keys. unfold Excel.columns, Excel.set_cell. rewrite <- Hab.
    rewrite obj_set_keys. destruct (bool_decide _) eqn:E.
    - now apply bool_decide_eq_true_1 in E.
    - apply elem_of_app. right. now left. }
  pose proof (fold_set_cell_length record l3 (Excel.set_cell record row2 b)) as H3.
  assert (length (Excel.columns (Excel.set_cell record row2 b))
          = length (Excel.columns row2)) as Hb.
  { unfold Excel.columns, Excel.set_cell in *. rewrite obj_set_keys.
    now rewrite bool_decide_eq_true_2. }
  pose proof (fold_set_cell_length record l2 (Excel.set_cell record row1 a)) as H2.
  assert (length (Excel.columns (Excel.set_cell record row1 a))
          <= S (length (Excel.columns row1))) as Ha.
  { unfold Excel.columns, Excel.set_cell. rewrite obj_set_keys.
    destruct (bool_decide _); rewrite ?length_app; simpl; lia. }
  pose proof (fold_set_cell_length record l1 (Excel.fixed_cells f record)) as H1.
  fold row1 in H1. fold row2 in H2. simpl in H1.
  rewrite !length_app. simpl. rewrite !length_app. simpl. lia.
Qed.

(** C8, where the code departs from the claim: after two additions in the
    settings, which give both new items the category その他 and the text
    新しいチェック項目, the configuration has 13 items and a row has one
    column for the two of them: 6 fixed columns and 12 item columns, not 13. *)
Theorem export_shared_label_single_column (f : string -> string) (record0 : DayRecord)
    (t1 t2 : Z) :
  length (Settings.handleAddItem t2 (Settings.handleAddItem t1 DEFAULT_CHECKLIST)) = 13 /\
  Excel.columns
    (Excel.row_of f (Settings.handleAddItem t2 (Settings.handleAddItem t1 DEFAULT_CHECKLIST))
       record0)
  = (["日付"; "スタッフ体温"; "スタッフ症状"; "スタッフ傷"; "スタッフ備考"; "最終更新"]
     ++ map Excel.resultKey DEFAULT_CHECKLIST ++ ["[その他] 新しいチェック項目"])%list.
Proof. split; [reflexivity |]. vm_compute. reflexivity. Qed.

End ExcelFacts.

(** * The backup round trip *)

Module CodecFacts.
Import JSFacts.

Lemma assoc_absent {A : Type} (k : string) (l : list (string * A)) :
  k ∉ map fst l -> assoc k l = None.
Proof.
  induction l as [|[k' x] r IH]; simpl; intros H; [reflexivity |].
  apply not_elem_of_cons in H as [Hne H].
  destruct (String.eqb_spec k k'); [congruence | now apply IH].
Qed.

(** A read of a field sees the normalised field. *)
Lemma field_normalise (k : string) (l : list (string * JS.value)) :
  NoDup (map fst l) ->
  Codec.field k (VObj (norm_members normalise l)) = normalise (Codec.field k (VObj l)).
Proof.
  unfold Codec.field. induction l as [|[k' x] r IH]; simpl; intros H; [reflexivity |].
  apply NoDup_cons in H as [Hk Hr]. specialize (IH Hr).
  destruct (is_undefined x) eqn:Eu; simpl.
  - rewrite IH. destruct (String.eqb_spec k k') as [-> | Hne]; [| reflexivity].
    rewrite (assoc_absent k' r Hk). now destruct x.
  - destruct (String.eqb k k'); [reflexivity | exact IH].
Qed.

Lemma wf_field (k : string) (l : list (string * JS.value)) :
  JS.wf (VObj l) -> JS.wf (Codec.field k (VObj l)).
Proof.
  intros H. apply wf_obj in H as [_ H]. unfold Codec.field.
  induction H as [|[k' x] r Hx Hr IH]; simpl; [exact I |].
  destruct (String.eqb k k'); [exact Hx | exact IH].
Qed.

Lemma as_string_normalise (v : JS.value) :
  Codec.as_string (normalise v) = Codec.as_string v.
Proof. now destruct v. Qed.

Lemma as_number_normalise (v : JS.value) :
  Codec.as_number (normalise v) = Codec.as_number v.
Proof. now destruct v. Qed.

Lemma as_optional_normalise (v : JS.value) :
  Codec.as_optional (normalise v) = Codec.as_optional v.
Proof. now destruct v. Qed.

Lemma type_normalise (v : JS.value) :
  Codec.type_of_value (normalise v) = Codec.type_of_value v.
Proof. now destruct v. Qed.

Lemma result_normalise (v : JS.value) :
  Codec.result_of_value (normalise v) = Codec.result_of_value v.
Proof. now destruct v. Qed.

Lemma presence_normalise (v : JS.value) :
  Codec.presence_of_value (normalise v) = Codec.presence_of_value v.
Proof. now destruct v. Qed.

Lemma item_normalise (v : JS.value) :
  JS.wf v -> Codec.item_of_value (normalise v) = Codec.item_of_value v.
Proof.
  intros Hwf. destruct v as [| |b|n|d|s|l|l]; try reflexivity.
  pose proof (proj1 (proj1 (wf_obj l) Hwf)) as Hnd.
  unfold Codec.item_of_value. cbn [normalise].
  rewrite !(field_normalise _ l Hnd).
  now rewrite !as_string_normalise, type_normalise, as_optional_normalise, as_number_normalise.
Qed.

Lemma check_normalise (v : JS.value) :
  JS.wf v -> Codec.check_of_value (normalise v) = Codec.check_of_value v.
Proof.
  intros Hwf. destruct v as [| |b|n|d|s|l|l]; try reflexivity.
  pose proof (proj1 (proj1 (wf_obj l) Hwf)) as Hnd.
  unfold Codec.check_of_value. cbn [normalise].
  rewrite !(field_normalise _ l Hnd).
  now rewrite !as_string_normalise, result_normalise, !as_optional_normalise.
Qed.

Lemma health_normalise (v : JS.value) :
  JS.wf v -> Codec.health_of_value (normalise v) = Codec.health_of_value v.
Proof.
  intros Hwf. destruct v as [| |b|n|d|s|l|l]; try reflexivity.
  pose proof (proj1 (proj1 (wf_obj l) Hwf)) as Hnd.
  unfold Codec.health_of_value. cbn [normalise].
  rewrite !(field_normalise _ l Hnd).
  now rewrite !as_string_normalise, !presence_normalise, as_optional_normalise.
Qed.

(** An array element is read the same after the round trip. *)
Lemma traverse_elements {B : Type} (f : JS.value -> option B) (l : list JS.value) :
  f VNull = f VUndefined ->
  Forall (fun x => f (normalise x) = f x) l ->
  Codec.traverse f (map (fun y => null_if_undefined (normalise y)) l) = Codec.traverse f l.
Proof.
  intros Hnull. induction 1 as [|x r Hx Hr IH]; simpl; [reflexivity |].
  rewrite IH. destruct (is_undefined x) eqn:Eu.
  - destruct x; try discriminate. simpl. now rewrite Hnull.
  - now rewrite normalise_undefined, Hx.
Qed.

Lemma checks_normalise (v : JS.value) :
  JS.wf v ->
  match normalise v with VArr l => Codec.traverse Codec.check_of_value l | _ => None end
  = match v with VArr l => Codec.traverse Codec.check_of_value l | _ => None end.
Proof.
  intros Hwf. destruct v as [| |b|n|d|s|l|l]; try reflexivity.
  cbn [normalise]. apply traverse_elements; [reflexivity |].
  apply wf_arr in Hwf. eapply Forall_impl; [exact Hwf |].
  intros x Hx. now apply check_normalise.
Qed.

Lemma day_normalise (v : JS.value) :
  JS.wf v -> Codec.day_of_value (normalise v) = Codec.day_of_value v.
Proof.
  intros Hwf. destruct v as [| |b|n|d|s|l|l]; try reflexivity.
  pose proof (proj1 (proj1 (wf_obj l) Hwf)) as Hnd.
  unfold Codec.day_of_value. cbn [normalise].
  rewrite !(field_normalise _ l Hnd).
  rewrite !as_string_normalise.
  rewrite (checks_normalise _ (wf_field "checks" l Hwf)).
  now rewrite (health_normalise _ (wf_field "health" l Hwf)).
Qed.

Lemma config_normalise (v : JS.value) :
  JS.wf v -> Codec.config_of_value (normalise v) = Codec.config_of_value v.
Proof.
  intros Hwf. destruct v as [| |b|n|d|s|l|l]; try reflexivity.
  unfold Codec.config_of_value. cbn [normalise]. apply traverse_elements; [reflexivity |].
  apply wf_arr in Hwf. eapply Forall_impl; [exact Hwf |].
  intros x Hx. now apply item_normalise.
Qed.

(** The record map: a date whose record reads as a day record is kept. *)
Lemma records_normalise (v : JS.value) (r : list (string * DayRecord)) :
  JS.wf v -> Codec.records_of_value v = Some r ->
  Codec.records_of_value (normalise v) = Some r.
Proof.
  intros Hwf. destruct v as [| |b|n|d|s|l|l]; try discriminate.
  apply wf_obj in Hwf as [_ Hwf]. unfold Codec.records_of_value. cbn [normalise].
  revert r. induction Hwf as [|[k x] rest Hx Hrest IH]; intros r; simpl; [auto |].
  destruct (Codec.day_of_value x) as [d|] eqn:Ed; [| discriminate].
  destruct (Codec.traverse _ rest) as [ds|] eqn:Et; [| discriminate].
  intros H. injection H as <-.
  assert (is_undefined x = false) as -> by (now destruct x).
  simpl. rewrite (day_normalise x Hx), Ed. now rewrite (IH ds eq_refl).
Qed.

Lemma state_normalise (v : JS.value) (s : AppState) :
  JS.wf v -> Codec.state_of_value v = Some s ->
  Codec.state_of_value (normalise v) = Some s.
Proof.
  intros Hwf. destruct v as [| |b|n|d|str|l|l]; try discriminate.
  pose proof (proj1 (proj1 (wf_obj l) Hwf)) as Hnd.
  unfold Codec.state_of_value. cbn [normalise].
  rewrite !(field_normalise _ l Hnd).
  rewrite (config_normalise _ (wf_field "config" l Hwf)).
  destruct (Codec.config_of_value (Codec.field "config" (VObj l))) as [c|]; [| discriminate].
  destruct (Codec.records_of_value (Codec.field "records" (VObj l))) as [r|] eqn:Er;
    [| discriminate].
  now rewrite (records_normalise _ r (wf_field "records" l Hwf) Er).
Qed.

(** C2: for every application state [s] and every value [v] that holds it
    (the object [{ config, records }], each property present once), the text
    that the backup export writes for [v] is read back by the import as a
    value that holds the same state: every item with its [displayOrder],
    every day record, every check result with its photo. *)
Theorem backup_roundtrip (s : AppState) (v : JS.value) :
  JS.wf v -> Codec.state_of_value v = Some s ->
  exists v', App.importBackupJSON (App.exportBackupJSON v) = Some v' /\
             Codec.state_of_value v' = Some s.
Proof.
  intros Hwf Hs. exists (normalise v). split; [| now apply state_normalise].
  unfold App.importBackupJSON, App.exportBackupJSON.
  destruct (JS.stringify v) as [t|] eqn:Et.
  - simpl. now apply parse_stringify.
  - apply ser_none in Et. destruct v; discriminate.
Qed.

(** The result that [handleSave] builds for an item of type [boolean] has
    its [value] property set to [undefined]; the backup text leaves that
    property out, and the result read from it is the same. *)
Example saved_check_round_trip :
  JS.parse (App.exportBackupJSON
              (Codec.check_to_value
                 (DailyCheckResult.mk "c1" (Some YES) None (Some EmptyString) None)))
  = Some (VObj [("itemId", VStr "c1"); ("result", VStr "YES");
                ("comment", VStr EmptyString); ("photo", VNull)]) /\
  Codec.check_of_value
    (VObj [("itemId", VStr "c1"); ("result", VStr "YES");
           ("comment", VStr EmptyString); ("photo", VNull)])
  = Some (DailyCheckResult.mk "c1" (Some YES) None (Some EmptyString) None).
Proof. split; reflexivity. Qed.

(** The same through the two handlers: a backup of the state [st],
    restored with the user's confirmation over any current state, leaves the
    application with the state [st] held. *)
Lemma backup_then_restore (st cur : App.state) (s : AppState) :
  JS.wf (App.snapshot (App.config st) (App.records st)) ->
  Codec.state_of_value (App.snapshot (App.config st) (App.records st)) = Some s ->
  Codec.state_of_value
    (App.snapshot (App.config (App.handleRestore (Some (App.handleBackup st)) true cur))
       (App.records (App.handleRestore (Some (App.handleBackup st)) true cur)))
  = Some s.
Proof.
  intros Hwf Hs. pose proof (state_normalise _ _ Hwf Hs) as Hn.
  unfold App.handleRestore, App.handleBackup, App.importBackupJSON, App.exportBackupJSON.
  destruct (JS.stringify (App.snapshot (App.config st) (App.records st))) as [t|] eqn:Et;
    [| discriminate].
  simpl App.text_of. rewrite (parse_stringify _ _ Hwf Et).
  unfold Codec.state_of_value in Hs. unfold App.snapshot in *. simpl in Hs.
  destruct (Codec.config_of_value (App.config st)) as [cfg|] eqn:Ec; [| discriminate].
  destruct (Codec.records_of_value (App.records st)) as [recs|] eqn:Er; [| discriminate].
  destruct (App.config st) as [| |b|n|d|str|lc|lc]; try discriminate Ec.
  destruct (App.records st) as [| |b'|n'|d'|str'|lr|lr]; try discriminate Er.
  exact Hn.
Qed.

Ltac distinct_keys :=
  repeat (apply NoDup_cons; split;
          [rewrite ?not_elem_of_cons; repeat split; try discriminate; apply not_elem_of_nil |]);
  apply NoDup_nil_2.

Lemma traverse_map {A B : Type} (f : JS.value -> option B) (g : A -> JS.value)
    (h : A -> B) (l : list A) :
  (forall x, f (g x) = Some (h x)) -> Codec.traverse f (map g l) = Some (map h l).
Proof.
  intros H. induction l as [|x r IH]; simpl; [reflexivity |]. now rewrite H, IH.
Qed.

Lemma item_reads_back (c : CheckItem) :
  JS.wf (Codec.item_to_value c) /\ Codec.item_of_value (Codec.item_to_value c) = Some c.
Proof.
  destruct c as [i c t ty [u|] d]; (split; [| now destruct ty]);
    simpl; (split; [distinct_keys | tauto]).
Qed.

Lemma check_reads_back (r : DailyCheckResult) :
  JS.wf (Codec.check_to_value r) /\ Codec.check_of_value (Codec.check_to_value r) = Some r.
Proof.
  destruct r as [i [[]|] [x|] [c|] [p|]]; (split; [| reflexivity]);
    simpl; (split; [distinct_keys | tauto]).
Qed.

Lemma health_reads_back (h : HealthRecord) :
  JS.wf (Codec.health_to_value h) /\ Codec.health_of_value (Codec.health_to_value h) = Some h.
Proof.
  destruct h as [t [] [] [d|]]; (split; [| reflexivity]);
    simpl; (split; [distinct_keys | tauto]).
Qed.

Lemma day_reads_back (d : DayRecord) :
  JS.wf (Codec.day_to_value d) /\ Codec.day_of_value (Codec.day_to_value d) = Some d.
Proof.
  destruct d as [date checks health updated]. split.
  - apply wf_obj. split; [simpl; distinct_keys |].
    constructor; [exact I |]. constructor; [| constructor; [| constructor; [exact I | constructor]]].
    + apply wf_arr. apply Forall_forall. intros x Hx.
      apply list_elem_of_In, in_map_iff in Hx as (r & <- & _). apply check_reads_back.
    + apply health_reads_back.
  - unfold Codec.day_of_value, Codec.day_to_value. cbn [Codec.field assoc String.eqb Ascii.eqb Bool.eqb
      DayRecord.date DayRecord.checks DayRecord.health DayRecord.lastUpdated Codec.as_string].
    rewrite (traverse_map Codec.check_of_value Codec.check_to_value (fun r => r))
      by (intros r; apply check_reads_back).
    rewrite (proj2 (health_reads_back health)). now rewrite map_id.
Qed.

(** Every application state with each date once is held by the object the
    program builds for it. *)
Lemma state_reads_back (s : AppState) :
  NoDup (map fst (AppState.records s)) ->
  JS.wf (Codec.state_to_value s) /\ Codec.state_of_value (Codec.state_to_value s) = Some s.
Proof.
  destruct s as [config records]. simpl. intros Hnd. split.
  - split; [distinct_keys |]. split; [| split; [| exact I]].
    + apply wf_arr. apply Forall_forall. intros x Hx.
      apply list_elem_of_In, in_map_iff in Hx as (c & <- & _). apply item_reads_back.
    + apply wf_obj. split.
      * now rewrite map_map.
      * apply Forall_forall. intros x Hx.
        apply list_elem_of_In, in_map_iff in Hx as (kd & <- & _). apply day_reads_back.
  - unfold Codec.state_of_value, Codec.state_to_value, Codec.config_of_value,
      Codec.config_to_value, Codec.records_of_value, Codec.records_to_value.
    cbn [Codec.field assoc String.eqb Ascii.eqb Bool.eqb AppState.checklistConfig
           AppState.records].
    rewrite (traverse_map Codec.item_of_value Codec.item_to_value (fun c => c))
      by (intros c; apply item_reads_back).
    rewrite map_id.
    assert (Codec.traverse
              (fun kv => match Codec.day_of_value (snd kv) with
                         | Some d => Some (fst kv, d)
                         | None => None
                         end)
              (map (fun kd => (fst kd, Codec.day_to_value (snd kd))) records)
            = Some records) as ->; [| reflexivity].
    clear Hnd. induction records as [|[k d] r IH]; [reflexivity |].
    cbn [Codec.traverse map fst snd].
    now rewrite (proj2 (day_reads_back d)), IH.
Qed.

Lemma backup_roundtrip_witness :
  exists v',
    App.importBackupJSON
      (App.exportBackupJSON
         (Codec.state_to_value
            (AppState.mk
               [seed "c3" "一般的衛生管理" "冷蔵庫の温度確認（10℃以下）" record (Some "℃") 3]
               [("2024-05-01",
                 DayRecord.mk "2024-05-01"
                   [DailyCheckResult.mk "c3" (Some NO) (Some "8") (Some "高い")
                      (Some "data:image/jpeg;base64,/9j/4AAQ")]
                   (HealthRecord.mk "36.5" nashi ari (Some "切り傷"))
                   "2024-05-01T09:00:00.000Z")])))
    = Some v' /\
    Codec.state_of_value v'
    = Some (AppState.mk
              [seed "c3" "一般的衛生管理" "冷蔵庫の温度確認（10℃以下）" record (Some "℃") 3]
              [("2024-05-01",
                DayRecord.mk "2024-05-01"
                  [DailyCheckResult.mk "c3" (Some NO) (Some "8") (Some "高い")
                     (Some "data:image/jpeg;base64,/9j/4AAQ")]
                  (HealthRecord.mk "36.5" nashi ari (Some "切り傷"))
                  "2024-05-01T09:00:00.000Z")]).
Proof.
  apply backup_roundtrip; [| reflexivity].
  apply state_reads_back. simpl. distinct_keys.
Defined.

End CodecFacts.

(** * The update engine *)

Module EngineFacts.
Import Engine.

Lemma alloc_spec (c : cell) (h : heap) :
  exists l, alloc c h = Some (l, <[l := c]> h) /\ h !! l = None.
Proof.
  exists (fresh (dom h)). split; [reflexivity |].
  apply not_elem_of_dom, is_fresh.
Qed.




Lemma saveCheck_record_spec (h : heap) (rl : loc) (r : DayRecord) (c : DailyCheckResult) :
  read_record h rl = Some r ->
  exists (la l' hl : loc),
    saveCheck_record rl c h
    = Some (l', <[l' := CRecord (DayRecord.date r) la hl (DayRecord.lastUpdated r)]>
                  (<[la := CArray (List.filter (keep_other c) (DayRecord.checks r) ++ [c])]>
                     (<[la := CArray (List.filter (keep_other c) (DayRecord.checks r))]> h))) /\
    h !! la = None /\ h !! l' = None /\ la <> l' /\
    h !! hl = Some (CHealth (DayRecord.health r)).
Proof.
  unfold read_record. intros Hr.
  destruct (h !! rl) as [[| |d cs hl u]|] eqn:Erl; try discriminate.
  destruct (h !! cs) as [[elems| |]|] eqn:Ecs; try discriminate.
  destruct (h !! hl) as [[|hr|]|] eqn:Ehl; try discriminate.
  injection Hr as <-. simpl.
  destruct (alloc_spec (CArray (List.filter (keep_other c) elems)) h) as (la & Hla & Fla).
  destruct (alloc_spec (CRecord d la hl u)
              (<[la := CArray (List.filter (keep_other c) elems ++ [c])]>
                 (<[la := CArray (List.filter (keep_other c) elems)]> h)))
    as (l' & Hl' & Fl').
  exists la, l', hl. unfold saveCheck_record, bind, deref, assign.
  rewrite Erl, Ecs, Hla, Hl'. split; [reflexivity |].
  assert (la <> l') as Hne.
  { intros <-. now rewrite lookup_insert_eq in Fl'. }
  rewrite !lookup_insert_ne in Fl' by exact Hne.
  repeat split; assumption.
Qed.

Lemma getRecordForDate_spec (h : heap) (records : list (string * loc)) (date now0 : string) :
  holds_records h records ->
  exists (l : loc) (h' : heap),
    getRecordForDate records date now0 h = Some (l, h') /\ h ⊆ h' /\
    exists d cs hl u, h' !! l = Some (CRecord d cs hl u).
Proof.
  intros Hrec. unfold getRecordForDate.
  destruct (assoc date records) as [l|] eqn:E.
  - exists l, h. split; [reflexivity |]. split; [reflexivity | now apply (Hrec date)].
  - destruct (alloc_spec (CArray []) h) as (la & Hla & Fla).
    destruct (alloc_spec (CHealth (HealthRecord.mk EmptyString nashi nashi None))
                (<[la := CArray []]> h)) as (lb & Hlb & Flb).
    destruct (alloc_spec (CRecord date la lb now0)
                (<[lb := CHealth (HealthRecord.mk EmptyString nashi nashi None)]>
                   (<[la := CArray []]> h))) as (lc & Hlc & Flc).
    eexists lc, _. unfold bind. rewrite Hla, Hlb, Hlc. split; [reflexivity |]. split.
    + etrans; [apply (insert_subseteq h la); exact Fla |].
      etrans; [apply insert_subseteq; exact Flb |].
      apply insert_subseteq; exact Flc.
    + eexists _, _, _, _. apply lookup_insert_eq.
Qed.

(** [updateRecord] with an updater that returns the record [l']: the
    record gets the new time, every other object stays as it is. *)
Lemma updateRecord_const_spec (h : heap) (records prev : list (string * loc))
    (date now0 now : string) (l' : loc) (d : string) (cs hl : loc) (u : string) :
  holds_records h records -> holds_records h prev ->
  h !! l' = Some (CRecord d cs hl u) ->
  exists h',
    updateRecord records date (fun _ => ret l') now0 now prev h
    = Some (obj_set date l' prev, h') /\
    h' !! l' = Some (CRecord d cs hl now) /\
    forall l x, l <> l' -> h !! l = Some x -> h' !! l = Some x.
Proof.
  intros Hrec Hprev Hl'.
  assert (exists (l : loc) (h1 : heap),
             (match assoc date prev with
              | Some l => ret l
              | None => getRecordForDate records date now0
              end) h = Some (l, h1) /\ h ⊆ h1 /\
             exists d1 cs1 hl1 u1, h1 !! l = Some (CRecord d1 cs1 hl1 u1))
    as (cur & h1 & Hcur & Hsub & d1 & cs1 & hl1 & u1 & Hc).
  { destruct (assoc date prev) as [l|] eqn:E.
    - exists l, h. split; [reflexivity |]. split; [reflexivity | now apply (Hprev date)].
    - now apply getRecordForDate_spec. }
  destruct (alloc_spec (CRecord d1 cs1 hl1 u1) h1) as (lc & Hlc & Flc).
  pose proof (lookup_weaken _ _ _ _ Hl' Hsub) as Hl1.
  assert (lc <> l') as Hne by (intros ->; congruence).
  exists (<[l' := CRecord d cs hl now]> (<[lc := CRecord d1 cs1 hl1 u1]> h1)).
  unfold updateRecord. unfold bind at 1. rewrite Hcur.
  unfold spread, bind, deref, ret, assign. rewrite Hc, Hlc. rewrite lookup_insert_ne by exact Hne. rewrite Hl1.
  split; [reflexivity |]. split; [apply lookup_insert_eq |].
  intros l x Hl Hx. rewrite lookup_insert_ne by congruence.
  pose proof (lookup_weaken _ _ _ _ Hx Hsub) as Hx1.
  rewrite lookup_insert_ne by (intros ->; congruence). exact Hx1.
Qed.



End EngineFacts.

(** * The debounced save *)

Module SaveFacts.
Import App.

#[local] Arguments clearTimeout : simpl never.
#[local] Arguments write : simpl never.

Section save.
Variable quota : string -> bool.

Lemma last_cons {A : Type} (a d : A) (l : list A) : List.last (a :: l) d = List.last l a.
Proof.
  revert a d. induction l as [|b l IH]; intros a d; [reflexivity |].
  change (List.last (a :: b :: l) d) with (List.last (b :: l) d).
  now rewrite !IH.
Qed.



Lemma clearTimeout_own (tm : timer) : clearTimeout (tid tm) [tm] = [].
Proof. unfold clearTimeout. cbn. now rewrite Nat.eqb_refl. Qed.

Lemma clearTimeout_mk (id d : nat) (c r : JS.value) :
  clearTimeout id [mk_timer id d c r] = [].
Proof. exact (clearTimeout_own (mk_timer id d c r)). Qed.







End save.


End SaveFacts.

(** * Health edits *)

Module HealthFacts.
Import Engine EngineFacts.

(** A record read from a store reads the same from a store that keeps its
    objects. *)
Lemma read_record_mono (h h' : heap) (l : loc) (r : DayRecord) :
  (forall l x, h !! l = Some x -> h' !! l = Some x) ->
  read_record h l = Some r -> read_record h' l = Some r.
Proof.
  intros Hold. unfold read_record.
  destruct (h !! l) as [[| |d cs hl u]|] eqn:El; try discriminate.
  destruct (h !! cs) as [[elems| |]|] eqn:Ecs; try discriminate.
  destruct (h !! hl) as [[|hr|]|] eqn:Ehl; try discriminate.
  intros H. now rewrite (Hold _ _ El), (Hold _ _ Ecs), (Hold _ _ Ehl).
Qed.

Lemma holds_records_mono (h h' : heap) (m : list (string * loc)) :
  (forall l x, h !! l = Some x -> h' !! l = Some x) ->
  holds_records h m -> holds_records h' m.
Proof.
  intros Hold Hm d l Hd. destruct (Hm d l Hd) as (d' & cs & hl & u & Hl).
  exists d', cs, hl, u. now apply Hold.
Qed.

Lemma holds_records_set (h : heap) (m : list (string * loc)) (date : string) (l : loc)
    (d : string) (cs hl : loc) (u : string) :
  holds_records h m -> h !! l = Some (CRecord d cs hl u) ->
  holds_records h (obj_set date l m).
Proof.
  intros Hm Hl d0 l0 Hd0. destruct (String.eqb_spec date d0) as [<- | Hne].
  - rewrite ExcelFacts.assoc_obj_set_eq in Hd0. injection Hd0 as <-. eexists _, _, _, _. exact Hl.
  - rewrite ExcelFacts.assoc_obj_set_ne in Hd0 by exact Hne. now apply (Hm d0).
Qed.

Lemma handleChange_record_spec (h : heap) (rl : loc) (r : DayRecord) (e : HealthView.edit) :
  read_record h rl = Some r ->
  exists (nh l' cs : loc),
    HealthView.handleChange_record rl e h
    = Some (l', <[l' := CRecord (DayRecord.date r) cs nh (DayRecord.lastUpdated r)]>
                  (<[nh := CHealth (HealthView.newHealth e (DayRecord.health r))]> h)) /\
    h !! nh = None /\ h !! l' = None /\ nh <> l' /\
    h !! cs = Some (CArray (DayRecord.checks r)).
Proof.
  unfold read_record. intros Hr.
  destruct (h !! rl) as [[| |d cs hl u]|] eqn:Erl; try discriminate.
  destruct (h !! cs) as [[elems| |]|] eqn:Ecs; try discriminate.
  destruct (h !! hl) as [[|hr|]|] eqn:Ehl; try discriminate.
  injection Hr as <-. simpl.
  destruct (alloc_spec (CHealth (HealthView.newHealth e hr)) h) as (nh & Hnh & Fnh).
  destruct (alloc_spec (CRecord d cs nh u) (<[nh := CHealth (HealthView.newHealth e hr)]> h))
    as (l' & Hl' & Fl').
  exists nh, l', cs. unfold HealthView.handleChange_record, bind, deref.
  rewrite Erl, Ehl, Hnh, Hl'. split; [reflexivity |].
  assert (nh <> l') as Hne.
  { intros <-. now rewrite lookup_insert_eq in Fl'. }
  rewrite lookup_insert_ne in Fl' by exact Hne.
  repeat split; assumption.
Qed.

(** One health edit, with what the next render needs: the map still names
    record objects, and the record of the current date is the new one. *)
Lemma handleChange_step (h : heap) (records prev : list (string * loc))
    (currentDate : string) (rl : loc) (r : DayRecord) (e : HealthView.edit)
    (now0 now : string) :
  read_record h rl = Some r ->
  holds_records h records -> holds_records h prev ->
  exists (h' : heap) (l' : loc),
    HealthView.handleChange records currentDate rl e now0 now prev h
    = Some (obj_set currentDate l' prev, h') /\
    read_record h' l'
    = Some (DayRecord.mk (DayRecord.date r) (DayRecord.checks r)
              (HealthView.newHealth e (DayRecord.health r)) now) /\
    (forall l x, h !! l = Some x -> h' !! l = Some x) /\
    holds_records h' (obj_set currentDate l' prev).
Proof.
  intros Hr Hrec Hprev.
  destruct (handleChange_record_spec h rl r e Hr) as (nh & l' & cs & Hch & Fnh & Fl' & Hne & Hcs).
  set (h1 := <[l' := CRecord (DayRecord.date r) cs nh (DayRecord.lastUpdated r)]>
               (<[nh := CHealth (HealthView.newHealth e (DayRecord.health r))]> h)) in *.
  assert (forall l x, h !! l = Some x -> h1 !! l = Some x) as Hsub.
  { intros l x Hx. unfold h1. rewrite !lookup_insert_ne by (intros <-; congruence). exact Hx. }
  destruct (updateRecord_const_spec h1 records prev currentDate now0 now l'
              (DayRecord.date r) cs nh (DayRecord.lastUpdated r)
              (holds_records_mono _ _ _ Hsub Hrec) (holds_records_mono _ _ _ Hsub Hprev))
    as (h' & Hup & Hnew & Hkeep).
  { unfold h1. apply lookup_insert_eq. }
  assert (forall l x, h !! l = Some x -> h' !! l = Some x) as Hold.
  { intros l x Hx. apply Hkeep; [intros ->; congruence | now apply Hsub]. }
  exists h', l'. unfold HealthView.handleChange, bind. rewrite Hch.
  split; [exact Hup |]. split; [| split; [exact Hold |]].
  - unfold read_record. rewrite Hnew, (Hold _ _ Hcs).
    rewrite (Hkeep nh (CHealth (HealthView.newHealth e (DayRecord.health r)))); [reflexivity | exact Hne |].
    unfold h1. rewrite lookup_insert_ne by congruence. apply lookup_insert_eq.
  - eapply holds_records_set; [| exact Hnew]. now apply (holds_records_mono h).
Qed.

(** X1. A health edit stores under the current date a new record object
    whose health has the edited field replaced and the other three fields as
    they were; its date and its checks are those of the record shown, its
    [lastUpdated] is the new time. No object that existed before is changed,
    so the record shown still reads as before, and every other date keeps the
    record it had. *)
Theorem health_edit_spec (h : heap) (records prev : list (string * loc))
    (currentDate : string) (rl : loc) (r : DayRecord) (e : HealthView.edit)
    (now0 now : string) :
  read_record h rl = Some r ->
  holds_records h records -> holds_records h prev ->
  exists (h' : heap) (l' : loc),
    HealthView.handleChange records currentDate rl e now0 now prev h
    = Some (obj_set currentDate l' prev, h') /\
    read_record h' l'
    = Some (DayRecord.mk (DayRecord.date r) (DayRecord.checks r)
              (HealthView.newHealth e (DayRecord.health r)) now) /\
    (forall l x, h !! l = Some x -> h' !! l = Some x) /\
    read_record h' rl = Some r /\
    (forall d, d <> currentDate ->
       assoc d (obj_set currentDate l' prev) = assoc d prev).
Proof.
  intros Hr Hrec Hprev.
  destruct (handleChange_step h records prev currentDate rl r e now0 now Hr Hrec Hprev)
    as (h' & l' & Hch & Hnew & Hold & _).
  exists h', l'. repeat split; try assumption.
  - now apply (read_record_mono h).
  - intros d Hd. apply ExcelFacts.assoc_obj_set_ne. congruence.
Qed.

Lemma health_edit_spec_witness :
  let h := <[2 := CRecord "2024-05-01" 0 1 "2024-05-01T08:00:00.000Z"]>
             (<[1 := CHealth (HealthRecord.mk "36.5" ari nashi (Some "腹痛"))]>
                (<[0 := CArray [DailyCheckResult.mk "c1" (Some YES) None None None]]> ∅)) in
  exists (h' : heap) (l' : loc),
    HealthView.handleChange [("2024-05-01", 2)] "2024-05-01" 2 (HealthView.Symptom nashi)
      "2024-05-01T09:00:00.000Z" "2024-05-01T09:00:00.001Z" [("2024-05-01", 2)] h
    = Some ([("2024-05-01", l')], h') /\
    read_record h' l'
    = Some (DayRecord.mk "2024-05-01" [DailyCheckResult.mk "c1" (Some YES) None None None]
              (HealthRecord.mk "36.5" nashi nashi (Some "腹痛")) "2024-05-01T09:00:00.001Z").
Proof.
  intros h.
  assert (holds_records h [("2024-05-01", 2)]) as Hrec.
  { intros d l Hd. simpl in Hd. destruct (String.eqb d "2024-05-01"); [| discriminate].
    injection Hd as <-. now eexists _, _, _, _. }
  destruct (health_edit_spec h [("2024-05-01", 2)] [("2024-05-01", 2)] "2024-05-01" 2
              (DayRecord.mk "2024-05-01" [DailyCheckResult.mk "c1" (Some YES) None None None]
                 (HealthRecord.mk "36.5" ari nashi (Some "腹痛")) "2024-05-01T08:00:00.000Z")
              (HealthView.Symptom nashi)
              "2024-05-01T09:00:00.000Z" "2024-05-01T09:00:00.001Z" eq_refl Hrec Hrec)
    as (h' & l' & Hch & Hnew & _).
  exists h', l'. split; assumption.
Defined.

(** X2. Two health edits in a row, the second made on the record the view
    shows after the first (the record stored for the current date): the
    record stored in the end has both edits applied in order, and the checks
    of the day are untouched. *)
Theorem health_edits_accumulate (h : heap) (records : list (string * loc))
    (currentDate : string) (rl : loc) (r : DayRecord) (e1 e2 : HealthView.edit)
    (t0 t1 t2 t3 t4 : string) :
  read_record h rl = Some r -> holds_records h records ->
  exists (h1 h2 : heap) (l1 l2 : loc),
    HealthView.handleChange records currentDate rl e1 t0 t1 records h
    = Some (obj_set currentDate l1 records, h1) /\
    getRecordForDate (obj_set currentDate l1 records) currentDate t2 h1 = Some (l1, h1) /\
    HealthView.handleChange (obj_set currentDate l1 records) currentDate l1 e2 t3 t4
      (obj_set currentDate l1 records) h1
    = Some (obj_set currentDate l2 (obj_set currentDate l1 records), h2) /\
    read_record h2 l2
    = Some (DayRecord.mk (DayRecord.date r) (DayRecord.checks r)
              (HealthView.newHealth e2 (HealthView.newHealth e1 (DayRecord.health r))) t4).
Proof.
  intros Hr Hrec.
  destruct (handleChange_step h records records currentDate rl r e1 t0 t1 Hr Hrec Hrec)
    as (h1 & l1 & Hch1 & Hnew1 & Hold1 & Hrec1).
  destruct (handleChange_step h1 _ _ currentDate l1 _ e2 t3 t4 Hnew1 Hrec1 Hrec1)
    as (h2 & l2 & Hch2 & Hnew2 & _ & _).
  exists h1, h2, l1, l2. repeat split; try assumption.
  unfold getRecordForDate. now rewrite ExcelFacts.assoc_obj_set_eq.
Qed.

Lemma health_edits_accumulate_witness :
  let h := <[2 := CRecord "2024-05-01" 0 1 "2024-05-01T08:00:00.000Z"]>
             (<[1 := CHealth (HealthRecord.mk EmptyString nashi nashi None)]>
                (<[0 := CArray []]> ∅)) in
  exists (h1 h2 : heap) (l1 l2 : loc),
    HealthView.handleChange [("2024-05-01", 2)] "2024-05-01" 2 (HealthView.Temp "36.5")
      "t0" "t1" [("2024-05-01", 2)] h
    = Some ([("2024-05-01", l1)], h1) /\
    HealthView.handleChange [("2024-05-01", l1)] "2024-05-01" l1 (HealthView.Wound ari)
      "t3" "t4" [("2024-05-01", l1)] h1
    = Some ([("2024-05-01", l2)], h2) /\
    read_record h2 l2
    = Some (DayRecord.mk "2024-05-01" [] (HealthRecord.mk "36.5" nashi ari None) "t4").
Proof.
  intros h.
  assert (holds_records h [("2024-05-01", 2)]) as Hrec.
  { intros d l Hd. simpl in Hd. destruct (String.eqb d "2024-05-01"); [| discriminate].
    injection Hd as <-. now eexists _, _, _, _. }
  destruct (health_edits_accumulate h [("2024-05-01", 2)] "2024-05-01" 2
              (DayRecord.mk "2024-05-01" [] (HealthRecord.mk EmptyString nashi nashi None)
                 "2024-05-01T08:00:00.000Z")
              (HealthView.Temp "36.5") (HealthView.Wound ari) "t0" "t1" "t2" "t3" "t4"
              eq_refl Hrec)
    as (h1 & h2 & l1 & l2 & H1 & _ & H2 & H3).
  exists h1, h2, l1, l2. simpl in H1, H2.
  repeat split; assumption.
Defined.

End HealthFacts.

(** * The first record of a date *)

Module RecordFacts.
Import Engine EngineFacts HealthFacts.

Lemma obj_set_new {A : Type} (k : string) (x : A) (l : list (string * A)) :
  assoc k l = None -> obj_set k x l = (l ++ [(k, x)])%list.
Proof.
  induction l as [|[k' y] r IH]; simpl; intros H; [reflexivity |].
  destruct (String.eqb k k'); [discriminate |]. now rewrite IH.
Qed.

(** The default record of a date that has none: three new objects, the
    others as they were. *)
Lemma getRecordForDate_default (h : heap) (records : list (string * loc)) (date now0 : string) :
  assoc date records = None ->
  exists (l : loc) (h' : heap),
    getRecordForDate records date now0 h = Some (l, h') /\
    read_record h' l
    = Some (DayRecord.mk date [] (HealthRecord.mk EmptyString nashi nashi None) now0) /\
    h !! l = None /\
    (forall l0 x, h !! l0 = Some x -> h' !! l0 = Some x).
Proof.
  intros Hd. unfold getRecordForDate. rewrite Hd.
  destruct (alloc_spec (CArray []) h) as (la & Hla & Fla).
  destruct (alloc_spec (CHealth (HealthRecord.mk EmptyString nashi nashi None))
              (<[la := CArray []]> h)) as (lb & Hlb & Flb).
  destruct (alloc_spec (CRecord date la lb now0)
              (<[lb := CHealth (HealthRecord.mk EmptyString nashi nashi None)]>
                 (<[la := CArray []]> h))) as (lc & Hlc & Flc).
  assert (la <> lb) as Hab by (intros <-; now rewrite lookup_insert_eq in Flb).
  assert (lb <> lc) as Hbc by (intros <-; now rewrite lookup_insert_eq in Flc).
  assert (la <> lc) as Hac.
  { intros <-. rewrite lookup_insert_ne in Flc by congruence.
    now rewrite lookup_insert_eq in Flc. }
  rewrite lookup_insert_ne in Flb by congruence.
  rewrite !lookup_insert_ne in Flc by congruence.
  exists lc, (<[lc := CRecord date la lb now0]>
                (<[lb := CHealth (HealthRecord.mk EmptyString nashi nashi None)]>
                   (<[la := CArray []]> h))).
  unfold bind. rewrite Hla, Hlb, Hlc. split; [reflexivity |]. split; [| split].
  - unfold read_record. rewrite lookup_insert_eq.
    rewrite (lookup_insert_ne _ lc la) by congruence.
    rewrite (lookup_insert_ne _ lb la) by congruence. rewrite lookup_insert_eq.
    rewrite (lookup_insert_ne _ lc lb) by congruence. now rewrite lookup_insert_eq.
  - exact Flc.
  - intros l0 x Hx. rewrite !lookup_insert_ne by (intros <-; congruence). exact Hx.
Qed.

(** One saved check, with what later steps need. *)
Lemma saveCheck_step (h : heap) (records prev : list (string * loc))
    (currentDate : string) (rl : loc) (r : DayRecord) (c : DailyCheckResult)
    (now0 now : string) :
  read_record h rl = Some r ->
  holds_records h records -> holds_records h prev ->
  exists (h' : heap) (l' : loc),
    saveCheck records currentDate rl c now0 now prev h
    = Some (obj_set currentDate l' prev, h') /\
    read_record h' l'
    = Some (DayRecord.mk (DayRecord.date r) (CheckModal.newChecks c (DayRecord.checks r))
              (DayRecord.health r) now) /\
    (forall l x, h !! l = Some x -> h' !! l = Some x) /\
    holds_records h' (obj_set currentDate l' prev).
Proof.
  intros Hr Hrec Hprev.
  destruct (saveCheck_record_spec h rl r c Hr) as (la & l' & hl & Hsave & Fla & Fl' & Hne & Hhl).
  set (h1 := <[l' := CRecord (DayRecord.date r) la hl (DayRecord.lastUpdated r)]>
               (<[la := CArray (List.filter (keep_other c) (DayRecord.checks r) ++ [c])]>
                  (<[la := CArray (List.filter (keep_other c) (DayRecord.checks r))]> h)))
    in *.
  assert (forall l x, h !! l = Some x -> h1 !! l = Some x) as Hsub.
  { intros l x Hx. unfold h1. rewrite !lookup_insert_ne by (intros <-; congruence). exact Hx. }
  destruct (updateRecord_const_spec h1 records prev currentDate now0 now l'
              (DayRecord.date r) la hl (DayRecord.lastUpdated r)
              (holds_records_mono _ _ _ Hsub Hrec) (holds_records_mono _ _ _ Hsub Hprev))
    as (h' & Hup & Hnew & Hkeep).
  { unfold h1. apply lookup_insert_eq. }
  assert (forall l x, h !! l = Some x -> h' !! l = Some x) as Hold.
  { intros l x Hx. apply Hkeep; [intros ->; congruence | now apply Hsub]. }
  exists h', l'. unfold saveCheck, bind. rewrite Hsave.
  split; [exact Hup |]. split; [| split; [exact Hold |]].
  - unfold read_record, CheckModal.newChecks. rewrite Hnew.
    rewrite (Hkeep la (CArray (List.filter (keep_other c) (DayRecord.checks r) ++ [c])));
      [| exact Hne |].
    + now rewrite (Hold hl _ Hhl).
    + unfold h1. rewrite lookup_insert_ne by congruence. apply lookup_insert_eq.
  - eapply holds_records_set; [| exact Hnew]. now apply (holds_records_mono h).
Qed.

(** X3. On a date that has no record, the view shows a default record
    (no check, empty temperature, no symptom, no wound) without adding it to
    the record map; the first check saved there adds one entry, last in the
    map, whose record has the date, that single check and the default
    health. The records of the other dates and every earlier object stay as
    they were. *)
Theorem first_check_creates_record (h : heap) (records : list (string * loc))
    (currentDate : string) (c : DailyCheckResult) (t0 now0 now : string) :
  holds_records h records -> assoc currentDate records = None ->
  exists (l0 : loc) (h0 h' : heap) (l' : loc),
    getRecordForDate records currentDate t0 h = Some (l0, h0) /\
    read_record h0 l0
    = Some (DayRecord.mk currentDate []
              (HealthRecord.mk EmptyString nashi nashi None) t0) /\
    saveCheck records currentDate l0 c now0 now records h0
    = Some ((records ++ [(currentDate, l')])%list, h') /\
    read_record h' l'
    = Some (DayRecord.mk currentDate [c]
              (HealthRecord.mk EmptyString nashi nashi None) now) /\
    (forall l x, h !! l = Some x -> h' !! l = Some x).
Proof.
  intros Hrec Hd.
  destruct (getRecordForDate_default h records currentDate t0 Hd)
    as (l0 & h0 & Hget & Hread & _ & Hold0).
  pose proof (holds_records_mono _ _ _ Hold0 Hrec) as Hrec0.
  destruct (saveCheck_step h0 records records currentDate l0 _ c now0 now Hread Hrec0 Hrec0)
    as (h' & l' & Hsave & Hnew & Hold & _).
  exists l0, h0, h', l'. rewrite (obj_set_new _ _ _ Hd) in Hsave.
  repeat split; try assumption. intros l x Hx. apply Hold. now apply Hold0.
Qed.

Lemma first_check_creates_record_witness :
  exists (l0 : loc) (h0 h' : heap) (l' : loc),
    getRecordForDate [] "2024-05-01" "t0" ∅ = Some (l0, h0) /\
    saveCheck [] "2024-05-01" l0 (DailyCheckResult.mk "c1" (Some YES) None (Some EmptyString) None)
      "t1" "t2" [] h0
    = Some ([("2024-05-01", l')], h') /\
    read_record h' l'
    = Some (DayRecord.mk "2024-05-01"
              [DailyCheckResult.mk "c1" (Some YES) None (Some EmptyString) None]
              (HealthRecord.mk EmptyString nashi nashi None) "t2").
Proof.
  assert (holds_records ∅ []) as Hrec by (intros d l Hd; discriminate Hd).
  destruct (first_check_creates_record ∅ [] "2024-05-01"
              (DailyCheckResult.mk "c1" (Some YES) None (Some EmptyString) None)
              "t0" "t1" "t2" Hrec eq_refl)
    as (l0 & h0 & h' & l' & H1 & _ & H2 & H3 & _).
  exists l0, h0, h', l'. repeat split; assumption.
Defined.

End RecordFacts.

(** * The modal of a check *)

Module ModalFacts.
Import JSFacts.

Lemma find_check_kept (res : DailyCheckResult) (id : string) (checks : list DailyCheckResult) :
  id <> DailyCheckResult.itemId res ->
  Progress.find_check id (List.filter (Engine.keep_other res) checks)
  = Progress.find_check id checks.
Proof.
  intros Hne. unfold Progress.find_check.
  induction checks as [|c checks IH]; simpl; [reflexivity |].
  unfold Engine.keep_other at 1.
  destruct (String.eqb_spec (DailyCheckResult.itemId c) (DailyCheckResult.itemId res)) as [E | E];
    simpl.
  - destruct (String.eqb_spec (DailyCheckResult.itemId c) id); [congruence | exact IH].
  - destruct (String.eqb (DailyCheckResult.itemId c) id); [reflexivity | exact IH].
Qed.

Lemma find_check_dropped (res : DailyCheckResult) (checks : list DailyCheckResult) :
  Progress.find_check (DailyCheckResult.itemId res) (List.filter (Engine.keep_other res) checks)
  = None.
Proof.
  unfold Progress.find_check.
  induction checks as [|c checks IH]; simpl; [reflexivity |].
  unfold Engine.keep_other at 1.
  destruct (String.eqb (DailyCheckResult.itemId c) (DailyCheckResult.itemId res)) eqn:E;
    simpl; [exact IH | now rewrite E].
Qed.

Lemma find_app (id : string) (l1 l2 : list DailyCheckResult) :
  Progress.find_check id (l1 ++ l2)%list
  = match Progress.find_check id l1 with
    | Some c => Some c
    | None => Progress.find_check id l2
    end.
Proof.
  unfold Progress.find_check. induction l1 as [|c l1 IH]; simpl; [reflexivity |].
  destruct (String.eqb (DailyCheckResult.itemId c) id); [reflexivity | exact IH].
Qed.

(** After a save the entry found for the saved item is the new one, the
    entry found for any other item is the one found before. *)
Lemma find_newChecks (res : DailyCheckResult) (id : string) (checks : list DailyCheckResult) :
  Progress.find_check id (CheckModal.newChecks res checks)
  = if String.eqb (DailyCheckResult.itemId res) id then Some res
    else Progress.find_check id checks.
Proof.
  unfold CheckModal.newChecks. rewrite find_app.
  destruct (String.eqb_spec (DailyCheckResult.itemId res) id) as [<- | Hne].
  - rewrite find_check_dropped. unfold Progress.find_check. simpl.
    now rewrite String.eqb_refl.
  - rewrite find_check_kept by congruence.
    destruct (Progress.find_check id checks); [reflexivity |].
    unfold Progress.find_check. simpl.
    destruct (String.eqb_spec (DailyCheckResult.itemId res) id); [congruence | reflexivity].
Qed.

Lemma handleSave_id (item : CheckItem) (s : CheckModal.state) (res : DailyCheckResult) :
  CheckModal.handleSave item s = Some res ->
  DailyCheckResult.itemId res = CheckItem.id item /\
  DailyCheckResult.result res <> None /\
  (CheckItem.type item = boolean -> DailyCheckResult.value res = None).
Proof.
  unfold CheckModal.handleSave. destruct (CheckModal.result s); [| discriminate].
  intros H. injection H as <-. simpl. repeat split; [discriminate |].
  now intros ->.
Qed.

(** X4. The modal saves nothing until an answer is chosen, and what it
    saves always carries an answer: after the save the day's record counts
    the item as completed, whatever was recorded for it before, and every
    item with another id is counted as it was. *)
Theorem saved_item_is_completed (item : CheckItem) (s : CheckModal.state)
    (res : DailyCheckResult) (r : DayRecord) (now : string) :
  CheckModal.handleSave item s = Some res ->
  CheckModal.result s <> None /\
  Progress.completed
    (DayRecord.mk (DayRecord.date r) (CheckModal.newChecks res (DayRecord.checks r))
       (DayRecord.health r) now) item = true /\
  (forall other, CheckItem.id other <> CheckItem.id item ->
     Progress.completed
       (DayRecord.mk (DayRecord.date r) (CheckModal.newChecks res (DayRecord.checks r))
          (DayRecord.health r) now) other
     = Progress.completed r other).
Proof.
  intros Hs. destruct (handleSave_id item s res Hs) as (Hid & Hres & _).
  split; [| split].
  - unfold CheckModal.handleSave in Hs. now destruct (CheckModal.result s).
  - unfold Progress.completed. simpl. rewrite find_newChecks, Hid, String.eqb_refl.
    now destruct (DailyCheckResult.result res).
  - intros other Hne. unfold Progress.completed. simpl. rewrite find_newChecks, Hid.
    destruct (String.eqb_spec (CheckItem.id item) (CheckItem.id other)); [congruence |].
    reflexivity.
Qed.

Lemma saved_item_is_completed_witness :
  Progress.completed
    (DayRecord.mk "2024-05-01"
       (CheckModal.newChecks
          (DailyCheckResult.mk "c3" (Some NO) (Some "12") (Some EmptyString) None)
          [DailyCheckResult.mk "c3" None None None None])
       (HealthRecord.mk EmptyString nashi nashi None) "t1")
    (seed "c3" "一般的衛生管理" "冷蔵庫の温度確認（10℃以下）" record (Some "℃") 3)
  = true.
Proof.
  exact (proj1 (proj2 (saved_item_is_completed
           (seed "c3" "一般的衛生管理" "冷蔵庫の温度確認（10℃以下）" record (Some "℃") 3)
           (CheckModal.mk (Some NO) "12" EmptyString None)
           (DailyCheckResult.mk "c3" (Some NO) (Some "12") (Some EmptyString) None)
           (DayRecord.mk "2024-05-01" [DailyCheckResult.mk "c3" None None None None]
              (HealthRecord.mk EmptyString nashi nashi None) "t0")
           "t1" eq_refl))).
Defined.

(** X5. Opening the modal on an item that was just saved and pressing 決定
    without a change stores the same result again, provided the photo of the
    first save is a non-empty string or none. *)
Theorem modal_resave_same_result (item : CheckItem) (s : CheckModal.state)
    (res : DailyCheckResult) (r : DayRecord) (now : string) :
  CheckModal.photo s <> Some EmptyString ->
  CheckModal.handleSave item s = Some res ->
  CheckModal.handleSave item
    (CheckModal.opened item
       (DayRecord.mk (DayRecord.date r) (CheckModal.newChecks res (DayRecord.checks r))
          (DayRecord.health r) now))
  = Some res.
Proof.
  intros Hp Hs. destruct (handleSave_id item s res Hs) as (Hid & _ & _).
  unfold CheckModal.opened. simpl. rewrite find_newChecks, Hid, String.eqb_refl.
  unfold CheckModal.handleSave in Hs |- *.
  destruct s as [[a|] v c p]; simpl in *; [| discriminate].
  injection Hs as <-. simpl.
  assert (CheckModal.or_null p = p) as ->.
  { destruct p as [p|]; [| reflexivity]. simpl.
    destruct p; [congruence | reflexivity]. }
  now destruct (CheckItem.type item).
Qed.

Lemma modal_resave_same_result_witness :
  CheckModal.handleSave
    (seed "c3" "一般的衛生管理" "冷蔵庫の温度確認（10℃以下）" record (Some "℃") 3)
    (CheckModal.opened
       (seed "c3" "一般的衛生管理" "冷蔵庫の温度確認（10℃以下）" record (Some "℃") 3)
       (DayRecord.mk "2024-05-01"
          (CheckModal.newChecks
             (DailyCheckResult.mk "c3" (Some NO) (Some "12") (Some "扉が開いていた") None)
             [DailyCheckResult.mk "c1" (Some YES) None (Some EmptyString) None])
          (HealthRecord.mk EmptyString nashi nashi None) "t1"))
  = Some (DailyCheckResult.mk "c3" (Some NO) (Some "12") (Some "扉が開いていた") None).
Proof.
  refine (modal_resave_same_result
           (seed "c3" "一般的衛生管理" "冷蔵庫の温度確認（10℃以下）" record (Some "℃") 3)
           (CheckModal.mk (Some NO) "12" "扉が開いていた" None)
           (DailyCheckResult.mk "c3" (Some NO) (Some "12") (Some "扉が開いていた") None)
           (DayRecord.mk "2024-05-01"
              [DailyCheckResult.mk "c1" (Some YES) None (Some EmptyString) None]
              (HealthRecord.mk EmptyString nashi nashi None) "t0")
           "t1" _ eq_refl).
  discriminate.
Defined.

(** With pairwise distinct ids an id names one item. *)
Lemma same_id_same_item (config : list CheckItem) (a b : CheckItem) :
  NoDup (Settings.ids config) -> a ∈ config -> b ∈ config ->
  CheckItem.id a = CheckItem.id b -> a = b.
Proof.
  unfold Settings.ids. induction config as [|c config IH]; simpl; intros Hnd Ha Hb E.
  - now apply elem_of_nil in Ha.
  - apply NoDup_cons in Hnd as [Hc Hnd].
    apply elem_of_cons in Ha as [-> | Ha]; apply elem_of_cons in Hb as [-> | Hb].
    + reflexivity.
    + exfalso. apply Hc. rewrite E. apply list_elem_of_In, in_map, list_elem_of_In, Hb.
    + exfalso. apply Hc. rewrite <- E. apply list_elem_of_In, in_map, list_elem_of_In, Ha.
    + now apply IH.
Qed.

Lemma values_typed_save (config : list CheckItem) (item : CheckItem) (s : CheckModal.state)
    (checks : list DailyCheckResult) :
  NoDup (Settings.ids config) -> item ∈ config ->
  CheckModal.values_typed config checks ->
  CheckModal.values_typed config
    (match CheckModal.handleSave item s with
     | Some res => CheckModal.newChecks res checks
     | None => checks
     end).
Proof.
  intros Hnd Hin Hinv. destruct (CheckModal.handleSave item s) as [res|] eqn:Hs; [| exact Hinv].
  destruct (handleSave_id item s res Hs) as (Hid & _ & Hval).
  intros j c Hj Hty. rewrite find_newChecks, Hid.
  destruct (String.eqb_spec (CheckItem.id item) (CheckItem.id j)) as [E | E].
  - intros H. injection H as <-. apply Hval.
    rewrite (same_id_same_item config item j Hnd Hin Hj E). exact Hty.
  - now apply Hinv.
Qed.

Lemma values_typed_saved (config : list CheckItem) (uses : list (CheckItem * CheckModal.state)) :
  NoDup (Settings.ids config) -> (forall u, u ∈ uses -> fst u ∈ config) ->
  forall checks, CheckModal.values_typed config checks ->
                 CheckModal.values_typed config (CheckModal.saved uses checks).
Proof.
  intros Hnd. induction uses as [|[item s] uses IH]; intros Hin checks Hinv; [exact Hinv |].
  simpl. apply IH.
  - intros u Hu. apply Hin. now right.
  - apply values_typed_save; [exact Hnd | | exact Hinv]. apply (Hin (item, s)). now left.
Qed.

(** X6. When the ids of the configuration are pairwise distinct and the
    checks of a day all come from the modal, opened on configured items,
    every cell of the tabular export is the one the specification words: the
    answer, the value with its unit for an item of type [record] only, then
    the comment. *)
Theorem modal_saved_cells_follow_types (config : list CheckItem)
    (uses : list (CheckItem * CheckModal.state)) (item : CheckItem)
    (date : string) (health : HealthRecord) (lastUpdated : string) :
  NoDup (Settings.ids config) -> (forall u, u ∈ uses -> fst u ∈ config) ->
  item ∈ config ->
  Excel.valueStr item (DayRecord.mk date (CheckModal.saved uses []) health lastUpdated)
  = Excel.cell_spec item (DayRecord.mk date (CheckModal.saved uses []) health lastUpdated).
Proof.
  intros Hnd Huses Hin.
  assert (CheckModal.values_typed config (CheckModal.saved uses [])) as Hinv.
  { apply values_typed_saved; [exact Hnd | exact Huses |]. intros j c _ _ H. discriminate H. }
  rewrite ExcelFacts.valueStr_parts. unfold Excel.cell_spec.
  destruct (CheckItem.type item) eqn:Hty; [| reflexivity].
  unfold Excel.value_part, Excel.stored_value. simpl.
  destruct (Progress.find_check (CheckItem.id item) (CheckModal.saved uses [])) as [c|] eqn:Ef;
    [| reflexivity].
  now rewrite (Hinv item c Hin Hty Ef).
Qed.

Lemma modal_saved_cells_follow_types_witness :
  Excel.valueStr (seed "c6" "一般的衛生管理" "トイレの洗浄・消毒" boolean None 6)
    (DayRecord.mk "2024-05-01"
       (CheckModal.saved
          [(seed "c6" "一般的衛生管理" "トイレの洗浄・消毒" boolean None 6,
            CheckModal.mk (Some YES) "8" "済" None)] [])
       (HealthRecord.mk EmptyString nashi nashi None) "t1")
  = Excel.cell_spec (seed "c6" "一般的衛生管理" "トイレの洗浄・消毒" boolean None 6)
      (DayRecord.mk "2024-05-01"
         (CheckModal.saved
            [(seed "c6" "一般的衛生管理" "トイレの洗浄・消毒" boolean None 6,
              CheckModal.mk (Some YES) "8" "済" None)] [])
         (HealthRecord.mk EmptyString nashi nashi None) "t1").
Proof.
  refine (modal_saved_cells_follow_types DEFAULT_CHECKLIST
            [(seed "c6" "一般的衛生管理" "トイレの洗浄・消毒" boolean None 6,
              CheckModal.mk (Some YES) "8" "済" None)]
            (seed "c6" "一般的衛生管理" "トイレの洗浄・消毒" boolean None 6)
            "2024-05-01" (HealthRecord.mk EmptyString nashi nashi None) "t1" _ _ _).
  - exact SettingsFacts.seed_ids_unique.
  - intros u Hu. apply list_elem_of_singleton in Hu. subst u. simpl.
    do 5 right. now left.
  - do 5 right. now left.
Defined.

End ModalFacts.

(** * The check list and the history *)

Module ViewFacts.
Import JSFacts.

(** ** Headings and the items under them *)

Lemma Set_add_elem (seen : list string) (y x : string) :
  x ∈ CheckListView.Set_add seen y <-> x ∈ seen \/ x = y.
Proof.
  unfold CheckListView.Set_add. destruct (existsb (String.eqb y) seen) eqn:E.
  - split; [now left | intros [H | ->]; [exact H |]].
    apply existsb_exists in E as (z & Hz & Ez). apply String.eqb_eq in Ez. subst z.
    now apply list_elem_of_In.
  - rewrite elem_of_app, list_elem_of_singleton. tauto.
Qed.

Lemma Set_add_nodup (seen : list string) (y : string) :
  NoDup seen -> NoDup (CheckListView.Set_add seen y).
Proof.
  intros Hnd. unfold CheckListView.Set_add. destruct (existsb (String.eqb y) seen) eqn:E;
    [exact Hnd |].
  apply NoDup_app. split; [exact Hnd |]. split; [| apply NoDup_singleton].
  intros x Hx Hy. apply list_elem_of_singleton in Hy. subst x.
  assert (existsb (String.eqb y) seen = true) as E'; [| congruence].
  apply existsb_exists. exists y. split; [now apply list_elem_of_In | apply String.eqb_refl].
Qed.

Lemma fold_Set_add (l seen : list string) :
  NoDup seen ->
  NoDup (fold_left CheckListView.Set_add l seen) /\
  forall x, x ∈ fold_left CheckListView.Set_add l seen <-> x ∈ seen \/ x ∈ l.
Proof.
  revert seen. induction l as [|y l IH]; intros seen Hnd; simpl.
  - split; [exact Hnd |]. intros x. rewrite elem_of_nil. tauto.
  - destruct (IH _ (Set_add_nodup seen y Hnd)) as [H1 H2]. split; [exact H1 |].
    intros x. rewrite H2, Set_add_elem, elem_of_cons. tauto.
Qed.

Lemma categories_spec (config : list CheckItem) :
  NoDup (CheckListView.categories config) /\
  forall x, x ∈ CheckListView.categories config <-> x ∈ map CheckItem.category config.
Proof.
  unfold CheckListView.categories.
  destruct (fold_Set_add (map CheckItem.category config) [] (NoDup_nil_2)) as [H1 H2].
  split; [exact H1 |]. intros x. rewrite H2, elem_of_nil. tauto.
Qed.

Lemma filter_other_category (c : CheckItem) (rest : list CheckItem) (cats : list string) :
  CheckItem.category c ∉ cats ->
  map (fun cat => List.filter (fun c => String.eqb (CheckItem.category c) cat) (c :: rest)) cats
  = map (fun cat => List.filter (fun c => String.eqb (CheckItem.category c) cat) rest) cats.
Proof.
  induction cats as [|cat cats IH]; intros Hk; simpl; [reflexivity |].
  apply not_elem_of_cons in Hk as [Hne Hk].
  destruct (String.eqb_spec (CheckItem.category c) cat); [congruence |].
  now rewrite <- IH.
Qed.

Lemma groups_cons (c : CheckItem) (rest : list CheckItem) (cats : list string) :
  NoDup cats -> CheckItem.category c ∈ cats ->
  concat (map (fun cat => List.filter (fun c => String.eqb (CheckItem.category c) cat)
                            (c :: rest)) cats)
  ≡ₚ c :: concat (map (fun cat => List.filter (fun c => String.eqb (CheckItem.category c) cat)
                                    rest) cats).
Proof.
  induction cats as [|cat cats IH]; intros Hnd Hin; [now apply elem_of_nil in Hin |].
  apply NoDup_cons in Hnd as [Hcat Hnd]. cbn [map concat].
  destruct (String.eqb_spec (CheckItem.category c) cat) as [E | E].
  - subst cat. rewrite filter_other_category by exact Hcat. cbn [List.filter].
    rewrite String.eqb_refl. reflexivity.
  - apply elem_of_cons in Hin as [Hin | Hin]; [congruence |].
    cbn [List.filter]. destruct (String.eqb_spec (CheckItem.category c) cat); [congruence |].
    rewrite (IH Hnd Hin). symmetry. apply Permutation_middle.
Qed.

Lemma groups_partition (config : list CheckItem) (cats : list string) :
  NoDup cats -> (forall c, c ∈ config -> CheckItem.category c ∈ cats) ->
  concat (map (fun cat => List.filter (fun c => String.eqb (CheckItem.category c) cat) config)
            cats)
  ≡ₚ config.
Proof.
  intros Hnd. induction config as [|c rest IH]; intros Hin.
  - clear. induction cats as [|cat cats IHc]; [reflexivity | exact IHc].
  - rewrite groups_cons; [| exact Hnd | apply Hin; now left].
    rewrite IH; [reflexivity |]. intros c' Hc'. apply Hin. now right.
Qed.

Lemma Sorted_weaken {A : Type} (R R' : A -> A -> Prop) (l : list A) :
  (forall a b, R a b -> R' a b) -> Sorted R l -> Sorted R' l.
Proof.
  intros HR. induction 1 as [|x l Hl IH Hhd]; constructor; [exact IH |].
  destruct Hhd; constructor. now apply HR.
Qed.

(** X7. The check list shows every configured item exactly once: the
    headings are the categories, each once, no heading is empty, the items
    under a heading are those of its category, in ascending display order,
    and all the groups together hold the items of the configuration, each as
    often as the configuration does. *)
Theorem sections_show_each_item_once (config : list CheckItem) :
  concat (map snd (CheckListView.sections config)) ≡ₚ config /\
  NoDup (map fst (CheckListView.sections config)) /\
  (forall cat items, (cat, items) ∈ CheckListView.sections config ->
     items <> [] /\
     (forall c, c ∈ items -> c ∈ config /\ CheckItem.category c = cat) /\
     Sorted (fun a b => (CheckItem.displayOrder a <= CheckItem.displayOrder b)%Z) items).
Proof.
  destruct (categories_spec config) as [Hnd Hcats].
  unfold CheckListView.sections. rewrite !map_map. simpl. rewrite map_id.
  split; [| split; [exact Hnd |]].
  - rewrite <- (groups_partition config (CheckListView.categories config) Hnd) at 2.
    + generalize (CheckListView.categories config). intros cats.
      induction cats as [|cat cats IH]; [reflexivity |]. simpl.
      unfold CheckListView.items_of at 1. now rewrite ExcelFacts.sort_by_perm, IH.
    + intros c Hc. apply Hcats. now apply list_elem_of_In, in_map, list_elem_of_In.
  - intros cat items Hin. apply list_elem_of_In, in_map_iff in Hin as (cat' & E & Hcat).
    injection E as -> <-. apply list_elem_of_In, Hcats, list_elem_of_In, in_map_iff in Hcat
      as (c0 & Ec0 & Hc0).
    assert (forall c, c ∈ CheckListView.items_of config cat <->
                      c ∈ config /\ CheckItem.category c = cat) as Hmem.
    { intros c. unfold CheckListView.items_of. rewrite ExcelFacts.sort_by_perm.
      rewrite !list_elem_of_In, filter_In, String.eqb_eq. reflexivity. }
    split; [| split].
    + intros E. assert (c0 ∈ CheckListView.items_of config cat) as H
        by (apply Hmem; split; [now apply list_elem_of_In | exact Ec0]).
      rewrite E in H. now apply elem_of_nil in H.
    + intros c Hc. now apply Hmem.
    + unfold CheckListView.items_of.
      eapply Sorted_weaken; [| apply (ExcelFacts.sort_by_sorted CheckListView.by_displayOrder)].
      * intros a b H. unfold CheckListView.by_displayOrder in H.
        apply Z.compare_ge_iff in H. lia.
      * intros a b. unfold CheckListView.by_displayOrder.
        rewrite (Z.compare_antisym (CheckItem.displayOrder a)). intros ->. discriminate.
Qed.

(** ** The two counts of answered checks *)

Lemma nodup_map_filter {A : Type} (f : A -> string) (p : A -> bool) (l : list A) :
  NoDup (map f l) -> NoDup (map f (List.filter p l)).
Proof.
  induction l as [|x l IH]; simpl; intros H; [constructor |].
  apply NoDup_cons in H as [Hx H]. destruct (p x); simpl; [| now apply IH].
  apply NoDup_cons. split; [| now apply IH].
  intros Hin. apply Hx. apply list_elem_of_In, in_map_iff in Hin as (y & E & Hy).
  apply filter_In in Hy as [Hy _]. rewrite <- E. now apply list_elem_of_In, in_map.
Qed.

Lemma find_check_some (id : string) (checks : list DailyCheckResult) (c : DailyCheckResult) :
  Progress.find_check id checks = Some c -> c ∈ checks /\ DailyCheckResult.itemId c = id.
Proof.
  unfold Progress.find_check. intros H. apply find_some in H as [Hin E].
  apply String.eqb_eq in E. split; [now apply list_elem_of_In | exact E].
Qed.

Lemma find_check_unique (checks : list DailyCheckResult) (c : DailyCheckResult) :
  NoDup (map DailyCheckResult.itemId checks) -> c ∈ checks ->
  Progress.find_check (DailyCheckResult.itemId c) checks = Some c.
Proof.
  unfold Progress.find_check. induction checks as [|x checks IH]; simpl; intros Hnd Hin.
  - now apply elem_of_nil in Hin.
  - apply NoDup_cons in Hnd as [Hx Hnd].
    apply elem_of_cons in Hin as [-> | Hin]; [now rewrite String.eqb_refl |].
    destruct (String.eqb_spec (DailyCheckResult.itemId x) (DailyCheckResult.itemId c)) as [E | E].
    + exfalso. apply Hx. rewrite E. now apply list_elem_of_In, in_map, list_elem_of_In.
    + now apply IH.
Qed.

(** X8. With pairwise distinct item ids, the number of completed items
    that the progress uses never exceeds the number of answered checks that
    the history shows for the day; the two are equal when, moreover, the day
    has one check per item id and every answered check is for a configured
    item. *)
Theorem completed_count_and_history_count (config : list CheckItem) (r : DayRecord) :
  NoDup (Settings.ids config) ->
  Progress.completedCount config r <= HistoryView.checkCount r /\
  (NoDup (map DailyCheckResult.itemId (DayRecord.checks r)) ->
   (forall c, c ∈ DayRecord.checks r -> HistoryView.answered c = true ->
              DailyCheckResult.itemId c ∈ Settings.ids config) ->
   Progress.completedCount config r = HistoryView.checkCount r).
Proof.
  intros Hnd. unfold Progress.completedCount, HistoryView.checkCount, Settings.ids in *.
  assert (forall x, x ∈ map CheckItem.id (List.filter (Progress.completed r) config) ->
                    x ∈ map DailyCheckResult.itemId
                          (List.filter HistoryView.answered (DayRecord.checks r))) as Hsub.
  { intros x Hx. apply list_elem_of_In, in_map_iff in Hx as (item & <- & Hitem).
    apply filter_In in Hitem as [_ Hc]. unfold Progress.completed in Hc.
    destruct (Progress.find_check (CheckItem.id item) (DayRecord.checks r)) as [c|] eqn:Ef;
      [| discriminate].
    destruct (find_check_some _ _ _ Ef) as [Hin <-].
    apply list_elem_of_In, in_map, filter_In. split; [now apply list_elem_of_In |].
    unfold HistoryView.answered. now destruct (DailyCheckResult.result c). }
  assert (length (List.filter (Progress.completed r) config)
          <= length (List.filter HistoryView.answered (DayRecord.checks r))) as Hle.
  { rewrite <- (length_map CheckItem.id), <- (length_map DailyCheckResult.itemId).
    apply submseteq_length, NoDup_submseteq; [| exact Hsub].
    now apply nodup_map_filter. }
  split; [exact Hle |]. intros Hchecks Hconf. apply Nat.le_antisymm; [exact Hle |].
  rewrite <- (length_map CheckItem.id), <- (length_map DailyCheckResult.itemId).
  apply submseteq_length, NoDup_submseteq; [now apply nodup_map_filter |].
  intros x Hx. apply list_elem_of_In, in_map_iff in Hx as (c & <- & Hc).
  apply filter_In in Hc as [Hc Ha]. apply list_elem_of_In in Hc.
  pose proof (Hconf c Hc Ha) as Hid.
  apply list_elem_of_In, in_map_iff in Hid as (item & E & Hitem).
  rewrite <- E. apply list_elem_of_In, in_map, filter_In. split; [exact Hitem |].
  unfold Progress.completed. rewrite E, (find_check_unique _ c Hchecks Hc).
  unfold HistoryView.answered in Ha. now destruct (DailyCheckResult.result c).
Qed.

Lemma completed_count_and_history_count_witness :
  Progress.completedCount (skipn 1 DEFAULT_CHECKLIST)
    (DayRecord.mk "2024-05-01"
       [DailyCheckResult.mk "c1" (Some YES) None None None;
        DailyCheckResult.mk "c2" (Some NO) None None None]
       (HealthRecord.mk EmptyString nashi nashi None) "t0")
  <= HistoryView.checkCount
       (DayRecord.mk "2024-05-01"
          [DailyCheckResult.mk "c1" (Some YES) None None None;
           DailyCheckResult.mk "c2" (Some NO) None None None]
          (HealthRecord.mk EmptyString nashi nashi None) "t0").
Proof.
  refine (proj1 (completed_count_and_history_count (skipn 1 DEFAULT_CHECKLIST)
                   (DayRecord.mk "2024-05-01"
                      [DailyCheckResult.mk "c1" (Some YES) None None None;
                       DailyCheckResult.mk "c2" (Some NO) None None None]
                      (HealthRecord.mk EmptyString nashi nashi None) "t0") _)).
  pose proof SettingsFacts.seed_ids_unique as H. simpl in H.
  now apply NoDup_cons in H as [_ ?].
Defined.

End ViewFacts.

(** * The rows of the tabular export and of the history *)

Module ReportFacts.
Import JSFacts.

Lemma insert_by_map {A B : Type} (g : A -> B) (cmp : A -> A -> comparison)
    (cmp' : B -> B -> comparison) (x : A) (l : list A) :
  (forall a b, cmp' (g a) (g b) = cmp a b) ->
  Excel.insert_by cmp' (g x) (map g l) = map g (Excel.insert_by cmp x l).
Proof.
  intros H. induction l as [|y l IH]; simpl; [reflexivity |].
  rewrite H. destruct (cmp x y); simpl; now rewrite ?IH.
Qed.

(** Sorting by a key and then taking the keys is sorting the keys. *)
Lemma sort_by_map {A B : Type} (g : A -> B) (cmp : A -> A -> comparison)
    (cmp' : B -> B -> comparison) (l : list A) :
  (forall a b, cmp' (g a) (g b) = cmp a b) ->
  Excel.sort_by cmp' (map g l) = map g (Excel.sort_by cmp l).
Proof.
  intros H. unfold Excel.sort_by.
  assert (forall acc, fold_left (fun acc x => Excel.insert_by cmp' x acc) (map g l) (map g acc)
                      = map g (fold_left (fun acc x => Excel.insert_by cmp x acc) l acc)) as Hf.
  { induction l as [|x l IH]; intros acc; simpl; [reflexivity |].
    rewrite (insert_by_map g cmp cmp' x acc H). apply IH. }
  exact (Hf []).
Qed.

Lemma fixed_cells_columns (f : string -> string) (r : DayRecord) :
  Excel.columns (Excel.fixed_cells f r) = Report.fixed_columns.
Proof. reflexivity. Qed.

Lemma label_not_fixed (item : CheckItem) : Excel.resultKey item ∉ Report.fixed_columns.
Proof.
  unfold Excel.resultKey, Report.fixed_columns. simpl. rewrite !not_elem_of_cons.
  repeat split; try discriminate. apply not_elem_of_nil.
Qed.


(** Labels that are new to a row each add a column, in order. *)
Lemma fold_set_cell_distinct (r : DayRecord) (l : list CheckItem) (row : list (string * string)) :
  NoDup (Excel.columns row ++ map Excel.resultKey l)%list ->
  Excel.columns (fold_left (Excel.set_cell r) l row)
  = (Excel.columns row ++ map Excel.resultKey l)%list.
Proof.
  revert row. induction l as [|j l IH]; intros row Hnd; simpl.
  - now rewrite app_nil_r.
  - assert (Excel.columns (Excel.set_cell r row j)
            = (Excel.columns row ++ [Excel.resultKey j])%list) as Hj.
    { unfold Excel.columns, Excel.set_cell. rewrite ExcelFacts.obj_set_keys.
      rewrite bool_decide_eq_false_2; [reflexivity |].
      apply NoDup_app in Hnd as (_ & Hdisj & _). intros Hin. apply (Hdisj _ Hin). now left. }
    rewrite IH; rewrite Hj, <- app_assoc; [reflexivity | exact Hnd].
Qed.




(** X11. When the labels [[category] text] of the configured items are
    pairwise distinct, a row has the six fixed columns followed by one column
    per item, in the order of the configuration, and the cell under the label
    of an item is the text built for that item. *)
Theorem export_distinct_labels (f : string -> string) (config : list CheckItem)
    (r : DayRecord) :
  NoDup (map Excel.resultKey config) ->
  Excel.columns (Excel.row_of f config r)
  = (Report.fixed_columns ++ map Excel.resultKey config)%list /\
  (forall item, item ∈ config ->
     assoc (Excel.resultKey item) (Excel.row_of f config r) = Some (Excel.valueStr item r)).
Proof.
  intros Hnd. split.
  - unfold Excel.row_of. rewrite fold_set_cell_distinct; [reflexivity |].
    rewrite fixed_cells_columns. apply NoDup_app. split; [| split; [| exact Hnd]].
    + unfold Report.fixed_columns. repeat (apply NoDup_cons; split;
        [rewrite ?not_elem_of_cons; repeat split; try discriminate; apply not_elem_of_nil |]).
      constructor.
    + intros x Hx Hl. apply list_elem_of_In, in_map_iff in Hl as (item & <- & _).
      now apply (label_not_fixed item).
  - intros item Hin. apply list_elem_of_In, in_split in Hin as (before & after & ->).
    apply ExcelFacts.row_of_cell. intros j Hj E.
    rewrite map_app in Hnd. simpl in Hnd. apply NoDup_app in Hnd as (_ & _ & Hnd).
    apply NoDup_cons in Hnd as [Hitem _]. apply Hitem. rewrite <- E.
    now apply list_elem_of_In, in_map, list_elem_of_In.
Qed.

Lemma export_distinct_labels_witness :
  Excel.columns
    (Excel.row_of (fun s => s) DEFAULT_CHECKLIST
       (DayRecord.mk "2024-05-01" [] (HealthRecord.mk "36.5" nashi nashi None) "t1"))
  = (Report.fixed_columns ++ map Excel.resultKey DEFAULT_CHECKLIST)%list.
Proof.
  refine (proj1 (export_distinct_labels (fun s => s) DEFAULT_CHECKLIST
                   (DayRecord.mk "2024-05-01" [] (HealthRecord.mk "36.5" nashi nashi None) "t1")
                   _)).
  simpl. repeat (apply NoDup_cons; split;
    [rewrite ?not_elem_of_cons; repeat split; try discriminate; apply not_elem_of_nil |]).
  constructor.
Defined.

Lemma find_check_without_photo (id : string) (checks : list DailyCheckResult) :
  Progress.find_check id
    (map (fun c => DailyCheckResult.mk (DailyCheckResult.itemId c) (DailyCheckResult.result c)
                     (DailyCheckResult.value c) (DailyCheckResult.comment c) None) checks)
  = option_map
      (fun c => DailyCheckResult.mk (DailyCheckResult.itemId c) (DailyCheckResult.result c)
                  (DailyCheckResult.value c) (DailyCheckResult.comment c) None)
      (Progress.find_check id checks).
Proof.
  unfold Progress.find_check. induction checks as [|c checks IH]; simpl; [reflexivity |].
  destruct (String.eqb (DailyCheckResult.itemId c) id); [reflexivity | exact IH].
Qed.

Lemma valueStr_without_photos (item : CheckItem) (r : DayRecord) :
  Excel.valueStr item (Report.without_photos r) = Excel.valueStr item r.
Proof.
  unfold Excel.valueStr, Report.without_photos. simpl. rewrite find_check_without_photo.
  now destruct (Progress.find_check (CheckItem.id item) (DayRecord.checks r)).
Qed.

Lemma row_of_without_photos (f : string -> string) (config : list CheckItem) (r : DayRecord) :
  Excel.row_of f config (Report.without_photos r) = Excel.row_of f config r.
Proof.
  unfold Excel.row_of.
  change (Excel.fixed_cells f (Report.without_photos r)) with (Excel.fixed_cells f r).
  generalize (Excel.fixed_cells f r). induction config as [|j config IH]; intros row;
    [reflexivity |].
  simpl. unfold Excel.set_cell at 2 4. rewrite valueStr_without_photos. apply IH.
Qed.

(** X12. The tabular export never reads a photo: the rows built from a
    record map are those built from the same records with every photo
    removed. *)
Theorem export_ignores_photos (f : string -> string) (records : list (string * DayRecord))
    (config : list CheckItem) :
  Excel.rows f (map (fun kr => (fst kr, Report.without_photos (snd kr))) records) config
  = Excel.rows f records config.
Proof.
  unfold Excel.rows. rewrite map_map. simpl.
  rewrite <- (map_map snd Report.without_photos).
  rewrite (sort_by_map Report.without_photos Excel.by_date_desc Excel.by_date_desc)
    by reflexivity.
  rewrite map_map. apply map_ext. intros r. apply row_of_without_photos.
Qed.

End ReportFacts.

(** * The persisted text *)

Module StorageFacts.
Import JSFacts App.

(** ** Numbers before a closing token *)

Lemma closes_inert (rest : string) :
  Storage.closes rest = true ->
  take_digits rest = (Decimal.Nil, rest) /\
  lex_frac rest = Some (EmptyString, rest) /\
  lex_exp rest = Some (EmptyString, rest).
Proof.
  destruct rest as [|c rest]; [now repeat split |]. simpl. intros H.
  apply orb_true_iff in H as [H | H]; [apply orb_true_iff in H as [H | H] |];
    apply Ascii.eqb_eq in H; subst c; now repeat split.
Qed.

Lemma number_pos_closes (u : Decimal.uint) (rest : string) :
  u <> Decimal.Nil -> int_ok u = true -> Storage.closes rest = true ->
  parse_number (NilEmpty.string_of_uint u +:+ rest)
  = Some (VNum (Z.of_int (Decimal.Pos u)), rest).
Proof.
  intros Hu Hok Hd. apply closes_inert in Hd as (Hd & Hf & He).
  destruct (string_of_uint_head u Hu) as (c & t & E & Hc).
  unfold parse_number. rewrite E. simpl.
  assert (Ascii.eqb c "-" = false) as ->.
  { apply Ascii.eqb_neq. intros ->. now apply Hc. }
  change (String c (t +:+ rest)) with (String c t +:+ rest). rewrite <- E.
  rewrite take_digits_uint by exact Hd. now rewrite Hok, Hf, He.
Qed.

Lemma number_neg_closes (u : Decimal.uint) (rest : string) :
  int_ok u = true -> Storage.closes rest = true ->
  parse_number (String "-" (NilEmpty.string_of_uint u) +:+ rest)
  = Some (VNum (Z.of_int (Decimal.Neg u)), rest).
Proof.
  intros Hok Hd. apply closes_inert in Hd as (Hd & Hf & He).
  unfold parse_number. simpl.
  rewrite take_digits_uint by exact Hd. now rewrite Hok, Hf, He.
Qed.

Lemma number_Z_closes (n : Z) (rest : string) :
  Storage.closes rest = true ->
  parse_number (string_of_Z n +:+ rest) = Some (VNum n, rest).
Proof.
  intros Hd. unfold string_of_Z. rewrite <- (DecimalZ.of_to n) at 2.
  destruct n as [|p|p]; simpl Z.to_int; cbv iota.
  - now apply number_pos_closes.
  - apply number_pos_closes;
      [apply DecimalPos.Unsigned.to_uint_nonnil | apply int_ok_pos | exact Hd].
  - apply number_neg_closes; [apply int_ok_pos | exact Hd].
Qed.

Lemma digits_closes (body rest : string) :
  Storage.closes rest = true ->
  take_digits (body +:+ rest)
  = (fst (take_digits body), snd (take_digits body) +:+ rest).
Proof.
  intros Hd. induction body as [|c b IH]; simpl.
  - now rewrite (proj1 (closes_inert rest Hd)).
  - destruct (digit_of c); [| reflexivity].
    rewrite IH. now destruct (take_digits b).
Qed.

Lemma frac_closes (s rest fr r1 : string) :
  Storage.closes rest = true -> lex_frac s = Some (fr, r1) ->
  lex_frac (s +:+ rest) = Some (fr, r1 +:+ rest).
Proof.
  intros Hd. destruct s as [|c s]; simpl.
  - intros H. injection H as <- <-. apply (closes_inert rest Hd).
  - destruct (Ascii.eqb c ".").
    + rewrite (digits_closes s rest Hd). destruct (take_digits s) as [u r]. simpl.
      destruct u; intros H; try discriminate; now injection H as <- <-.
    + intros H. now injection H as <- <-.
Qed.

Lemma exp_closes (s rest ex r2 : string) :
  Storage.closes rest = true -> lex_exp s = Some (ex, r2) ->
  lex_exp (s +:+ rest) = Some (ex, r2 +:+ rest).
Proof.
  intros Hd. destruct s as [|c s]; simpl.
  - intros H. injection H as <- <-. apply (closes_inert rest Hd).
  - destruct (Ascii.eqb c "e" || Ascii.eqb c "E"); [| intros H; now injection H as <- <-].
    destruct s as [|d s']; simpl.
    + discriminate.
    + destruct (Ascii.eqb d "+" || Ascii.eqb d "-").
      * rewrite (digits_closes s' rest Hd). destruct (take_digits s') as [u r]. simpl.
        destruct u; intros H; try discriminate; now injection H as <- <-.
      * change (String d (s' +:+ rest)) with (String d s' +:+ rest).
        rewrite (digits_closes (String d s') rest Hd).
        destruct (take_digits (String d s')) as [u r]. simpl.
        destruct u; intros H; try discriminate; now injection H as <- <-.
Qed.

(** A number token is read the same before a closing token. *)
Lemma number_closes (s rest : string) (v : JS.value) :
  Storage.closes rest = true -> parse_number s = Some (v, EmptyString) ->
  parse_number (s +:+ rest) = Some (v, rest).
Proof.
  intros Hd. unfold parse_number.
  assert (exists neg body,
             match s with
             | String c r => if Ascii.eqb c "-" then (true, r) else (false, s)
             | EmptyString => (false, s)
             end = (neg, body) /\
             match s +:+ rest with
             | String c r => if Ascii.eqb c "-" then (true, r) else (false, s +:+ rest)
             | EmptyString => (false, s +:+ rest)
             end = (neg, body +:+ rest) \/ s = EmptyString) as (neg & body & [[-> ->] | ->]).
  { destruct s as [|c r]; [exists false, EmptyString; now right |].
    simpl. destruct (Ascii.eqb c "-"); eexists _, _; left; split; reflexivity. }
  - rewrite (digits_closes body rest Hd). destruct (take_digits body) as [u r0]. simpl.
    destruct (int_ok u); [| discriminate].
    destruct (lex_frac r0) as [[fr r1]|] eqn:Ef; [| discriminate].
    rewrite (frac_closes r0 rest fr r1 Hd Ef).
    destruct (lex_exp r1) as [[ex r2]|] eqn:Ee; [| discriminate].
    rewrite (exp_closes r1 rest ex r2 Hd Ee).
    destruct fr, ex; intros H; injection H as <- ->; reflexivity.
  - discriminate.
Qed.

(** ** Shape of the text *)

Lemma compact_ser_none (v : value) : Storage.ser v = None <-> is_undefined v = true.
Proof. destruct v as [| |[]| | | | |]; simpl; split; intros H; congruence. Qed.

Lemma compact_ser_defined (v : value) :
  is_undefined v = false -> exists t, Storage.ser v = Some t.
Proof.
  intros H. destruct (Storage.ser v) eqn:E; [eauto |].
  apply compact_ser_none in E. congruence.
Qed.

Lemma compact_ser_members_head (prop : value -> option string) (first : bool)
    (l : list (string * value)) :
  exists c t, Storage.ser_members prop first l = String c t /\
              is_ws c = false /\ Ascii.eqb c "]" = false /\
              (first = false -> Storage.closes (String c t) = true).
Proof.
  revert first. induction l as [|[k x] r IH]; intros first; simpl.
  - destruct first; eexists _, _; repeat split; try reflexivity. discriminate.
  - destruct (prop x); [| apply IH].
    destruct first; eexists _, _; repeat split; try reflexivity. discriminate.
Qed.

Lemma compact_ser_start (v : value) (t : string) :
  wf v -> Storage.ser v = Some t ->
  exists c t', t = String c t' /\ is_ws c = false /\ Ascii.eqb c "]" = false.
Proof.
  destruct v as [| |[]|n|d|s|l|l]; simpl; intros Hwf H; try discriminate;
    injection H as <-; try (eexists _, _; repeat split; reflexivity).
  - destruct (string_of_Z_head n) as (c & t & E & Hc).
    exists c, t. split; [exact E | now apply digit_not_ws].
  - destruct (parse_number_head d _ Hwf) as (c & t & E & Hc).
    exists c, t. split; [exact E | now apply digit_not_ws].
  - destruct l; eexists _, _; repeat split; reflexivity.
  - destruct (compact_ser_members_head Storage.ser true l) as (c & t & E & Hws & Hc & _).
    now exists c, t.
Qed.

Lemma compact_or_null_start (v : value) :
  wf v ->
  exists c t', JS.or_null (Storage.ser v) = String c t' /\
               is_ws c = false /\ Ascii.eqb c "]" = false.
Proof.
  intros Hwf. destruct (Storage.ser v) as [t|] eqn:E; simpl.
  - now apply (compact_ser_start v).
  - eexists _, _; repeat split; reflexivity.
Qed.

Lemma ser_rest_closes (elem : value -> string) (l : list value) (rest : string) :
  Storage.closes (Storage.ser_rest elem l +:+ rest) = true.
Proof. destruct l; reflexivity. Qed.

Lemma ser_members_closes (prop : value -> option string) (l : list (string * value))
    (rest : string) :
  Storage.closes (Storage.ser_members prop false l +:+ rest) = true.
Proof.
  destruct (compact_ser_members_head prop false l) as (c & t & E & _ & _ & H).
  rewrite E. specialize (H eq_refl). simpl in H |- *. exact H.
Qed.

(** ** Parsing the text of a value *)

Lemma compact_reparses_elem (x : value) (fuel : nat) (rest : string) :
  Storage.reparses x -> Storage.closes rest = true -> size x <= fuel ->
  parse_value fuel (JS.or_null (Storage.ser x) +:+ rest)
  = Some (null_if_undefined (normalise x), rest).
Proof.
  intros IH Hd Hf. destruct (is_undefined x) eqn:Eu.
  - destruct x; try discriminate. simpl. destruct fuel; [simpl in Hf; lia | reflexivity].
  - destruct (compact_ser_defined x Eu) as [t Et]. rewrite Et. simpl JS.or_null.
    rewrite normalise_undefined by exact Eu. now apply IH.
Qed.

Lemma compact_parse_elems_ser (l : list value) :
  Forall Storage.reparses l ->
  forall (x : value) (fuel : nat) (rest : string),
    Storage.reparses x -> sum_elems size (x :: l) <= fuel ->
    parse_elems fuel
      (JS.or_null (Storage.ser x) +:+
       Storage.ser_rest (fun y => JS.or_null (Storage.ser y)) l +:+ rest)
    = Some (map (fun y => null_if_undefined (normalise y)) (x :: l), rest).
Proof.
  intros Hl. induction Hl as [|y l Hy Hl IH]; intros x fuel rest Hx Hf.
  - destruct fuel as [|fuel]; [simpl in Hf; lia |]. simpl in Hf.
    rewrite parse_elems_eq.
    rewrite compact_reparses_elem; [| exact Hx | apply ser_rest_closes | lia].
    reflexivity.
  - destruct fuel as [|fuel]; [simpl in Hf; lia |]. simpl in Hf.
    rewrite parse_elems_eq.
    rewrite compact_reparses_elem; [| exact Hx | apply ser_rest_closes | lia].
    cbn [Storage.ser_rest]. rewrite !append_assoc. cbn [String.append].
    rewrite next_token by reflexivity.
    change (Ascii.eqb "," ",") with true. cbv iota.
    rewrite (IH y fuel rest Hy); [reflexivity | simpl; lia].
Qed.

Lemma compact_ser_members_all_undefined (norm : value -> value) (first : bool)
    (l : list (string * value)) :
  norm_members norm l = [] ->
  Storage.ser_members Storage.ser first l = if first then "{}" else "}".
Proof.
  induction l as [|[k x] r IH]; simpl; intros H; [reflexivity |].
  destruct (is_undefined x) eqn:Eu; [| discriminate].
  rewrite (proj2 (compact_ser_none x) Eu). now apply IH.
Qed.

Lemma compact_parse_members_ser (l : list (string * value)) :
  Forall (fun kv => Storage.reparses (snd kv)) l ->
  forall (fuel : nat) (rest : string),
    norm_members normalise l <> [] -> sum_members size l <= fuel ->
    exists T,
      (forall first, Storage.ser_members Storage.ser first l
                     = (if first then "{" else ",") +:+ T) /\
      parse_members fuel (T +:+ rest) = Some (norm_members normalise l, rest).
Proof.
  intros Hl. induction Hl as [|[k x] r Hx Hr IH]; intros fuel rest Hne Hf;
    [now contradiction Hne |].
  simpl in Hx, Hne, Hf |- *. destruct (is_undefined x) eqn:Eu.
  - destruct (IH fuel rest Hne Hf) as (T & HT & HP). exists T. split; [| exact HP].
    intros first. rewrite (proj2 (compact_ser_none x) Eu). apply HT.
  - destruct (compact_ser_defined x Eu) as [t Et].
    destruct fuel as [|fuel]; [lia |].
    exists (quote k +:+ ":" +:+ t +:+ Storage.ser_members Storage.ser false r).
    split; [intros first; now rewrite Et |].
    rewrite parse_members_eq, !append_assoc.
    destruct (parse_chars_quote k
                (":" +:+ t +:+ Storage.ser_members Storage.ser false r +:+ rest))
      as (body & Eq & Hb).
    rewrite Eq, next_token by reflexivity.
    change (Ascii.eqb dquote dquote) with true. cbv iota. rewrite Hb.
    cbn [String.append]. rewrite next_token by reflexivity.
    change (Ascii.eqb ":" ":") with true. cbv iota.
    rewrite (Hx fuel _ t (ser_members_closes _ _ _) Et) by lia.
    destruct (norm_members normalise r) as [|m ms] eqn:En.
    + rewrite (compact_ser_members_all_undefined normalise false r En).
      reflexivity.
    + destruct (IH fuel rest) as (T' & HT' & HP'); [discriminate | lia |].
      rewrite (HT' false). cbn [String.append].
      rewrite next_token by reflexivity.
      change (Ascii.eqb "," ",") with true. cbv iota. now rewrite HP'.
Qed.

(** Every well-formed value parses back from its text. *)
Lemma compact_parse_ser (v : value) : wf v -> Storage.reparses v.
Proof.
  induction v as [| |b|n|d|s|l IH|l IH] using value_ind;
    intros Hwf fuel rest t Hd Hs Hf;
    simpl in Hs; try discriminate;
    (destruct fuel as [|fuel]; [simpl in Hf; lia |]).
  - injection Hs as <-. reflexivity.
  - destruct b; injection Hs as <-; reflexivity.
  - injection Hs as <-.
    destruct (string_of_Z_head n) as (c & t & E & Hc). rewrite E.
    cbn [String.append]. rewrite digit_dispatch by exact Hc.
    change (String c (t +:+ rest)) with (String c t +:+ rest). rewrite <- E.
    now apply number_Z_closes.
  - injection Hs as <-. simpl in Hwf.
    destruct (parse_number_head d _ Hwf) as (c & t & E & Hc). rewrite E.
    cbn [String.append]. rewrite digit_dispatch by exact Hc.
    change (String c (t +:+ rest)) with (String c t +:+ rest). rewrite <- E.
    now apply number_closes.
  - injection Hs as <-.
    destruct (parse_chars_quote s rest) as (body & Eq & Hb).
    rewrite Eq, parse_value_eq, next_token by reflexivity.
    change (Ascii.eqb dquote "[") with false. change (Ascii.eqb dquote "{") with false.
    change (Ascii.eqb dquote dquote) with true. cbv iota. now rewrite Hb.
  - apply wf_arr in Hwf.
    assert (Forall Storage.reparses l) as Hl.
    { clear -IH Hwf. induction IH as [|x r Hx Hr IHr]; [constructor |].
      apply Forall_cons_iff in Hwf as [Hwx Hwr]. constructor; auto. }
    destruct l as [|x r]; injection Hs as <-; [reflexivity |].
    apply Forall_cons_iff in Hl as [Hx Hr].
    rewrite parse_value_eq. cbn [String.append]. rewrite ?append_assoc.
    rewrite next_token by reflexivity.
    change (Ascii.eqb "[" "[") with true. cbv iota.
    destruct (compact_or_null_start x (proj1 (proj1 (Forall_cons_iff _ _ _) Hwf)))
      as (c & t' & E & Hws & Hc).
    assert (forall R, next (JS.or_null (Storage.ser x) +:+ R) = Some (c, t' +:+ R)) as ->.
    { intros R. rewrite E. cbn [String.append]. now apply next_token. }
    rewrite Hc. cbv zeta.
    rewrite (compact_parse_elems_ser r Hr x fuel rest Hx); [reflexivity | simpl in Hf |- *; lia].
  - apply wf_obj in Hwf as [Hnd Hwf].
    assert (Forall (fun kv => Storage.reparses (snd kv)) l) as Hl.
    { clear -IH Hwf. induction IH as [|x r Hx Hr IHr]; [constructor |].
      apply Forall_cons_iff in Hwf as [Hwx Hwr]. constructor; auto. }
    cbn [normalise]. injection Hs as <-.
    destruct (norm_members normalise l) as [|m ms] eqn:En.
    + rewrite (compact_ser_members_all_undefined normalise true l En). reflexivity.
    + destruct (compact_parse_members_ser l Hl fuel rest)
        as (T & HT & HP); [rewrite En; discriminate | simpl in Hf; lia |].
      rewrite (HT true).
      rewrite parse_value_eq. cbn [String.append].
      rewrite next_token by reflexivity.
      change (Ascii.eqb "{" "[") with false. change (Ascii.eqb "{" "{") with true.
      cbv iota.
      destruct (parse_members_start _ _ _ HP) as [r' ->].
      change (Ascii.eqb dquote "}") with false. cbv iota zeta.
      rewrite HP, En.
      rewrite obj_of_members_nodup; [reflexivity |].
      rewrite <- En. now apply norm_members_nodup.
Qed.

(** ** Fuel *)

Lemma compact_sum_elems_le (elem : value -> string) (l : list value) :
  Forall (fun x => size x <= String.length (elem x)) l ->
  sum_elems size l < String.length (Storage.ser_rest elem l).
Proof.
  induction 1 as [|x r Hx Hr IH]; simpl; [lia |].
  rewrite !length_append. lia.
Qed.

Lemma compact_sum_members_le (l : list (string * value)) :
  Forall (fun kv => forall t, Storage.ser (snd kv) = Some t ->
                              size (snd kv) <= String.length t) l ->
  forall first,
    sum_members size l < String.length (Storage.ser_members Storage.ser first l).
Proof.
  intros Hl. induction Hl as [|[k x] r Hx Hr IH]; intros first; simpl.
  - destruct first; simpl; lia.
  - destruct (is_undefined x) eqn:Eu.
    + rewrite (proj2 (compact_ser_none x) Eu). apply IH.
    + destruct (compact_ser_defined x Eu) as [t Et]. rewrite Et.
      specialize (Hx t Et). simpl in Hx. specialize (IH false).
      destruct first; repeat (progress (rewrite ?length_append; simpl)); lia.
Qed.

Lemma compact_size_le_length (v : value) :
  wf v -> forall (t : string), Storage.ser v = Some t -> size v <= String.length t.
Proof.
  induction v as [| |b|n|d|s|l IH|l IH] using value_ind; intros Hwf t Hs; simpl in Hs;
    try discriminate.
  - injection Hs as <-. simpl. lia.
  - destruct b; injection Hs as <-; simpl; lia.
  - injection Hs as <-. destruct (string_of_Z_head n) as (c & t & -> & _). simpl. lia.
  - injection Hs as <-. destruct (parse_number_head d _ Hwf) as (c & t & -> & _). simpl. lia.
  - injection Hs as <-. simpl. lia.
  - apply wf_arr in Hwf.
    assert (Forall (fun x => size x <= String.length (JS.or_null (Storage.ser x))) l) as Hl.
    { clear Hs. induction IH as [|x r Hx Hr IHr]; [constructor |].
      apply Forall_cons_iff in Hwf as [Hwx Hwr]. constructor; [| now apply IHr].
      destruct (Storage.ser x) as [t'|] eqn:E; [now apply (Hx Hwx) |].
      apply compact_ser_none in E. destruct x; try discriminate. simpl. lia. }
    destruct l as [|x r]; injection Hs as <-; [simpl; lia |].
    apply Forall_cons_iff in Hl as [Hx Hr].
    pose proof (compact_sum_elems_le _ r Hr) as Hsum.
    simpl. rewrite !length_append. simpl in Hsum |- *. lia.
  - injection Hs as <-. apply wf_obj in Hwf as [_ Hwf].
    assert (Forall (fun kv => forall t, Storage.ser (snd kv) = Some t ->
                                size (snd kv) <= String.length t) l) as Hl.
    { induction IH as [|[k x] r Hx Hr IHr]; [constructor |].
      apply Forall_cons_iff in Hwf as [Hwx Hwr]. constructor; [| now apply IHr].
      intros t' Et. now apply (Hx Hwx). }
    pose proof (compact_sum_members_le l Hl true) as H. simpl size. lia.
Qed.

(** [JSON.parse(JSON.stringify(v))] is [normalise v]. *)
Lemma compact_parse_stringify (v : value) (t : string) :
  wf v -> Storage.stringify v = Some t -> parse t = Some (normalise v).
Proof.
  intros Hwf Hs. unfold Storage.stringify in Hs. unfold parse.
  pose proof (compact_size_le_length v Hwf t Hs) as Hsize.
  pose proof (compact_parse_ser v Hwf (2 * String.length t + 2) EmptyString t eq_refl Hs) as H.
  rewrite append_empty_r in H. rewrite H by lia. reflexivity.
Qed.

End StorageFacts.

(** * Saving and loading again *)

Module PersistFacts.
Import JSFacts App.

#[local] Arguments clearTimeout : simpl never.
#[local] Arguments Storage.write : simpl never.

Lemma truthy_normalise (v : JS.value) : truthy (normalise v) = truthy v.
Proof. now destruct v. Qed.

Lemma truthy_defined (v : JS.value) : truthy v = true -> is_undefined v = false.
Proof. now destruct v. Qed.

(** The object [{ config, records }] through the text and back. *)
Lemma snapshot_normalise (c r : JS.value) :
  truthy c = true -> truthy r = true ->
  normalise (snapshot c r) = snapshot (normalise c) (normalise r).
Proof.
  intros Hc Hr. unfold snapshot. cbn [normalise norm_members].
  now rewrite (truthy_defined c Hc), (truthy_defined r Hr).
Qed.

Lemma stored_text_parses (c r : JS.value) :
  JS.wf (snapshot c r) -> truthy c = true -> truthy r = true ->
  JS.parse (Storage.stored_text c r) = Some (snapshot (normalise c) (normalise r)) /\
  Storage.stored_text c r <> EmptyString.
Proof.
  intros Hwf Hc Hr. unfold Storage.stored_text.
  destruct (Storage.stringify (snapshot c r)) as [t|] eqn:Et; [| discriminate].
  simpl text_of. split.
  - rewrite (StorageFacts.compact_parse_stringify _ _ Hwf Et). now rewrite snapshot_normalise.
  - destruct (StorageFacts.compact_ser_start _ _ Hwf Et) as (ch & t' & -> & _). discriminate.
Qed.

(** Loading a store that holds the text of a state adopts the state. *)
Lemma load_stored_text (c r : JS.value) (store : list (string * string)) (s : state) :
  JS.wf (snapshot c r) -> truthy c = true -> truthy r = true ->
  getItem STORAGE_KEY store = Some (Storage.stored_text c r) ->
  load store s = (mk (normalise c) (normalise r) false (toast s), false).
Proof.
  intros Hwf Hc Hr Hget. destruct (stored_text_parses c r Hwf Hc Hr) as [Hp Hne].
  unfold load, load_try. rewrite Hget.
  destruct (String.eqb_spec (Storage.stored_text c r) EmptyString) as [E | _]; [congruence |].
  rewrite Hp. unfold snapshot. simpl. rewrite !truthy_normalise, Hc, Hr. reflexivity.
Qed.

Section save.
Variable quota : string -> bool.

Lemma stored_write_calls (tm : timer) (w : world) :
  setItem_calls (Storage.write quota tm w)
  = (setItem_calls w ++ [Storage.stored_text (t_config tm) (t_records tm)])%list /\
  timers (Storage.write quota tm w) = timers w /\
  cleanup (Storage.write quota tm w) = cleanup w /\
  now (Storage.write quota tm w) = now w /\
  isLoading (app (Storage.write quota tm w)) = isLoading (app w) /\
  config (app (Storage.write quota tm w)) = config (app w) /\
  records (app (Storage.write quota tm w)) = records (app w).
Proof. unfold Storage.write. cbn. destruct (quota _); now repeat split. Qed.

Lemma write_accepted (tm : timer) (w : world) :
  quota (Storage.stored_text (t_config tm) (t_records tm)) = true ->
  getItem STORAGE_KEY (localStorage (Storage.write quota tm w))
  = Some (Storage.stored_text (t_config tm) (t_records tm)) /\
  app (Storage.write quota tm w) = app w.
Proof.
  unfold Storage.write, getItem. cbn. intros ->. cbn.
  split; [apply ExcelFacts.assoc_obj_set_eq | reflexivity].
Qed.

Lemma write_rejected (tm : timer) (w : world) :
  quota (Storage.stored_text (t_config tm) (t_records tm)) = false ->
  localStorage (Storage.write quota tm w) = localStorage w /\
  toast (app (Storage.write quota tm w))
  = Some ("保存容量が不足しています。古いデータを削除してください。", error).
Proof. unfold Storage.write. cbn. intros ->. now split. Qed.

(** A change on a settled world: the new state, and its timeout as the
    only one pending. *)
Lemma change_facts (c r : JS.value) (w : world) :
  settled w -> isLoading (app w) = false ->
  pending c r (change c r w) /\
  now (change c r w) = now w /\
  setItem_calls (change c r w) = setItem_calls w /\
  localStorage (change c r w) = localStorage w /\
  app (change c r w) = setRecords r (setConfig c (app w)).
Proof.
  unfold settled, pending, change, run_effect.
  destruct w as [n a ts nid cl ls calls]. simpl. intros Hs Hl. rewrite Hl. simpl.
  assert (match cl with Some id => clearTimeout id ts | None => ts end = []) as ->.
  { destruct ts as [|tm [|tm' ts]]; [now destruct cl | | contradiction].
    rewrite Hs. apply SaveFacts.clearTimeout_own. }
  repeat split. now exists nid.
Qed.

(** Before its timeout is due nothing is written. *)
Lemma stored_advance_early (c r : JS.value) (t : nat) (w : world) :
  pending c r w -> t < now w + 500 ->
  setItem_calls (Storage.advance quota t w) = setItem_calls w /\
  localStorage (Storage.advance quota t w) = localStorage w.
Proof.
  unfold pending, Storage.advance. destruct w as [n a ts nid cl ls calls]. simpl.
  intros (id & -> & ->) Hlt. simpl.
  assert ((n + 500 <=? t)%nat = false) as -> by (apply Nat.leb_gt; lia).
  now split.
Qed.

(** Once the delay has passed the pending state is written, once. *)
Lemma stored_advance_due (c r : JS.value) (T : nat) (w : world) :
  pending c r w -> now w + 500 <= T ->
  setItem_calls (Storage.advance quota T w)
  = (setItem_calls w ++ [Storage.stored_text c r])%list /\
  timers (Storage.advance quota T w) = [] /\
  now (Storage.advance quota T w) = T /\
  isLoading (app (Storage.advance quota T w)) = isLoading (app w) /\
  config (app (Storage.advance quota T w)) = config (app w) /\
  records (app (Storage.advance quota T w)) = records (app w) /\
  (quota (Storage.stored_text c r) = true ->
   getItem STORAGE_KEY (localStorage (Storage.advance quota T w))
   = Some (Storage.stored_text c r) /\
   app (Storage.advance quota T w) = app w) /\
  (quota (Storage.stored_text c r) = false ->
   localStorage (Storage.advance quota T w) = localStorage w /\
   toast (app (Storage.advance quota T w))
   = Some ("保存容量が不足しています。古いデータを削除してください。", error)).
Proof.
  unfold pending, Storage.advance. destruct w as [n a ts nid cl ls calls]. simpl.
  intros (id & -> & ->) Hle. simpl.
  assert ((n + 500 <=? T)%nat = true) as -> by (apply Nat.leb_le; lia).
  rewrite SaveFacts.clearTimeout_mk.
  destruct (stored_write_calls (mk_timer id (n + 500) c r) (mk_world n a [] nid (Some id) ls calls))
    as (Hc & Ht & _ & Hn & Hl & Hcf & Hrc).
  simpl in Hc, Ht, Hn, Hl, Hcf, Hrc. rewrite Hc, Ht, Hn, Hl, Hcf, Hrc.
  repeat split; try lia.
  - now apply (write_accepted (mk_timer id (n + 500) c r)).
  - now apply (write_accepted (mk_timer id (n + 500) c r)).
  - now apply (write_rejected (mk_timer id (n + 500) c r)).
  - now apply (write_rejected (mk_timer id (n + 500) c r)).
Qed.

(** X13. A state that stays for 500 ms is written, and a page opened on
    that store gets it back: the text stored is the one of
    [{ config, records }], written once, and loading it replaces the
    configuration and the record map by what [JSON.parse] reads from that
    text, which holds the same application state. *)
Theorem saved_state_loads_back (w : world) (c r : JS.value) (T : nat) (s0 : state) :
  settled w -> isLoading (app w) = false ->
  JS.wf (snapshot c r) -> truthy c = true -> truthy r = true ->
  quota (Storage.stored_text c r) = true -> now w + 500 <= T ->
  setItem_calls (Storage.advance quota T (change c r w))
  = (setItem_calls w ++ [Storage.stored_text c r])%list /\
  load (localStorage (Storage.advance quota T (change c r w))) s0
  = (mk (normalise c) (normalise r) false (toast s0), false) /\
  (forall st, Codec.state_of_value (snapshot c r) = Some st ->
              Codec.state_of_value (snapshot (normalise c) (normalise r)) = Some st).
Proof.
  intros Hset Hl Hwf Hc Hr Hq HT.
  destruct (change_facts c r w Hset Hl) as (Hp & Hn & Hs & _ & _).
  destruct (stored_advance_due c r T (change c r w) Hp) as (H1 & _ & _ & _ & _ & _ & H2 & _);
    [lia |].
  split; [now rewrite H1, Hs |]. split.
  - apply load_stored_text; try assumption. now apply H2.
  - intros st Hst. rewrite <- snapshot_normalise by assumption.
    now apply CodecFacts.state_normalise.
Qed.

(** X14. When the store rejects the value, the write that runs 500 ms
    after the change leaves the store as it was and shows the error toast
    about the storage capacity; the configuration and the records in memory
    are still those of the change. *)
Theorem rejected_save_keeps_store (w : world) (c r : JS.value) :
  settled w -> isLoading (app w) = false ->
  quota (Storage.stored_text c r) = false ->
  localStorage (Storage.advance quota (now w + 500) (change c r w)) = localStorage w /\
  toast (app (Storage.advance quota (now w + 500) (change c r w)))
  = Some ("保存容量が不足しています。古いデータを削除してください。", error) /\
  config (app (Storage.advance quota (now w + 500) (change c r w))) = c /\
  records (app (Storage.advance quota (now w + 500) (change c r w))) = r /\
  setItem_calls (Storage.advance quota (now w + 500) (change c r w))
  = (setItem_calls w ++ [Storage.stored_text c r])%list.
Proof.
  intros Hset Hl Hq.
  destruct (change_facts c r w Hset Hl) as (Hp & Hn & Hs & Hls & Happ).
  destruct (stored_advance_due c r (now w + 500) (change c r w) Hp)
    as (H1 & _ & _ & _ & Hcf & Hrc & _ & H2); [lia |].
  destruct (H2 Hq) as [H3 H4]. rewrite H3, H4, Hcf, Hrc, H1, Hs, Hls, Happ.
  now repeat split.
Qed.

Lemma run_spaced (rest : list (nat * (JS.value * JS.value))) :
  forall (w : world) (c r : JS.value) (T : nat),
    pending c r w -> isLoading (app w) = false ->
    Storage.spaced (now w) rest ->
    fst (List.last rest (now w, (c, r))) + 500 <= T ->
    setItem_calls (Storage.advance quota T (Storage.run quota rest w))
    = (setItem_calls w ++ Storage.stored_text c r
         :: map (fun x => Storage.stored_text (fst (snd x)) (snd (snd x))) rest)%list.
Proof.
  induction rest as [|[t' [c' r']] rest IH]; intros w c r T Hp Hl Hw HT.
  - simpl in *. now apply stored_advance_due.
  - destruct Hw as [Hle Hw]. rewrite SaveFacts.last_cons in HT.
    destruct (stored_advance_due c r t' w Hp Hle) as (Hs & Ht & Hn & Hl' & _).
    assert (settled (Storage.advance quota t' w)) as Hset
      by (unfold settled; now rewrite Ht).
    rewrite Hl in Hl'.
    destruct (change_facts c' r' (Storage.advance quota t' w) Hset Hl')
      as (Hp' & Hn' & Hs' & _ & Happ).
    assert (isLoading (app (change c' r' (Storage.advance quota t' w))) = false) as Hl''
      by (rewrite Happ; exact Hl').
    rewrite Hn in Hn'. cbn [Storage.run map].
    rewrite (IH _ c' r' T Hp' Hl''); rewrite ?Hn'; [| exact Hw | exact HT].
    rewrite Hs', Hs, <- app_assoc. reflexivity.
Qed.

(** X15. State changes that each come at least 500 ms after the one
    before are all written, each once and in order: the debounce drops no
    state that stayed for the delay. *)
Theorem spaced_changes_all_written (w : world) (t : nat) (c r : JS.value)
    (rest : list (nat * (JS.value * JS.value))) (T : nat) :
  settled w -> isLoading (app w) = false -> now w <= t ->
  Storage.spaced t rest ->
  fst (List.last rest (t, (c, r))) + 500 <= T ->
  setItem_calls (Storage.advance quota T (Storage.run quota ((t, (c, r)) :: rest) w))
  = (setItem_calls (Storage.advance quota t w)
     ++ map (fun x => Storage.stored_text (fst (snd x)) (snd (snd x)))
          ((t, (c, r)) :: rest))%list.
Proof.
  intros Hset Hl Hle Hw HT.
  assert (settled (Storage.advance quota t w) /\
          isLoading (app (Storage.advance quota t w)) = false /\
          now (Storage.advance quota t w) = t) as (Hset' & Hl' & Hn).
  { unfold settled, Storage.advance in *. destruct w as [n a ts nid cl ls calls].
    simpl in *. destruct ts as [|tm [|tm' ts]]; simpl; [repeat split; [exact Hl | lia] | | tauto].
    destruct (due tm <=? t)%nat; simpl; [| repeat split; [exact Hset | exact Hl | lia]].
    rewrite SaveFacts.clearTimeout_own.
    destruct (stored_write_calls tm (mk_world n a [] nid cl ls calls)) as (_ & Ht & _ & Hn & Hl2 & _).
    simpl in Ht, Hn, Hl2. rewrite Ht, Hn, Hl2. repeat split; [exact Hl | lia]. }
  destruct (change_facts c r (Storage.advance quota t w) Hset' Hl')
    as (Hp & Hn' & Hs & _ & Happ).
  assert (isLoading (app (change c r (Storage.advance quota t w))) = false) as Hl''
    by (rewrite Happ; exact Hl').
  rewrite Hn in Hn'. cbn [Storage.run map].
  rewrite (run_spaced rest _ c r T Hp Hl''); rewrite ?Hn'; [| exact Hw | exact HT].
  now rewrite Hs.
Qed.

(** X16. Opening the page: nothing is written while loading and for
    500 ms after it; then the state that [load] produced is written, once.
    So a store without a value, or with a value that cannot be read, holds
    the text of the default state half a second after the page opens. *)
Theorem startup_writes_loaded_state (store : list (string * string)) (t T : nat) :
  t + 500 <= T ->
  setItem_calls (Storage.advance quota T (Storage.mount (Storage.opened t store)))
  = [Storage.stored_text (config (fst (load store initial)))
       (records (fst (load store initial)))] /\
  (forall t', t' < t + 500 ->
     setItem_calls (Storage.advance quota t' (Storage.mount (Storage.opened t store))) = [] /\
     localStorage (Storage.advance quota t' (Storage.mount (Storage.opened t store))) = store) /\
  (quota (Storage.stored_text (config (fst (load store initial)))
            (records (fst (load store initial)))) = true ->
   getItem STORAGE_KEY
     (localStorage (Storage.advance quota T (Storage.mount (Storage.opened t store))))
   = Some (Storage.stored_text (config (fst (load store initial)))
             (records (fst (load store initial))))).
Proof.
  intros HT.
  assert (pending (config (fst (load store initial))) (records (fst (load store initial)))
            (Storage.mount (Storage.opened t store)) /\
          now (Storage.mount (Storage.opened t store)) = t /\
          setItem_calls (Storage.mount (Storage.opened t store)) = [] /\
          localStorage (Storage.mount (Storage.opened t store)) = store)
    as (Hp & Hn & Hs & Hls).
  { unfold Storage.mount, Storage.opened, run_effect, pending. simpl.
    unfold load. destruct (load_try (getItem STORAGE_KEY store) initial) as [s o]. simpl.
    repeat split. now exists 0. }
  destruct (stored_advance_due _ _ T _ Hp) as (H1 & _ & _ & _ & _ & _ & H2 & _); [lia |].
  split; [now rewrite H1, Hs |]. split.
  - intros t' Ht'. destruct (stored_advance_early _ _ t' _ Hp) as [H3 H4]; [lia |].
    now rewrite H3, H4, Hs, Hls.
  - intros Hq. now apply H2.
Qed.

End save.

Lemma saved_state_loads_back_witness :
  load
    (localStorage
       (Storage.advance (fun _ => true) 1500
          (change (Codec.config_to_value DEFAULT_CHECKLIST)
             (VObj [("2024-05-01",
                     Codec.day_to_value
                       (DayRecord.mk "2024-05-01"
                          [DailyCheckResult.mk "c1" (Some YES) None (Some EmptyString) None]
                          (HealthRecord.mk "36.5" nashi nashi None) "t1"))])
             (mk_world 1000 (mk (VArr []) (VObj []) false None) [] 0 None [] []))))
    initial
  = (mk (normalise (Codec.config_to_value DEFAULT_CHECKLIST))
        (normalise
           (VObj [("2024-05-01",
                   Codec.day_to_value
                     (DayRecord.mk "2024-05-01"
                        [DailyCheckResult.mk "c1" (Some YES) None (Some EmptyString) None]
                        (HealthRecord.mk "36.5" nashi nashi None) "t1"))]))
        false None, false).
Proof.
  refine (proj1 (proj2 (saved_state_loads_back (fun _ => true)
            (mk_world 1000 (mk (VArr []) (VObj []) false None) [] 0 None [] [])
            (Codec.config_to_value DEFAULT_CHECKLIST)
            (VObj [("2024-05-01",
                    Codec.day_to_value
                      (DayRecord.mk "2024-05-01"
                         [DailyCheckResult.mk "c1" (Some YES) None (Some EmptyString) None]
                         (HealthRecord.mk "36.5" nashi nashi None) "t1"))])
            1500 initial I eq_refl _ eq_refl eq_refl eq_refl _))).
  - simpl. repeat split; CodecFacts.distinct_keys.
  - simpl. lia.
Defined.

Lemma rejected_save_keeps_store_witness :
  localStorage
    (Storage.advance (fun _ => false) 1500
       (change (VArr []) (VObj [])
          (mk_world 1000 (mk (VArr []) (VObj []) false None) [] 0 None
             [(STORAGE_KEY, "{}")] [])))
  = [(STORAGE_KEY, "{}")].
Proof.
  exact (proj1 (rejected_save_keeps_store (fun _ => false)
           (mk_world 1000 (mk (VArr []) (VObj []) false None) [] 0 None
              [(STORAGE_KEY, "{}")] [])
           (VArr []) (VObj []) I eq_refl eq_refl)).
Defined.

Lemma spaced_changes_all_written_witness :
  setItem_calls
    (Storage.advance (fun _ => true) 3000
       (Storage.run (fun _ => true)
          [(1000, (VArr [], VObj [("2024-05-01", VStr "36.4")]));
           (1600, (VArr [], VObj [("2024-05-01", VStr "36.5")]))]
          (mk_world 1000 (mk (VArr []) (VObj []) false None) [] 0 None [] [])))
  = [Storage.stored_text (VArr []) (VObj [("2024-05-01", VStr "36.4")]);
     Storage.stored_text (VArr []) (VObj [("2024-05-01", VStr "36.5")])].
Proof.
  refine (spaced_changes_all_written (fun _ => true)
            (mk_world 1000 (mk (VArr []) (VObj []) false None) [] 0 None [] [])
            1000 (VArr []) (VObj [("2024-05-01", VStr "36.4")])
            [(1600, (VArr [], VObj [("2024-05-01", VStr "36.5")]))]
            3000 I eq_refl _ _ _).
  - simpl. lia.
  - simpl. lia.
  - simpl. lia.
Defined.

(** A stored value that is not JSON is replaced by the text of the default
    state. *)
Lemma startup_writes_loaded_state_witness :
  setItem_calls
    (Storage.advance (fun _ => true) 600
       (Storage.mount (Storage.opened 0 [(STORAGE_KEY, "{oops")])))
  = [Storage.stored_text (Codec.config_to_value DEFAULT_CHECKLIST) (VObj [])].
Proof.
  refine (proj1 (startup_writes_loaded_state (fun _ => true)
                   [(STORAGE_KEY, "{oops")] 0 600 _)).
  lia.
Defined.

End PersistFacts.

(** * More on the configuration operations *)

Module ConfigFacts.
Import JSFacts.

Lemma filter_other_ids (id : string) (l : list CheckItem) :
  id ∉ Settings.ids l ->
  List.filter (fun c => negb (String.eqb (CheckItem.id c) id)) l = l.
Proof.
  unfold Settings.ids. induction l as [|c l IH]; simpl; intros H; [reflexivity |].
  apply not_elem_of_cons in H as [Hne H].
  destruct (String.eqb_spec (CheckItem.id c) id); [congruence |]. simpl. now rewrite IH.
Qed.

(** X17. With pairwise distinct ids, a confirmed deletion removes the item
    of that id and nothing else: the items before it and after it stay, in
    their order. A declined deletion changes nothing, and so does a deletion
    of an id that no item has. *)
Theorem delete_removes_that_item (before after : list CheckItem) (item : CheckItem) :
  NoDup (Settings.ids (before ++ item :: after)) ->
  Settings.handleDeleteItem true (CheckItem.id item) (before ++ item :: after)
  = (before ++ after)%list /\
  Settings.handleDeleteItem false (CheckItem.id item) (before ++ item :: after)
  = (before ++ item :: after)%list /\
  (forall id, id ∉ Settings.ids (before ++ item :: after) ->
     Settings.handleDeleteItem true id (before ++ item :: after)
     = (before ++ item :: after)%list).
Proof.
  intros Hnd. split; [| split; [reflexivity |]].
  - unfold Settings.handleDeleteItem, Settings.ids in *.
    rewrite map_app in Hnd. simpl in Hnd.
    apply NoDup_app in Hnd as (_ & Hdisj & Hnd). apply NoDup_cons in Hnd as [Hafter _].
    rewrite List.filter_app. simpl. rewrite String.eqb_refl. simpl.
    rewrite (filter_other_ids _ before), (filter_other_ids _ after); [reflexivity | exact Hafter |].
    intros Hin. apply (Hdisj _ Hin). now left.
  - intros id Hid. unfold Settings.handleDeleteItem. now apply filter_other_ids.
Qed.

(** An added item can be deleted again: the configuration is the one
    before the addition. *)
Lemma delete_removes_that_item_witness :
  Settings.handleDeleteItem true (Settings.custom_id 1714550400000)
    (Settings.handleAddItem 1714550400000 DEFAULT_CHECKLIST)
  = DEFAULT_CHECKLIST.
Proof.
  assert (NoDup (Settings.ids (Settings.handleAddItem 1714550400000 DEFAULT_CHECKLIST))) as Hnd;
    [| exact (proj1 (delete_removes_that_item DEFAULT_CHECKLIST []
                       (CheckItem.mk (Settings.custom_id 1714550400000) "その他"
                          "新しいチェック項目" boolean None 12) Hnd))].
  rewrite SettingsFacts.ids_add. apply NoDup_app.
  split; [exact SettingsFacts.seed_ids_unique |]. split; [| apply NoDup_singleton].
  intros x Hx Hy. apply list_elem_of_singleton in Hy. subst x.
  now apply (SettingsFacts.custom_id_not_seed 1714550400000).
Defined.

Lemma edit_keeps {A : Type} (g : CheckItem -> A) (idx : nat) (v : string)
    (config config' : list CheckItem) :
  (forall c, g (Settings.set_text v c) = g c) ->
  Settings.handleTextChange idx v config = Some config' ->
  map g config' = map g config.
Proof.
  intros Hg. unfold Settings.handleTextChange.
  destruct (config !! idx) as [c|] eqn:E; [| discriminate].
  intros H. injection H as <-.
  revert idx E. induction config as [|x r IH]; intros [|idx] E; try discriminate; simpl.
  - injection E as ->. now rewrite Hg.
  - f_equal. now apply IH.
Qed.

Lemma filter_length_map {A : Type} (p : A -> bool) (l : list A) :
  length (List.filter p l) = length (List.filter (fun b : bool => b) (map p l)).
Proof.
  induction l as [|x l IH]; simpl; [reflexivity |]. destruct (p x); simpl; now rewrite IH.
Qed.

(** X18. An edit of the text of row [idx] changes that text and nothing
    else: the configuration keeps its length, every other row, and the id,
    category, type, unit and display order of the edited row; so the progress
    of every day is what it was. The edit fails exactly when there is no row
    [idx]. *)
Theorem text_edit_changes_text_only (idx : nat) (v : string) (config : list CheckItem) :
  (Settings.handleTextChange idx v config = None <-> length config <= idx) /\
  (forall config', Settings.handleTextChange idx v config = Some config' ->
     length config' = length config /\
     (forall j, j <> idx -> config' !! j = config !! j) /\
     (exists c, config !! idx = Some c /\
                config' !! idx
                = Some (CheckItem.mk (CheckItem.id c) (CheckItem.category c) v
                          (CheckItem.type c) (CheckItem.unit c) (CheckItem.displayOrder c))) /\
     (forall r, Progress.progress config' r = Progress.progress config r)).
Proof.
  split.
  - unfold Settings.handleTextChange. rewrite <- lookup_ge_None.
    destruct (config !! idx); split; congruence.
  - intros config' H. pose proof H as H0. unfold Settings.handleTextChange in H0.
    destruct (config !! idx) as [c|] eqn:E; [| discriminate]. injection H0 as <-.
    pose proof (lookup_lt_Some _ _ _ E) as Hlt.
    split; [apply length_insert |]. split; [| split].
    + intros j Hj. now apply list_lookup_insert_ne.
    + exists c. split; [reflexivity |]. now apply list_lookup_insert_eq.
    + intros r. unfold Progress.progress, Progress.completedCount.
      rewrite length_insert, !(filter_length_map (Progress.completed r)).
      now rewrite (edit_keeps (Progress.completed r) idx v config _ (fun c => eq_refl) H).
Qed.

Lemma text_edit_changes_text_only_witness :
  Progress.progress
    (<[0 := Settings.set_text "手洗いの確認"
              (seed "c1" "一般的衛生管理" "調理従事者の健康チェック・服装・手洗い" boolean None 1)]>
       DEFAULT_CHECKLIST)
    (DayRecord.mk "2024-05-01" [DailyCheckResult.mk "c1" (Some YES) None None None]
       (HealthRecord.mk EmptyString nashi nashi None) "t1")
  = Progress.progress DEFAULT_CHECKLIST
      (DayRecord.mk "2024-05-01" [DailyCheckResult.mk "c1" (Some YES) None None None]
         (HealthRecord.mk EmptyString nashi nashi None) "t1").
Proof.
  exact (proj2 (proj2 (proj2
           (proj2 (text_edit_changes_text_only 0 "手洗いの確認" DEFAULT_CHECKLIST) _ eq_refl)))
           (DayRecord.mk "2024-05-01" [DailyCheckResult.mk "c1" (Some YES) None None None]
              (HealthRecord.mk EmptyString nashi nashi None) "t1")).
Defined.

End ConfigFacts.

(** * More on restore and load *)

Module AdoptFacts.
Import JSFacts App.

(** X19. Whatever the file and whatever the answer to the confirmation,
    a restore either leaves the configuration and the record map exactly as
    they were, or replaces both by the two fields of the parsed file, which
    then are both truthy and were confirmed: never one of the two alone. The
    loading flag is not touched. *)
Theorem restore_all_or_nothing (file : option string) (confirmed : bool) (s : state) :
  isLoading (handleRestore file confirmed s) = isLoading s /\
  ((config (handleRestore file confirmed s) = config s /\
    records (handleRestore file confirmed s) = records s) \/
   (exists text data c r,
      file = Some text /\ importBackupJSON text = Some data /\
      JS.get data "config" = Some c /\ JS.get data "records" = Some r /\
      truthy c = true /\ truthy r = true /\ confirmed = true /\
      handleRestore file confirmed s
      = mk c r (isLoading s) (Some (msg_restored, success)))).
Proof.
  unfold handleRestore. destruct file as [text|]; [| split; [reflexivity | left; now split]].
  destruct (importBackupJSON text) as [data|] eqn:Ei; [| split; [reflexivity | left; now split]].
  destruct (JS.get data "config") as [c|] eqn:Ec; [| split; [reflexivity | left; now split]].
  destruct (truthy c) eqn:Tc; [| split; [reflexivity | left; now split]].
  destruct (JS.get data "records") as [r|] eqn:Er; [| split; [reflexivity | left; now split]].
  destruct (truthy r) eqn:Tr; [| split; [reflexivity | left; now split]].
  destruct confirmed; [| split; [reflexivity | left; now split]].
  split; [reflexivity |]. right. exists text, data, c, r. now repeat split.
Qed.

(** The text of a value and of what parsing that text gives are the same. *)
Lemma ser_normalise (v : JS.value) :
  forall ind, JS.ser ind (normalise v) = JS.ser ind v.
Proof.
  induction v as [| |b|n|d|s|l IH|l IH] using value_ind; intros ind; try reflexivity.
  - cbn [normalise JS.ser].
    assert (forall ind', map (fun x => JS.or_null (JS.ser ind' x))
                           (map (fun x => null_if_undefined (normalise x)) l)
                         = map (fun x => JS.or_null (JS.ser ind' x)) l) as Hmap.
    { intros ind'. rewrite map_map. induction IH as [|x r Hx Hr IHr]; [reflexivity |].
      simpl. rewrite IHr. f_equal.
      destruct (is_undefined x) eqn:Eu; [now destruct x |].
      now rewrite normalise_undefined, Hx. }
    assert (forall ind0 ind' (l1 l2 : list JS.value),
               map (fun x => JS.or_null (JS.ser ind' x)) l1
               = map (fun x => JS.or_null (JS.ser ind' x)) l2 ->
               ser_rest ind0 ind' (fun x => JS.or_null (JS.ser ind' x)) l1
               = ser_rest ind0 ind' (fun x => JS.or_null (JS.ser ind' x)) l2) as Hrest.
    { intros ind0 ind' l1. induction l1 as [|a l1 IH1]; intros [|b l2] H; try discriminate;
        [reflexivity |].
      simpl in H |- *. injection H as Ha Hl. now rewrite Ha, (IH1 l2 Hl). }
    specialize (Hmap (ind +:+ gap)). destruct l as [|x r]; [reflexivity |].
    simpl in Hmap |- *. injection Hmap as Hx Hr. now rewrite Hx, (Hrest _ _ _ _ Hr).
  - cbn [normalise JS.ser]. f_equal.
    assert (forall first, ser_members ind (ind +:+ gap) (JS.ser (ind +:+ gap)) first
                            (norm_members normalise l)
                          = ser_members ind (ind +:+ gap) (JS.ser (ind +:+ gap)) first l) as H.
    { induction IH as [|[k x] r Hx Hr IHr]; intros first; [reflexivity |].
      simpl in Hx |- *. destruct (is_undefined x) eqn:Eu.
      - rewrite (JSFacts.ser_undefined _ _ Eu). apply IHr.
      - simpl. rewrite Hx. destruct (JS.ser (ind +:+ gap) x); [now rewrite IHr | apply IHr]. }
    now rewrite H.
Qed.

(** What a confirmed restore of a backup of [st] leaves. *)
Lemma restore_backup_state (st cur : state) :
  JS.wf (snapshot (config st) (records st)) ->
  truthy (config st) = true -> truthy (records st) = true ->
  handleRestore (Some (handleBackup st)) true cur
  = mk (normalise (config st)) (normalise (records st)) (isLoading cur)
      (Some (msg_restored, success)).
Proof.
  intros Hwf Hc Hr.
  unfold handleRestore, handleBackup, importBackupJSON, exportBackupJSON.
  destruct (JS.stringify (snapshot (config st) (records st))) as [t|] eqn:Et;
    [| discriminate].
  simpl text_of. rewrite (parse_stringify _ _ Hwf Et).
  rewrite PersistFacts.snapshot_normalise by assumption.
  unfold snapshot. simpl JS.get. cbv iota beta.
  rewrite PersistFacts.truthy_normalise, Hc. cbv iota beta.
  rewrite PersistFacts.truthy_normalise, Hr. reflexivity.
Qed.

(** X20. A backup that is restored and exported again gives the same file,
    character for character, whatever state the restore replaced. *)
Theorem backup_restore_backup_same_file (st cur : state) :
  JS.wf (snapshot (config st) (records st)) ->
  truthy (config st) = true -> truthy (records st) = true ->
  handleBackup (handleRestore (Some (handleBackup st)) true cur) = handleBackup st.
Proof.
  intros Hwf Hc Hr. rewrite (restore_backup_state st cur Hwf Hc Hr).
  unfold handleBackup, exportBackupJSON. simpl config. simpl records.
  rewrite <- PersistFacts.snapshot_normalise by assumption.
  unfold JS.stringify. now rewrite ser_normalise.
Qed.

Lemma backup_restore_backup_same_file_witness :
  handleBackup
    (handleRestore
       (Some (handleBackup
                (mk (Codec.config_to_value DEFAULT_CHECKLIST)
                    (VObj [("2024-05-01",
                            Codec.day_to_value
                              (DayRecord.mk "2024-05-01"
                                 [DailyCheckResult.mk "c1" (Some YES) None (Some "済") None]
                                 (HealthRecord.mk "36.5" nashi nashi None) "t1"))])
                    false None)))
       true initial)
  = handleBackup
      (mk (Codec.config_to_value DEFAULT_CHECKLIST)
          (VObj [("2024-05-01",
                  Codec.day_to_value
                    (DayRecord.mk "2024-05-01"
                       [DailyCheckResult.mk "c1" (Some YES) None (Some "済") None]
                       (HealthRecord.mk "36.5" nashi nashi None) "t1"))])
          false None).
Proof.
  refine (backup_restore_backup_same_file
            (mk (Codec.config_to_value DEFAULT_CHECKLIST)
                (VObj [("2024-05-01",
                        Codec.day_to_value
                          (DayRecord.mk "2024-05-01"
                             [DailyCheckResult.mk "c1" (Some YES) None (Some "済") None]
                             (HealthRecord.mk "36.5" nashi nashi None) "t1"))])
                false None)
            initial _ eq_refl eq_refl).
  simpl. repeat split; CodecFacts.distinct_keys.
Defined.



(** X24. The backup file and the stored value hold the same data: a
    confirmed restore of a backup of a state leaves the configuration and the
    record map that a load of the value stored for that state leaves. *)
Theorem restore_and_reload_agree (st cur : state) :
  JS.wf (snapshot (config st) (records st)) ->
  truthy (config st) = true -> truthy (records st) = true ->
  config (handleRestore (Some (handleBackup st)) true cur)
  = config (fst (load [(STORAGE_KEY, Storage.stored_text (config st) (records st))] cur)) /\
  records (handleRestore (Some (handleBackup st)) true cur)
  = records (fst (load [(STORAGE_KEY, Storage.stored_text (config st) (records st))] cur)).
Proof.
  intros Hwf Hc Hr. rewrite (restore_backup_state st cur Hwf Hc Hr).
  rewrite (PersistFacts.load_stored_text (config st) (records st) _ cur Hwf Hc Hr);
    [now split |].
  reflexivity.
Qed.

Lemma restore_and_reload_agree_witness :
  records
    (handleRestore
       (Some (handleBackup
                (mk (Codec.config_to_value DEFAULT_CHECKLIST)
                    (VObj [("2024-05-01",
                            Codec.day_to_value
                              (DayRecord.mk "2024-05-01"
                                 [DailyCheckResult.mk "c1" (Some YES) None (Some "済") None]
                                 (HealthRecord.mk "36.5" nashi nashi None) "t1"))])
                    false None)))
       true initial)
  = records
      (fst (load
              [(STORAGE_KEY,
                Storage.stored_text (Codec.config_to_value DEFAULT_CHECKLIST)
                  (VObj [("2024-05-01",
                          Codec.day_to_value
                            (DayRecord.mk "2024-05-01"
                               [DailyCheckResult.mk "c1" (Some YES) None (Some "済") None]
                               (HealthRecord.mk "36.5" nashi nashi None) "t1"))]))]
              initial)).
Proof.
  refine (proj2 (restore_and_reload_agree
            (mk (Codec.config_to_value DEFAULT_CHECKLIST)
                (VObj [("2024-05-01",
                        Codec.day_to_value
                          (DayRecord.mk "2024-05-01"
                             [DailyCheckResult.mk "c1" (Some YES) None (Some "済") None]
                             (HealthRecord.mk "36.5" nashi nashi None) "t1"))])
                false None)
            initial _ eq_refl eq_refl)).
  simpl. repeat split; CodecFacts.distinct_keys.
Defined.

End AdoptFacts.

(** * Edits of the two views on one day *)

Module MergeFacts.
Import Engine EngineFacts HealthFacts RecordFacts.

(** X22. A health edit and a saved check on the same day, one after the
    other in either order and each made on the record the view shows after
    the one before, merge: the record stored in the end has the checks of the
    save and the health of the edit, neither undoing the other. *)
Theorem health_edit_and_check_save_merge (h : heap) (records : list (string * loc))
    (currentDate : string) (rl : loc) (r : DayRecord) (e : HealthView.edit)
    (c : DailyCheckResult) (t0 t1 t2 t3 : string) :
  read_record h rl = Some r -> holds_records h records ->
  (exists (h1 h2 : heap) (l1 l2 : loc),
     HealthView.handleChange records currentDate rl e t0 t1 records h
     = Some (obj_set currentDate l1 records, h1) /\
     saveCheck (obj_set currentDate l1 records) currentDate l1 c t2 t3
       (obj_set currentDate l1 records) h1
     = Some (obj_set currentDate l2 (obj_set currentDate l1 records), h2) /\
     read_record h2 l2
     = Some (DayRecord.mk (DayRecord.date r) (CheckModal.newChecks c (DayRecord.checks r))
               (HealthView.newHealth e (DayRecord.health r)) t3)) /\
  (exists (h1 h2 : heap) (l1 l2 : loc),
     saveCheck records currentDate rl c t0 t1 records h
     = Some (obj_set currentDate l1 records, h1) /\
     HealthView.handleChange (obj_set currentDate l1 records) currentDate l1 e t2 t3
       (obj_set currentDate l1 records) h1
     = Some (obj_set currentDate l2 (obj_set currentDate l1 records), h2) /\
     read_record h2 l2
     = Some (DayRecord.mk (DayRecord.date r) (CheckModal.newChecks c (DayRecord.checks r))
               (HealthView.newHealth e (DayRecord.health r)) t3)).
Proof.
  intros Hr Hrec. split.
  - destruct (handleChange_step h records records currentDate rl r e t0 t1 Hr Hrec Hrec)
      as (h1 & l1 & H1 & Hnew1 & _ & Hrec1).
    destruct (saveCheck_step h1 _ _ currentDate l1 _ c t2 t3 Hnew1 Hrec1 Hrec1)
      as (h2 & l2 & H2 & Hnew2 & _ & _).
    exists h1, h2, l1, l2. repeat split; assumption.
  - destruct (saveCheck_step h records records currentDate rl r c t0 t1 Hr Hrec Hrec)
      as (h1 & l1 & H1 & Hnew1 & _ & Hrec1).
    destruct (handleChange_step h1 _ _ currentDate l1 _ e t2 t3 Hnew1 Hrec1 Hrec1)
      as (h2 & l2 & H2 & Hnew2 & _ & _).
    exists h1, h2, l1, l2. repeat split; assumption.
Qed.

Lemma health_edit_and_check_save_merge_witness :
  let h := <[2 := CRecord "2024-05-01" 0 1 "2024-05-01T08:00:00.000Z"]>
             (<[1 := CHealth (HealthRecord.mk EmptyString nashi nashi None)]>
                (<[0 := CArray []]> ∅)) in
  exists (h1 h2 : heap) (l1 l2 : loc),
    HealthView.handleChange [("2024-05-01", 2)] "2024-05-01" 2 (HealthView.Temp "36.5")
      "t0" "t1" [("2024-05-01", 2)] h
    = Some ([("2024-05-01", l1)], h1) /\
    saveCheck [("2024-05-01", l1)] "2024-05-01" l1
      (DailyCheckResult.mk "c1" (Some YES) None (Some EmptyString) None) "t2" "t3"
      [("2024-05-01", l1)] h1
    = Some ([("2024-05-01", l2)], h2) /\
    read_record h2 l2
    = Some (DayRecord.mk "2024-05-01"
              [DailyCheckResult.mk "c1" (Some YES) None (Some EmptyString) None]
              (HealthRecord.mk "36.5" nashi nashi None) "t3").
Proof.
  intros h.
  assert (holds_records h [("2024-05-01", 2)]) as Hrec.
  { intros d l Hd. simpl in Hd. destruct (String.eqb d "2024-05-01"); [| discriminate].
    injection Hd as <-. now eexists _, _, _, _. }
  destruct (proj1 (health_edit_and_check_save_merge h [("2024-05-01", 2)] "2024-05-01" 2
              (DayRecord.mk "2024-05-01" [] (HealthRecord.mk EmptyString nashi nashi None)
                 "2024-05-01T08:00:00.000Z")
              (HealthView.Temp "36.5")
              (DailyCheckResult.mk "c1" (Some YES) None (Some EmptyString) None)
              "t0" "t1" "t2" "t3" eq_refl Hrec))
    as (h1 & h2 & l1 & l2 & H1 & H2 & H3).
  exists h1, h2, l1, l2. simpl in H1, H2. repeat split; assumption.
Defined.

End MergeFacts.

(** * More on the progress *)

Module PercentFacts.
Local Open Scope Z_scope.

(** ** Array lengths as Numbers *)

Lemma digits2_size (p : positive) : digits2_pos p = Pos.size p.
Proof. induction p; simpl; congruence. Qed.

Lemma digits2_bound (p : positive) : Zpos p < 2 ^ 53 -> Zpos (digits2_pos p) <= 53.
Proof.
  intros Hp. rewrite digits2_size.
  destruct (Z.le_gt_cases (Zpos (Pos.size p)) 53) as [H | H]; [exact H | exfalso].
  pose proof (Pos.size_le p) as Hs.
  assert (2 ^ 54 <= 2 ^ Zpos (Pos.size p)) as Hpow by (apply Z.pow_le_mono_r; lia).
  assert (Zpos (2 ^ Pos.size p) = 2 ^ Zpos (Pos.size p)) as E by apply Pos2Z.inj_pow.
  assert (Zpos (2 ^ Pos.size p) <= Zpos p~0) as Hle by exact Hs.
  rewrite E in Hle. change (2 ^ 54) with 18014398509481984 in Hpow.
  change (2 ^ 53) with 9007199254740992 in Hp. lia.
Qed.

Lemma digits2_iter (p q : positive) :
  digits2_pos (Pos.iter xO p q) = (digits2_pos p + q)%positive.
Proof.
  induction q as [|q IH] using Pos.peano_ind.
  - simpl. lia.
  - rewrite Pos.iter_succ. simpl. rewrite IH. lia.
Qed.

(** A mantissa of 53 bits with an exponent in range is not rounded. *)
Lemma round_aux_exact (sx : bool) (mz : positive) (ez : Z) :
  Zpos (digits2_pos mz) = 53 -> -1074 <= ez <= 971 ->
  binary_round_aux prec emax sx (Zpos mz) ez loc_Exact = S754_finite sx mz ez.
Proof.
  intros Hd He. unfold binary_round_aux, shr_fexp.
  assert (forall m, Zdigits2 (Z.pos m) = Z.pos (digits2_pos m)) as Hz by reflexivity.
  rewrite Hz, Hd.
  assert (fexp prec emax (53 + ez) - ez = 0) as ->.
  { unfold fexp, emin, prec, emax. lia. }
  simpl. rewrite Hd.
  assert (fexp prec emax (53 + ez) - ez = 0) as ->.
  { unfold fexp, emin, prec, emax. lia. }
  simpl. assert ((ez <=? emax - prec) = true) as ->
    by (apply Z.leb_le; unfold emax, prec; lia).
  reflexivity.
Qed.

Lemma normalize_finite (p : positive) :
  Zpos p < 2 ^ 53 ->
  exists m e, binary_normalize prec emax (Zpos p) 0 false = S754_finite false m e.
Proof.
  intros Hp. pose proof (digits2_bound p Hp) as Hd.
  unfold binary_normalize, binary_round, shl_align.
  assert (fexp prec emax (Z.pos (digits2_pos p) + 0) - 0 = Z.pos (digits2_pos p) - 53) as E.
  { unfold fexp, emin, prec, emax. lia. }
  assert (fexp prec emax (Z.pos (digits2_pos p) + 0) = Z.pos (digits2_pos p) - 53) as E'
    by lia.
  rewrite E, E'.
  destruct (Z.pos (digits2_pos p) - 53) as [|q|q] eqn:Eq; [| lia |].
  - eexists _, _. apply round_aux_exact; lia.
  - eexists _, _. rewrite <- Eq. apply round_aux_exact; [| lia].
    rewrite digits2_iter. lia.
Qed.

(** The length of a non-empty array is a positive finite Number. *)
Lemma number_of_nat_finite (n : nat) :
  (0 < n)%nat -> Z.of_nat n < 2 ^ 53 ->
  exists m e, Prim2SF (Progress.number_of_nat n) = S754_finite false m e.
Proof.
  intros Hn Hb. unfold Progress.number_of_nat. rewrite of_uint63_spec, Uint63.of_Z_spec.
  rewrite Z.mod_small
    by (change wB with 9223372036854775808; change (2 ^ 53) with 9007199254740992 in Hb; lia).
  destruct (Z.of_nat n) as [|p|p] eqn:E; [lia | | lia].
  now apply normalize_finite.
Qed.

(** [x / x] is 1 for a finite [x] that is not zero. *)
Lemma div_self (x : float) (s : bool) (m : positive) (e : Z) :
  Prim2SF x = S754_finite s m e -> (x / x)%float = 1%float.
Proof.
  intros Hx. apply Prim2SF_inj. rewrite FloatAxioms.div_spec, Hx.
  unfold SF64div, SFdiv, SFdiv_core_binary.
  assert (Zdigits2 (Z.pos m) + e - (Zdigits2 (Z.pos m) + e) = 0) as -> by lia.
  assert (e - e = 0) as -> by lia.
  change (Z.min (fexp prec emax 0) 0) with (-53).
  change (0 - -53) with 53.
  assert (Z.shiftl (Z.pos m) 53 = 2 ^ 53 * Z.pos m) as -> by (rewrite Z.shiftl_mul_pow2; lia).
  destruct (Z.div_eucl (2 ^ 53 * Z.pos m) (Z.pos m)) as [q r] eqn:E.
  assert (q = 2 ^ 53 /\ r = 0) as [-> ->].
  { assert (2 ^ 53 * Z.pos m / Z.pos m = q) as Hq by (unfold Z.div; now rewrite E).
    assert ((2 ^ 53 * Z.pos m) mod Z.pos m = r) as Hr by (unfold Z.modulo; now rewrite E).
    rewrite Z.div_mul in Hq by lia. rewrite Z.mod_mul in Hr by lia. now split. }
  assert (new_location (Z.pos m) 0 = loc_Exact) as ->.
  { unfold new_location. now destruct (Z.even (Z.pos m)). }
  destruct s; reflexivity.
Qed.

Lemma div_zero (x : float) (m : positive) (e : Z) :
  Prim2SF x = S754_finite false m e -> (0 / x)%float = 0%float.
Proof. intros Hx. apply Prim2SF_inj. rewrite FloatAxioms.div_spec, Hx. reflexivity. Qed.

Lemma filter_all {A : Type} (p : A -> bool) (l : list A) :
  (forall x, x ∈ l -> p x = true) -> List.filter p l = l.
Proof.
  induction l as [|x l IH]; simpl; intros H; [reflexivity |].
  rewrite (H x) by (now left). f_equal. apply IH. intros y Hy. apply H. now right.
Qed.

Lemma filter_none {A : Type} (p : A -> bool) (l : list A) :
  (forall x, x ∈ l -> p x = false) -> List.filter p l = [].
Proof.
  induction l as [|x l IH]; simpl; intros H; [reflexivity |].
  rewrite (H x) by (now left). apply IH. intros y Hy. apply H. now right.
Qed.

(** X23. For a configuration that is not empty, the progress is 100 when
    every configured item has an answer recorded for the day, whatever the
    answers, and 0 when none has. *)
Theorem progress_all_or_none_answered (config : list CheckItem) (r : DayRecord) :
  (0 < length config)%nat -> Z.of_nat (length config) < 2 ^ 53 ->
  ((forall item, item ∈ config -> Progress.completed r item = true) ->
   Progress.progress config r = 100%float) /\
  ((forall item, item ∈ config -> Progress.completed r item = false) ->
   Progress.progress config r = 0%float).
Proof.
  intros Hn Hb. destruct (number_of_nat_finite _ Hn Hb) as (m & e & Hfin).
  unfold Progress.progress, Progress.completedCount. split; intros H.
  - rewrite (filter_all _ _ H), (div_self _ _ _ _ Hfin). reflexivity.
  - rewrite (filter_none _ _ H). change (Progress.number_of_nat (length [])) with 0%float.
    rewrite (div_zero _ _ _ Hfin). reflexivity.
Qed.

Lemma progress_all_or_none_answered_witness :
  Progress.progress DEFAULT_CHECKLIST
    (DayRecord.mk "2024-05-01" [] (HealthRecord.mk EmptyString nashi nashi None) "t0")
  = 0%float.
Proof.
  refine (proj2 (progress_all_or_none_answered DEFAULT_CHECKLIST
                   (DayRecord.mk "2024-05-01" [] (HealthRecord.mk EmptyString nashi nashi None)
                      "t0") _ _) _).
  - simpl. lia.
  - simpl. lia.
  - intros item _. reflexivity.
Defined.

End PercentFacts.

(** * Toasts *)

Module ToastFacts.
Import App.

(** X25. A toast shown while no timeout is pending stays for 3000 ms and
    is gone then. A second toast shown before the first is gone is cleared
    by the timeout of the first: it stays until 3000 ms after the first was
    shown, which is less than 3000 ms after it was shown itself. *)
Theorem toast_cleared_by_older_timeout (v : Toast.view) (t1 t2 : nat)
    (m1 m2 : string) (y1 y2 : toast_type) :
  Toast.timeouts v = [] -> t1 <= t2 -> t2 < t1 + 3000 ->
  (forall t, t < t1 + 3000 ->
     Toast.shown (Toast.advance t (Toast.showToast t1 m1 y1 v)) = Some (m1, y1)) /\
  Toast.shown (Toast.advance (t1 + 3000) (Toast.showToast t1 m1 y1 v)) = None /\
  (forall t, t < t1 + 3000 ->
     Toast.shown
       (Toast.advance t
          (Toast.showToast t2 m2 y2 (Toast.advance t2 (Toast.showToast t1 m1 y1 v))))
     = Some (m2, y2)) /\
  Toast.shown
    (Toast.advance (t1 + 3000)
       (Toast.showToast t2 m2 y2 (Toast.advance t2 (Toast.showToast t1 m1 y1 v))))
  = None.
Proof.
  intros Hv H12 H21. unfold Toast.showToast, Toast.advance. rewrite Hv. simpl.
  assert ((t1 + 3000 <=? t2)%nat = false) as E2 by (apply Nat.leb_gt; lia).
  rewrite E2. simpl. rewrite Nat.leb_refl. simpl.
  split; [| split; [reflexivity | split; [| reflexivity]]].
  - intros t Ht. assert ((t1 + 3000 <=? t)%nat = false) as -> by (apply Nat.leb_gt; lia).
    reflexivity.
  - intros t Ht. assert ((t1 + 3000 <=? t)%nat = false) as -> by (apply Nat.leb_gt; lia).
    assert ((t2 + 3000 <=? t)%nat = false) as -> by (apply Nat.leb_gt; lia).
    reflexivity.
Qed.

(** The toast of a finished export, shown 100 ms after the toast that
    announced it, is cleared 2900 ms later. *)
Lemma toast_cleared_by_older_timeout_witness :
  Toast.shown
    (Toast.advance 3000
       (Toast.showToast 100 "ダウンロードを開始しました" success
          (Toast.advance 100
             (Toast.showToast 0 "Excelを作成中..." success (Toast.mk_view None [])))))
  = None.
Proof.
  refine (proj2 (proj2 (proj2
            (toast_cleared_by_older_timeout (Toast.mk_view None []) 0 100
               "Excelを作成中..." "ダウンロードを開始しました" success success
               eq_refl _ _)))).
  - lia.
  - lia.
Defined.

End ToastFacts.
